(** * pgtenant: tenant isolation by query rewriting

    A shallow embedding of the Go package [pgtenant] (conn.go, transform.go,
    the query cache) and the properties of its rewriter, its normalizer and
    its driver-facing [transform] operation.

    Go strings are byte sequences: they are [string]s here, one [ascii] per
    byte.  Go's [int] is a 64-bit signed integer: it is a [Z], and the one
    addition the package performs on it is wrapped explicitly. *)

From Stdlib Require Import ZArith String Ascii List Lia Bool.
From stdpp Require Import base gmap strings list pretty sorting.

Import ListNotations.
Local Open Scope string_scope.
Local Open Scope Z_scope.

(** ** Go's [strings] package, as far as the package uses it *)

Module GoStrings.

Definition newline : ascii := "010"%char.
Definition space : ascii := " "%char.
Definition dquote : ascii := "034"%char.
Definition squote : ascii := "039"%char.

Definition byte (c : ascii) : N := N_of_ascii c.

(** [unicode.IsSpace] on the runes below U+0080: tab, line feed, vertical
    tab, form feed, carriage return, space. *)
Definition isSpace1 (c : ascii) : bool :=
  let b := byte c in ((9 <=? b) && (b <=? 13) || (b =? 32))%N.

(** The two-byte UTF-8 encodings of white space: U+0085 and U+00A0. *)
Definition isSpace2 (c0 c1 : ascii) : bool :=
  ((byte c0 =? 194) && ((byte c1 =? 133) || (byte c1 =? 160)))%N.

(** The three-byte UTF-8 encodings of white space: U+1680, U+2000 to
    U+200A, U+2028, U+2029, U+202F, U+205F and U+3000. *)
Definition isSpace3 (c0 c1 c2 : ascii) : bool :=
  let b0 := byte c0 in
  let b1 := byte c1 in
  let b2 := byte c2 in
  ((b0 =? 225) && (b1 =? 154) && (b2 =? 128)
   || (b0 =? 226) && (b1 =? 128)
      && ((128 <=? b2) && (b2 <=? 138) || (b2 =? 168) || (b2 =? 169) || (b2 =? 175))
   || (b0 =? 226) && (b1 =? 129) && (b2 =? 159)
   || (b0 =? 227) && (b1 =? 128) && (b2 =? 128))%N.

(** Cutting the leading white-space runes, the rune being recognised by its
    bytes: [p1], [p2] and [p3] say whether one, two or three bytes, in the
    order they are met, are a white-space rune.  A byte sequence that is
    not the UTF-8 encoding of a white-space rune stops the cut, as Go's
    decoder yields a rune that is not white space for it. *)
Section Strip.
Variable p1 : ascii -> bool.
Variable p2 : ascii -> ascii -> bool.
Variable p3 : ascii -> ascii -> ascii -> bool.

Fixpoint strip (s : string) : string :=
  match s with
  | EmptyString => EmptyString
  | String c0 r0 =>
      if p1 c0 then strip r0
      else match r0 with
           | String c1 r1 =>
               if p2 c0 c1 then strip r1
               else match r1 with
                    | String c2 r2 => if p3 c0 c1 c2 then strip r2 else s
                    | EmptyString => s
                    end
           | EmptyString => s
           end
  end.
End Strip.

Fixpoint rev (s : string) : string :=
  match s with
  | EmptyString => EmptyString
  | String c r => rev r ++ String c EmptyString
  end.

(** [strings.TrimLeftFunc(s, unicode.IsSpace)] *)
Definition TrimLeft (s : string) : string := strip isSpace1 isSpace2 isSpace3 s.

(** [strings.TrimRightFunc(s, unicode.IsSpace)]: the same cut from the end,
    where the bytes of a rune are met last byte first. *)
Definition TrimRight (s : string) : string :=
  rev (strip isSpace1 (fun c1 c0 => isSpace2 c0 c1)
             (fun c2 c1 c0 => isSpace3 c0 c1 c2) (rev s)).

(** [strings.TrimSpace(s)] *)
Definition TrimSpace (s : string) : string := TrimRight (TrimLeft s).

(** [strings.Split(s, sep)] for a separator of one byte: the pieces between
    the separators, one piece more than there are separators. *)
Fixpoint Split (s : string) (sep : ascii) : list string :=
  match s with
  | EmptyString => [EmptyString]
  | String c r =>
      if Ascii.eqb c sep then EmptyString :: Split r sep
      else match Split r sep with
           | h :: t => String c h :: t
           | [] => [String c EmptyString]
           end
  end.

(** [strings.Join(elems, sep)] *)
Fixpoint Join (elems : list string) (sep : string) : string :=
  match elems with
  | [] => EmptyString
  | [e] => e
  | e :: rest => e ++ sep ++ Join rest sep
  end.

(** [strings.ToUpper] on the letters a to z; every other byte is kept.  The
    package applies it to the type names of [pg_catalog], which are ASCII. *)
Definition upperByte (c : ascii) : ascii :=
  let b := byte c in
  if ((97 <=? b) && (b <=? 122))%N then ascii_of_N (b - 32) else c.

Fixpoint ToUpper (s : string) : string :=
  match s with
  | EmptyString => EmptyString
  | String c r => String (upperByte c) (ToUpper r)
  end.

Definition contains (c : ascii) (s : string) : bool :=
  existsb (Ascii.eqb c) (list_ascii_of_string s).

End GoStrings.

(** ** conn.go: the normalizer *)

Definition isEmpty (s : string) : bool :=
  match s with EmptyString => true | _ => false end.

(** [for len(lines) > 0 && len(lines[0]) == 0 { lines = lines[1:] }] *)
Fixpoint dropLeadingEmpty (lines : list string) : list string :=
  match lines with
  | l :: rest => if isEmpty l then dropLeadingEmpty rest else lines
  | [] => []
  end.

(** [for len(lines) > 0 && len(lines[len(lines)-1]) == 0 { lines = lines[:len(lines)-1] }] *)
Fixpoint dropTrailingEmpty (lines : list string) : list string :=
  match lines with
  | [] => []
  | l :: rest =>
      match dropTrailingEmpty rest with
      | [] => if isEmpty l then [] else [l]
      | rest' => l :: rest'
      end
  end.

Definition normalize (q : string) : string :=
  let lines := GoStrings.Split q GoStrings.newline in
  let lines := List.map GoStrings.TrimSpace lines in
  let lines := dropLeadingEmpty lines in
  let lines := dropTrailingEmpty lines in
  GoStrings.Join lines " ".

(** ** The parse tree

    The parser and its node package are not part of the repository.  The
    node kinds, their fields and the enumerations below are those of the
    parser's package [nodes] that the rewriter reads, with Go's names.  A
    struct the rewriter takes as a parameter or reaches through a pointer is
    a record in a module of its name; the other node kinds carry their
    fields as constructor arguments.  A field of type [*string] that the
    parser always fills is a [string]; [IndexElem.Name], which it leaves nil
    for an expression, is an [option].  A field of interface type [Node]
    that is nil holds [nodes.Nil]. *)

Inductive A_Expr_Kind :=
| AEXPR_OP | AEXPR_OP_ANY | AEXPR_OP_ALL | AEXPR_DISTINCT | AEXPR_NOT_DISTINCT
| AEXPR_NULLIF | AEXPR_OF | AEXPR_IN | AEXPR_LIKE | AEXPR_ILIKE | AEXPR_SIMILAR
| AEXPR_BETWEEN | AEXPR_NOT_BETWEEN | AEXPR_BETWEEN_SYM | AEXPR_NOT_BETWEEN_SYM
| AEXPR_PAREN.

Inductive BoolExprType := AND_EXPR | OR_EXPR | NOT_EXPR.

Inductive SubLinkType :=
| EXISTS_SUBLINK | ALL_SUBLINK | ANY_SUBLINK | ROWCOMPARE_SUBLINK | EXPR_SUBLINK
| MULTIEXPR_SUBLINK | ARRAY_SUBLINK | CTE_SUBLINK.

Inductive JoinType :=
| JOIN_INNER | JOIN_LEFT | JOIN_FULL | JOIN_RIGHT | JOIN_SEMI | JOIN_ANTI
| JOIN_UNIQUE_OUTER | JOIN_UNIQUE_INNER.

Inductive NullTestType := IS_NULL | IS_NOT_NULL.

Inductive SortByDir := SORTBY_DEFAULT | SORTBY_ASC | SORTBY_DESC | SORTBY_USING.

Inductive OnConflictAction := ONCONFLICT_NONE | ONCONFLICT_NOTHING | ONCONFLICT_UPDATE.

Inductive SQLValueFunctionOp :=
| SVFOP_CURRENT_DATE | SVFOP_CURRENT_TIME | SVFOP_CURRENT_TIME_N
| SVFOP_CURRENT_TIMESTAMP | SVFOP_CURRENT_TIMESTAMP_N | SVFOP_LOCALTIME
| SVFOP_LOCALTIME_N | SVFOP_LOCALTIMESTAMP | SVFOP_LOCALTIMESTAMP_N
| SVFOP_CURRENT_ROLE | SVFOP_CURRENT_USER | SVFOP_USER | SVFOP_SESSION_USER
| SVFOP_CURRENT_CATALOG | SVFOP_CURRENT_SCHEMA.

#[global] Instance A_Expr_Kind_eq_dec : EqDecision A_Expr_Kind.
Proof. solve_decision. Defined.
#[global] Instance BoolExprType_eq_dec : EqDecision BoolExprType.
Proof. solve_decision. Defined.
#[global] Instance SubLinkType_eq_dec : EqDecision SubLinkType.
Proof. solve_decision. Defined.
#[global] Instance JoinType_eq_dec : EqDecision JoinType.
Proof. solve_decision. Defined.
#[global] Instance OnConflictAction_eq_dec : EqDecision OnConflictAction.
Proof. solve_decision. Defined.

Module Alias.
Record t (N : Type) : Type := mk { Aliasname : string; Colnames : list N }.
Arguments mk {N}. Arguments Aliasname {N}. Arguments Colnames {N}.
End Alias.

Module RangeVar.
Record t (N : Type) : Type := mk { Relname : string; Alias : option (Alias.t N) }.
Arguments mk {N}. Arguments Relname {N}. Arguments Alias {N}.
End RangeVar.

Module TypeName.
Record t (N : Type) : Type :=
  mk { Names : list N; Typmods : list N; ArrayBounds : list N }.
Arguments mk {N}. Arguments Names {N}. Arguments Typmods {N}.
Arguments ArrayBounds {N}.
End TypeName.

Module WithClause.
Record t (N : Type) : Type := mk { Ctes : list N; Recursive : bool }.
Arguments mk {N}. Arguments Ctes {N}. Arguments Recursive {N}.
End WithClause.

Module InferClause.
Record t (N : Type) : Type := mk { IndexElems : list N; WhereClause : N }.
Arguments mk {N}. Arguments IndexElems {N}. Arguments WhereClause {N}.
End InferClause.

Module OnConflictClause.
Record t (N : Type) : Type :=
  mk { Action : OnConflictAction;
       Infer : option (InferClause.t N);
       TargetList : list N;
       WhereClause : N }.
Arguments mk {N}. Arguments Action {N}. Arguments Infer {N}.
Arguments TargetList {N}. Arguments WhereClause {N}.
End OnConflictClause.

Module SelectStmt.
Record t (N : Type) : Type :=
  mk { DistinctClause : list N;
       TargetList : list N;
       FromClause : list N;
       WhereClause : N;
       GroupClause : list N;
       HavingClause : N;
       ValuesLists : list (list N);
       SortClause : list N;
       LimitOffset : N;
       LimitCount : N;
       WithClause : option (WithClause.t N) }.
Arguments mk {N}. Arguments DistinctClause {N}. Arguments TargetList {N}.
Arguments FromClause {N}. Arguments WhereClause {N}. Arguments GroupClause {N}.
Arguments HavingClause {N}. Arguments ValuesLists {N}. Arguments SortClause {N}.
Arguments LimitOffset {N}. Arguments LimitCount {N}. Arguments WithClause {N}.
End SelectStmt.

Module InsertStmt.
Record t (N : Type) : Type :=
  mk { Relation : RangeVar.t N;
       Cols : list N;
       SelectStmt : N;
       OnConflictClause : option (OnConflictClause.t N);
       ReturningList : list N;
       WithClause : option (WithClause.t N) }.
Arguments mk {N}. Arguments Relation {N}. Arguments Cols {N}.
Arguments SelectStmt {N}. Arguments OnConflictClause {N}.
Arguments ReturningList {N}. Arguments WithClause {N}.
End InsertStmt.

Module UpdateStmt.
Record t (N : Type) : Type :=
  mk { Relation : RangeVar.t N;
       TargetList : list N;
       WhereClause : N;
       FromClause : list N;
       ReturningList : list N;
       WithClause : option (WithClause.t N) }.
Arguments mk {N}. Arguments Relation {N}. Arguments TargetList {N}.
Arguments WhereClause {N}. Arguments FromClause {N}.
Arguments ReturningList {N}. Arguments WithClause {N}.
End UpdateStmt.

Module DeleteStmt.
Record t (N : Type) : Type :=
  mk { Relation : RangeVar.t N;
       UsingClause : list N;
       WhereClause : N;
       ReturningList : list N;
       WithClause : option (WithClause.t N) }.
Arguments mk {N}. Arguments Relation {N}. Arguments UsingClause {N}.
Arguments WhereClause {N}. Arguments ReturningList {N}. Arguments WithClause {N}.
End DeleteStmt.

Module nodes.

#[warnings="-register-all"]
Inductive Node : Type :=
| Nil
| RawStmt (Stmt : Node)
| InsertStmt (stmt : InsertStmt.t Node)
| SelectStmt (stmt : SelectStmt.t Node)
| UpdateStmt (stmt : UpdateStmt.t Node)
| DeleteStmt (stmt : DeleteStmt.t Node)
| CommonTableExpr (Ctename : string) (Ctequery : Node)
| IndexElem (Name : option string) (Expr : Node)
| RangeSubselect (Subquery : Node) (Alias : option (Alias.t Node))
| ParamRef (Number : Z)
| TypeCast (Arg : Node) (TypeName : TypeName.t Node)
| ResTarget (Name : option string) (Val : Node)
| ColumnRef (Fields : list Node)
| A_Star
| String (Str : string)
| Integer (Ival : Z)
| Float (Str : string)
| Null
| BitString (Str : string)
| A_Expr (Kind : A_Expr_Kind) (Name : list Node) (Lexpr Rexpr : Node)
| FuncCall (Funcname : list Node) (Args : list Node) (AggStar : bool)
| BoolExpr (Boolop : BoolExprType) (Args : list Node)
| SubLink (SubLinkType : SubLinkType) (Testexpr : Node) (Subselect : Node)
| A_Const (Val : Node)
| RangeVar (rv : RangeVar.t Node)
| CoalesceExpr (Args : list Node)
| SetToDefault
| NullTest (Arg : Node) (Nulltesttype : NullTestType)
| CaseExpr (Arg : Node) (Args : list Node) (Defresult : Node)
| CaseWhen (Expr : Node) (Result : Node)
| JoinExpr (Jointype : JoinType) (Larg Rarg : Node) (Quals : Node)
| RangeFunction (Functions : list Node) (Alias : option (Alias.t Node))
| List (Items : list Node)
| RowExpr (Args : list Node)
| SQLValueFunction (Op : SQLValueFunctionOp)
| SortBy (Node_ : Node) (SortbyDir : SortByDir)
| Other (kind : string) (fields : list Node).

(** [pg_query.ParsetreeList] *)
Record ParsetreeList : Type := { Statements : list Node }.

End nodes.

Abbreviation Node := nodes.Node.

(** The Go name of a node's dynamic type, as [%T] prints it. *)
Definition typeName (n : Node) : string :=
  match n with
  | nodes.Nil => "<nil>"
  | nodes.RawStmt _ => "nodes.RawStmt"
  | nodes.InsertStmt _ => "nodes.InsertStmt"
  | nodes.SelectStmt _ => "nodes.SelectStmt"
  | nodes.UpdateStmt _ => "nodes.UpdateStmt"
  | nodes.DeleteStmt _ => "nodes.DeleteStmt"
  | nodes.CommonTableExpr _ _ => "nodes.CommonTableExpr"
  | nodes.IndexElem _ _ => "nodes.IndexElem"
  | nodes.RangeSubselect _ _ => "nodes.RangeSubselect"
  | nodes.ParamRef _ => "nodes.ParamRef"
  | nodes.TypeCast _ _ => "nodes.TypeCast"
  | nodes.ResTarget _ _ => "nodes.ResTarget"
  | nodes.ColumnRef _ => "nodes.ColumnRef"
  | nodes.A_Star => "nodes.A_Star"
  | nodes.String _ => "nodes.String"
  | nodes.Integer _ => "nodes.Integer"
  | nodes.Float _ => "nodes.Float"
  | nodes.Null => "nodes.Null"
  | nodes.BitString _ => "nodes.BitString"
  | nodes.A_Expr _ _ _ _ => "nodes.A_Expr"
  | nodes.FuncCall _ _ _ => "nodes.FuncCall"
  | nodes.BoolExpr _ _ => "nodes.BoolExpr"
  | nodes.SubLink _ _ _ => "nodes.SubLink"
  | nodes.A_Const _ => "nodes.A_Const"
  | nodes.RangeVar _ => "nodes.RangeVar"
  | nodes.CoalesceExpr _ => "nodes.CoalesceExpr"
  | nodes.SetToDefault => "nodes.SetToDefault"
  | nodes.NullTest _ _ => "nodes.NullTest"
  | nodes.CaseExpr _ _ _ => "nodes.CaseExpr"
  | nodes.CaseWhen _ _ => "nodes.CaseWhen"
  | nodes.JoinExpr _ _ _ _ => "nodes.JoinExpr"
  | nodes.RangeFunction _ _ => "nodes.RangeFunction"
  | nodes.List _ => "nodes.List"
  | nodes.RowExpr _ => "nodes.RowExpr"
  | nodes.SQLValueFunction _ => "nodes.SQLValueFunction"
  | nodes.SortBy _ _ => "nodes.SortBy"
  | nodes.Other kind _ => "nodes." ++ kind
  end.

(** ** transform.go: the parameter scan

    [findMaxParam] walks a value by reflection: a [ParamRef] yields its
    number, a struct and a slice yield the greatest result of their fields
    and elements, starting from the first one, and every other value (a
    number, a string, a nil pointer or interface) yields 0.  [reflectWalk]
    is that walk over the fields of the tree, in their order; [leaf] is
    applied to the number of a [ParamRef], and [join] to the results of the
    fields of a struct or of the elements of a slice. *)

Section ReflectWalk.
Context {A : Type} (leaf : Z -> A) (join : list A -> A).

Definition zeroValue : A := join [].

Definition walkAlias (walk : Node -> A) (a : option (Alias.t Node)) : A :=
  match a with
  | None => zeroValue
  | Some a => join [zeroValue; join [join (List.map walk (Alias.Colnames a))]]
  end.

Definition walkRangeVar (walk : Node -> A) (rv : RangeVar.t Node) : A :=
  join [zeroValue; walkAlias walk (RangeVar.Alias rv)].

Definition walkWith (walk : Node -> A) (w : option (WithClause.t Node)) : A :=
  match w with
  | None => zeroValue
  | Some w => join [join [join (List.map walk (WithClause.Ctes w))]; zeroValue]
  end.

Definition walkList (walk : Node -> A) (l : list Node) : A :=
  join [join (List.map walk l)].

Fixpoint reflectWalk (n : Node) : A :=
  let list_ := walkList reflectWalk in
  match n with
  | nodes.Nil => zeroValue
  | nodes.ParamRef Number => leaf Number
  | nodes.RawStmt Stmt => join [reflectWalk Stmt; zeroValue; zeroValue]
  | nodes.InsertStmt s =>
      join [walkRangeVar reflectWalk (InsertStmt.Relation s);
            list_ (InsertStmt.Cols s);
            reflectWalk (InsertStmt.SelectStmt s);
            match InsertStmt.OnConflictClause s with
            | None => zeroValue
            | Some oc =>
                join [zeroValue;
                      match OnConflictClause.Infer oc with
                      | None => zeroValue
                      | Some inf =>
                          join [list_ (InferClause.IndexElems inf);
                                reflectWalk (InferClause.WhereClause inf)]
                      end;
                      list_ (OnConflictClause.TargetList oc);
                      reflectWalk (OnConflictClause.WhereClause oc)]
            end;
            list_ (InsertStmt.ReturningList s);
            walkWith reflectWalk (InsertStmt.WithClause s)]
  | nodes.SelectStmt s =>
      join [list_ (SelectStmt.DistinctClause s);
            list_ (SelectStmt.TargetList s);
            list_ (SelectStmt.FromClause s);
            reflectWalk (SelectStmt.WhereClause s);
            list_ (SelectStmt.GroupClause s);
            reflectWalk (SelectStmt.HavingClause s);
            join (List.map (fun row => join (List.map reflectWalk row))
                           (SelectStmt.ValuesLists s));
            list_ (SelectStmt.SortClause s);
            reflectWalk (SelectStmt.LimitOffset s);
            reflectWalk (SelectStmt.LimitCount s);
            walkWith reflectWalk (SelectStmt.WithClause s)]
  | nodes.UpdateStmt s =>
      join [walkRangeVar reflectWalk (UpdateStmt.Relation s);
            list_ (UpdateStmt.TargetList s);
            reflectWalk (UpdateStmt.WhereClause s);
            list_ (UpdateStmt.FromClause s);
            list_ (UpdateStmt.ReturningList s);
            walkWith reflectWalk (UpdateStmt.WithClause s)]
  | nodes.DeleteStmt s =>
      join [walkRangeVar reflectWalk (DeleteStmt.Relation s);
            list_ (DeleteStmt.UsingClause s);
            reflectWalk (DeleteStmt.WhereClause s);
            list_ (DeleteStmt.ReturningList s);
            walkWith reflectWalk (DeleteStmt.WithClause s)]
  | nodes.CommonTableExpr _ Ctequery => join [zeroValue; reflectWalk Ctequery]
  | nodes.IndexElem _ Expr => join [zeroValue; reflectWalk Expr]
  | nodes.RangeSubselect Subquery a =>
      join [zeroValue; reflectWalk Subquery; walkAlias reflectWalk a]
  | nodes.TypeCast Arg tn =>
      join [reflectWalk Arg;
            join [list_ (TypeName.Names tn); list_ (TypeName.Typmods tn);
                  list_ (TypeName.ArrayBounds tn)];
            zeroValue]
  | nodes.ResTarget _ Val => join [zeroValue; reflectWalk Val; zeroValue]
  | nodes.ColumnRef Fields => join [list_ Fields; zeroValue]
  | nodes.A_Star => zeroValue
  | nodes.String _ => join [zeroValue]
  | nodes.Integer _ => join [zeroValue]
  | nodes.Float _ => join [zeroValue]
  | nodes.Null => zeroValue
  | nodes.BitString _ => join [zeroValue]
  | nodes.A_Expr _ Name Lexpr Rexpr =>
      join [zeroValue; list_ Name; reflectWalk Lexpr; reflectWalk Rexpr; zeroValue]
  | nodes.FuncCall Funcname Args _ => join [list_ Funcname; list_ Args; zeroValue]
  | nodes.BoolExpr _ Args => join [zeroValue; list_ Args; zeroValue]
  | nodes.SubLink _ Testexpr Subselect =>
      join [zeroValue; reflectWalk Testexpr; reflectWalk Subselect; zeroValue]
  | nodes.A_Const Val => join [reflectWalk Val; zeroValue]
  | nodes.RangeVar rv => walkRangeVar reflectWalk rv
  | nodes.CoalesceExpr Args => join [list_ Args; zeroValue]
  | nodes.SetToDefault => join [zeroValue]
  | nodes.NullTest Arg _ => join [reflectWalk Arg; zeroValue; zeroValue]
  | nodes.CaseExpr Arg Args Defresult =>
      join [reflectWalk Arg; list_ Args; reflectWalk Defresult; zeroValue]
  | nodes.CaseWhen Expr Result => join [reflectWalk Expr; reflectWalk Result; zeroValue]
  | nodes.JoinExpr _ Larg Rarg Quals =>
      join [zeroValue; reflectWalk Larg; reflectWalk Rarg; reflectWalk Quals]
  | nodes.RangeFunction Functions a =>
      join [list_ Functions; walkAlias reflectWalk a]
  | nodes.List Items => list_ Items
  | nodes.RowExpr Args => join [list_ Args; zeroValue]
  | nodes.SQLValueFunction _ => join [zeroValue; zeroValue]
  | nodes.SortBy n _ => join [reflectWalk n; zeroValue; zeroValue]
  | nodes.Other _ fields => join (List.map reflectWalk fields)
  end.

Definition walkTree (tree : nodes.ParsetreeList) : A :=
  join [join (List.map reflectWalk (nodes.Statements tree))].
End ReflectWalk.

(** The loop of [findMaxParam] over the fields of a struct or the elements
    of a slice: [if i == 0 || subresult > result { result = subresult }]. *)
Definition maxOf (subresults : list Z) : Z :=
  match subresults with
  | [] => 0
  | first :: rest =>
      fold_left (fun result subresult =>
                   if result <? subresult then subresult else result) rest first
  end.

Definition findMaxParam (tree : nodes.ParsetreeList) : Z :=
  walkTree (fun Number => Number) maxOf tree.

Definition findMaxParamNode (n : Node) : Z :=
  reflectWalk (fun Number => Number) maxOf n.

(** The numbers of the positional parameters of a tree, in the order of the
    walk, and the depth of a tree. *)
Definition params (tree : nodes.ParsetreeList) : list Z :=
  walkTree (fun Number => [Number]) (@List.concat Z) tree.

Definition paramsNode (n : Node) : list Z :=
  reflectWalk (fun Number => [Number]) (@List.concat Z) n.

Definition height : Node -> nat :=
  reflectWalk (fun _ => 1%nat) (fun hs => S (list_max hs)).

(** ** transform.go: statuses, environments, errors *)

Inductive status := noStatus | needsTenantID | hasTenantID | isCTE | isLeftJoinTable.

#[global] Instance status_eq_dec : EqDecision status.
Proof. solve_decision. Defined.

(** [type environ map[string]status].  Reading a key that is absent yields
    the zero value [noStatus].  Every caller passes a map made by [newEnv],
    so the tests [env != nil] of the source always hold and are left out. *)
Abbreviation environ := (gmap string status).

Definition newEnv : environ := ∅.

Definition envGet (env : environ) (table : string) : status :=
  default noStatus (env !! table).

(** [for k, v := range env]: Go leaves the order open; the entries are taken
    in the order of [map_to_list]. *)
Definition envRange (env : environ) : list (string * status) := map_to_list env.

Definition envHas (st : status) (env : environ) : bool :=
  existsb (fun kv => bool_decide (kv.2 = st)) (envRange env).

(** [sort.StringSlice.Sort]: ascending in the byte order of Go strings. *)
Definition sortStrings (l : list string) : list string := merge_sort String.le l.

Definition sortedKeys (env : environ) : list string :=
  sortStrings (List.map fst (envRange env)).

Inductive error : Type :=
| ErrUnknownQuery
| ErrNoID
| Errorf (msg : string)
| Wrap (err : error) (msg : string)
| ParserError (msg : string).

(** [errors.Cause] *)
Fixpoint Cause (e : error) : error :=
  match e with
  | Wrap err _ => Cause err
  | _ => e
  end.

(** ** The driver, the connection and the query cache

    [lru] is the cache of github.com/golang/groupcache/lru, which the
    repository uses and does not contain: the entries from the most recently
    used one to the oldest; [Add] moves or puts an entry at the front and
    drops the oldest one beyond [MaxEntries], [Get] moves a hit to the
    front.  The mutex of [queryCache] has no part in a sequential run. *)

Record Transformed : Type := { Query : string; Num : Z }.

Module lru.
Record Cache : Type :=
  { MaxEntries : nat; ll : list (string * Transformed) }.

Definition New (maxEntries : nat) : Cache :=
  {| MaxEntries := maxEntries; ll := [] |}.

Definition find (key : string) (c : Cache) : option Transformed :=
  option_map snd (List.find (fun kv => String.eqb kv.1 key) (ll c)).

Definition without (key : string) (c : Cache) : list (string * Transformed) :=
  List.filter (fun kv => negb (String.eqb kv.1 key)) (ll c).

Definition Add (key : string) (value : Transformed) (c : Cache) : Cache :=
  match find key c with
  | Some _ => {| MaxEntries := MaxEntries c; ll := (key, value) :: without key c |}
  | None =>
      let l := (key, value) :: ll c in
      {| MaxEntries := MaxEntries c;
         ll := if (negb (MaxEntries c =? 0) && (MaxEntries c <? length l))%nat
               then removelast l else l |}
  end.

Definition Get (key : string) (c : Cache) : option Transformed * Cache :=
  match find key c with
  | Some value =>
      (Some value, {| MaxEntries := MaxEntries c; ll := (key, value) :: without key c |})
  | None => (None, c)
  end.
End lru.

Definition maxCachedQueries : nat := 1000.

(** [queryCache]: [cache] is nil until the first [add]. *)
Record queryCache : Type := { cache : option lru.Cache }.

Definition lookup (qc : queryCache) (q : string) : option Transformed * queryCache :=
  match cache qc with
  | None => (None, qc)
  | Some c =>
      let '(v, c') := lru.Get q c in
      (v, {| cache := Some c' |})
  end.

Definition add (qc : queryCache) (q : string) (transformed : Transformed) : queryCache :=
  let c := match cache qc with
           | None => lru.New maxCachedQueries
           | Some c => c
           end in
  {| cache := Some (lru.Add q transformed c) |}.

Record Driver : Type :=
  { TenantIDCol : string;
    Whitelist : gmap string Transformed;
    dynamicCache : queryCache }.

Record Conn : Type := { driver : Driver }.

(** ** The rewriter's state and its monad

    A method of [*transformer] reads and writes the transformer, the writer
    [w] and the environment [env] it is given, and returns an error or
    nil.  [M] threads the three; a call that gets another writer or another
    environment than its caller's is run under [withBuffer] or [withEnv].
    What the writer and the environment hold when an error is returned is
    kept, as in Go.  [sites] is a ghost: the numbers [addTenantID] has
    written, in order; no Go value corresponds to it.

    A nil pointer that is dereferenced aborts the run ([NilDereference]); so
    does the exhaustion of the recursion bound of the model ([OutOfFuel]). *)

Record transformer : Type :=
  { conn : Conn;            (* the embedded *Conn *)
    tenantIDNum : Z;        (* number of the added positional parameter for the tenant ID value *)
    isTransformed : bool }. (* whether a tenant ID arg was added *)

(** [t.driver.TenantIDCol] *)
Definition tenantIDCol (t : transformer) : string := TenantIDCol (driver (conn t)).

Inductive abort := NilDereference | OutOfFuel.

Inductive res (A : Type) : Type :=
| Ok (a : A)
| Err (e : error)
| Abort (x : abort).
Arguments Ok {A}. Arguments Err {A}. Arguments Abort {A}.

Record st : Type :=
  { xf : transformer; buf : string; env : environ; sites : list Z }.

Definition M (A : Type) : Type := st -> res A * st.

Definition ret {A} (a : A) : M A := fun s => (Ok a, s).

Definition bind {A B} (m : M A) (k : A -> M B) : M B :=
  fun s =>
    match m s with
    | (Ok a, s') => k a s'
    | (Err e, s') => (Err e, s')
    | (Abort x, s') => (Abort x, s')
    end.

Declare Scope go_scope.
Delimit Scope go_scope with go.
Notation "x <- m ;; k" := (bind m (fun x => k))
  (at level 100, m at next level, right associativity) : go_scope.
Notation "m ;; k" := (bind m (fun _ => k))
  (at level 100, right associativity) : go_scope.
Local Open Scope go_scope.

Definition fail {A} (e : error) : M A := fun s => (Err e, s).
Definition panic {A} : M A := fun s => (Abort NilDereference, s).
Definition outOfFuel {A} : M A := fun s => (Abort OutOfFuel, s).

(** [if err != nil { return errors.Wrap(err, msg) }] *)
Definition wrap {A} (msg : string) (m : M A) : M A :=
  fun s =>
    match m s with
    | (Err e, s') => (Err (Wrap e msg), s')
    | r => r
    end.

(** [fmt.Fprint(w, s)] *)
Definition Fprint (s : string) : M unit :=
  fun σ => (Ok tt, {| xf := xf σ; buf := buf σ ++ s; env := env σ; sites := sites σ |}).

Definition getTransformer : M transformer := fun σ => (Ok (xf σ), σ).
Definition getEnv : M environ := fun σ => (Ok (env σ), σ).
Definition setEnv (e : environ) : M unit :=
  fun σ => (Ok tt, {| xf := xf σ; buf := buf σ; env := e; sites := sites σ |}).

(** [env[table]] and [env[table] = v] *)
Definition envLookup (table : string) : M status :=
  e <- getEnv ;; ret (envGet e table).
Definition envStore (table : string) (v : status) : M unit :=
  e <- getEnv ;; setEnv (<[table := v]> e).

(** A call whose writer is a new [bytes.Buffer]: the caller's writer is
    untouched, and what the callee wrote is handed back. *)
Definition withBuffer {A} (m : M A) : M (A * string) :=
  fun σ =>
    let restore σ' := {| xf := xf σ'; buf := buf σ; env := env σ'; sites := sites σ' |} in
    match m {| xf := xf σ; buf := EmptyString; env := env σ; sites := sites σ |} with
    | (Ok a, σ') => (Ok (a, buf σ'), restore σ')
    | (Err e, σ') => (Err e, restore σ')
    | (Abort x, σ') => (Abort x, restore σ')
    end.

(** A call whose environment is [e], another map than the caller's: the
    caller's map is untouched, and the callee's map is handed back as it
    is left. *)
Definition withEnv {A} (e : environ) (m : M A) : M (A * environ) :=
  fun σ =>
    let restore σ' := {| xf := xf σ'; buf := buf σ'; env := env σ; sites := sites σ' |} in
    match m {| xf := xf σ; buf := buf σ; env := e; sites := sites σ |} with
    | (Ok a, σ') => (Ok (a, env σ'), restore σ')
    | (Err err, σ') => (Err err, restore σ')
    | (Abort x, σ') => (Abort x, restore σ')
    end.

(** [for i, x := range l { ... }], with the local variables the body updates
    as the accumulator. *)
Fixpoint forRange {X S} (l : list X) (acc : S) (body : S -> X -> M S) : M S :=
  match l with
  | [] => ret acc
  | x :: rest => acc' <- body acc x ;; forRange rest acc' body
  end.

(** [fmt.Sprintf("%d", n)] *)
Definition itoa (n : Z) : string := pretty n.

Definition A_Expr_Kind_num (k : A_Expr_Kind) : Z :=
  match k with
  | AEXPR_OP => 0 | AEXPR_OP_ANY => 1 | AEXPR_OP_ALL => 2 | AEXPR_DISTINCT => 3
  | AEXPR_NOT_DISTINCT => 4 | AEXPR_NULLIF => 5 | AEXPR_OF => 6 | AEXPR_IN => 7
  | AEXPR_LIKE => 8 | AEXPR_ILIKE => 9 | AEXPR_SIMILAR => 10 | AEXPR_BETWEEN => 11
  | AEXPR_NOT_BETWEEN => 12 | AEXPR_BETWEEN_SYM => 13
  | AEXPR_NOT_BETWEEN_SYM => 14 | AEXPR_PAREN => 15
  end.

Definition JoinType_num (j : JoinType) : Z :=
  match j with
  | JOIN_INNER => 0 | JOIN_LEFT => 1 | JOIN_FULL => 2 | JOIN_RIGHT => 3
  | JOIN_SEMI => 4 | JOIN_ANTI => 5 | JOIN_UNIQUE_OUTER => 6 | JOIN_UNIQUE_INNER => 7
  end.

Definition SubLinkType_num (k : SubLinkType) : Z :=
  match k with
  | EXISTS_SUBLINK => 0 | ALL_SUBLINK => 1 | ANY_SUBLINK => 2
  | ROWCOMPARE_SUBLINK => 3 | EXPR_SUBLINK => 4 | MULTIEXPR_SUBLINK => 5
  | ARRAY_SUBLINK => 6 | CTE_SUBLINK => 7
  end.

Definition SQLValueFunctionOp_num (op : SQLValueFunctionOp) : Z :=
  match op with
  | SVFOP_CURRENT_DATE => 0 | SVFOP_CURRENT_TIME => 1 | SVFOP_CURRENT_TIME_N => 2
  | SVFOP_CURRENT_TIMESTAMP => 3 | SVFOP_CURRENT_TIMESTAMP_N => 4
  | SVFOP_LOCALTIME => 5 | SVFOP_LOCALTIME_N => 6 | SVFOP_LOCALTIMESTAMP => 7
  | SVFOP_LOCALTIMESTAMP_N => 8 | SVFOP_CURRENT_ROLE => 9 | SVFOP_CURRENT_USER => 10
  | SVFOP_USER => 11 | SVFOP_SESSION_USER => 12 | SVFOP_CURRENT_CATALOG => 13
  | SVFOP_CURRENT_SCHEMA => 14
  end.

(** ** transform.go: the rewriter

    The methods of [*transformer] call one another through the parse tree.
    The four that close the recursion ([transformNodeHelper],
    [transformSelect], [transformInsert], [transformBoolExpr]) are reached
    through [self]; the knot is tied below, by [rewriter]. *)

Record recursion : Type :=
  { rec_transformNodeHelper : Node -> M bool;
    rec_transformSelect : SelectStmt.t Node -> bool -> M unit;
    rec_transformInsert : InsertStmt.t Node -> M unit;
    rec_transformBoolExpr : BoolExprType -> list Node -> M unit }.

(** [pq.QuoteIdentifier], for a name that holds no double quote and no NUL
    byte; [safestr] applies it to three such names only. *)
Definition QuoteIdentifier (name : string) : string :=
  String GoStrings.dquote (name ++ String GoStrings.dquote EmptyString).

Definition safestr (s : string) : string :=
  if (String.eqb s "position" || String.eqb s "timestamp" || String.eqb s "type")%bool
  then QuoteIdentifier s
  else s.

(** [escape]: a single quote is doubled.  (Go ranges over the runes of [s];
    the strings of a parse tree are valid UTF-8, whose runes are written
    back byte for byte.) *)
Fixpoint escape (s : string) : string :=
  match s with
  | EmptyString => EmptyString
  | String c r =>
      if Ascii.eqb c GoStrings.squote
      then String GoStrings.squote (String c (escape r))
      else String c (escape r)
  end.

Definition addTenantID : M unit :=
  fun σ =>
    let t := xf σ in
    (Ok tt,
     {| xf := {| conn := conn t;
                 tenantIDNum := tenantIDNum t;
                 isTransformed := true |};
        buf := buf σ ++ "$" ++ itoa (tenantIDNum t);
        env := env σ;
        sites := (sites σ ++ [tenantIDNum t])%list |}).

(** [maybeSetIsLeftJoinTable] *)
Definition maybeSetIsLeftJoinTable (table : string) : M unit :=
  e <- getEnv ;;
  if envHas isLeftJoinTable e then ret tt
  else envStore table isLeftJoinTable.

(** [extractTablesAux]: the names are collected in a set, which is what the
    map [out] holds. *)
Fixpoint extractTablesAux (n : Node) : gset string :=
  match n with
  | nodes.RangeVar rv =>
      match RangeVar.Alias rv with
      | Some a => {[ Alias.Aliasname a ]}
      | None => {[ RangeVar.Relname rv ]}
      end
  | nodes.JoinExpr _ Larg Rarg _ => extractTablesAux Larg ∪ extractTablesAux Rarg
  | nodes.RangeSubselect _ (Some a) =>
      if isEmpty (Alias.Aliasname a) then ∅ else {[ Alias.Aliasname a ]}
  | _ => ∅
  end.

(** [extractTables]: the set of the names; its error is always nil. *)
Definition extractTables (from : list Node) : gset string :=
  ⋃ (List.map extractTablesAux from).

Definition transformIndexElem (Name : option string) : M unit :=
  match Name with
  | Some name => Fprint (safestr name)
  | None => panic
  end.

Definition transformIdent (names : list Node) : M unit :=
  match names with
  | [] => fail (Errorf "empty identifier node")
  | item0 :: rest =>
      match item0 with
      | nodes.String strItem0 =>
          str <- match rest with
                 | [] => ret strItem0
                 | [item1] =>
                     if negb (String.eqb strItem0 "pg_catalog")
                     then fail (Errorf ("2-item identifier has " ++ QuoteIdentifier strItem0
                                        ++ " prefix, want pg_catalog"))
                     else match item1 with
                          | nodes.String strItem1 => ret (GoStrings.ToUpper strItem1)
                          | _ => fail (Errorf ("identifier item 1 is a " ++ typeName item1
                                               ++ ", want String"))
                          end
                 | _ => fail (Errorf ("identifier has " ++ itoa (Z.of_nat (length names))
                                      ++ " items, want 1 or 2"))
                 end ;;
          let str :=
            if String.eqb str "BOOL" then "BOOLEAN"
            else if String.eqb str "INT8" then "BIGINT"
            else if String.eqb str "TIMESTAMPTZ" then "TIMESTAMP WITH TIME ZONE"
            else str in
          Fprint str
      | _ => fail (Errorf ("identifier item 0 is a " ++ typeName item0 ++ ", want String"))
      end
  end.

Definition transformTypeName (typeName_ : TypeName.t Node) : M unit :=
  wrap "transformTypeName" (transformIdent (TypeName.Names typeName_)) ;;
  match TypeName.ArrayBounds typeName_ with
  | [] => ret tt
  | [item] =>
      match item with
      | nodes.Integer ival =>
          if negb (ival =? -1)
          then fail (Errorf ("TypeName array bounds is " ++ itoa ival ++ ", want -1"))
          else Fprint "[]"
      | _ => fail (Errorf ("TypeName array bounds item is a " ++ typeName item
                           ++ ", want Integer"))
      end
  | items => fail (Errorf (itoa (Z.of_nat (length items))
                           ++ " items in TypeName array bounds, want 0 or 1"))
  end.

(** [transformConst]: the switch has four cases and no default; the error
    it returns is always nil. *)
Definition transformConst (Val : Node) : M unit :=
  match Val with
  | nodes.Integer Ival => Fprint (itoa Ival)
  | nodes.Float Str => Fprint Str
  | nodes.String Str => Fprint ("'" ++ escape Str ++ "'")
  | nodes.Null => Fprint "NULL"
  | _ => ret tt
  end.

(** [specialCaseBoolLiteral]: what it writes, if it applies. *)
Definition specialCaseBoolLiteral (Arg : Node) (TypeName_ : TypeName.t Node) : option string :=
  match Arg with
  | nodes.A_Const (nodes.String s) =>
      match TypeName.Names TypeName_ with
      | [nodes.String item0; nodes.String item1] =>
          if negb (String.eqb item0 "pg_catalog") then None
          else if negb (String.eqb item1 "bool") then None
          else if String.eqb s "t" then Some "true"
          else if String.eqb s "f" then Some "false"
          else None
      | _ => None
      end
  | _ => None
  end.

Section Rewriter.
Variable self : recursion.

Definition transformNode (node : Node) : M unit :=
  _ <- rec_transformNodeHelper self node ;; ret tt.

(** like transformNode but parenthesizes its output if it's not an atom *)
Definition transformAtom (node : Node) : M unit :=
  r <- withBuffer (rec_transformNodeHelper self node) ;;
  let '(isAtomic, written) := r in
  if (isAtomic : bool) then Fprint written
  else Fprint ("(" ++ written ++ ")").

Definition transformNodeSafe (node : Node) : M unit :=
  match node with
  | nodes.String Str => Fprint (safestr Str)
  | _ => transformNode node
  end.

Definition commaSeparated (nodelist : list Node) (f : Node -> M unit) : M unit :=
  _ <- forRange nodelist 0%nat
         (fun i node =>
            (if (0 <? i)%nat then Fprint ", " else ret tt) ;;
            f node ;;
            ret (S i)) ;;
  ret tt.

Definition transformBoolSubexpr (expr : Node) : M unit :=
  match expr with
  | nodes.BoolExpr Boolop Args =>
      Fprint "(" ;;
      wrap "transformBoolSubexpr" (rec_transformBoolExpr self Boolop Args) ;;
      Fprint ")"
  | _ => transformNode expr
  end.

Definition transformBoolExpr (Boolop : BoolExprType) (Args : list Node) : M unit :=
  match Boolop with
  | AND_EXPR =>
      _ <- forRange Args 0%nat
             (fun i arg =>
                (if (0 <? i)%nat then Fprint " AND " else ret tt) ;;
                wrap "transformBoolExpr (AND)" (transformBoolSubexpr arg) ;;
                ret (S i)) ;;
      ret tt
  | OR_EXPR =>
      _ <- forRange Args 0%nat
             (fun i arg =>
                (if (0 <? i)%nat then Fprint " OR " else ret tt) ;;
                wrap "transformBoolExpr (OR)" (transformBoolSubexpr arg) ;;
                ret (S i)) ;;
      ret tt
  | NOT_EXPR =>
      Fprint "NOT " ;;
      match Args with
      | [arg] => transformBoolSubexpr arg
      | _ => fail (Errorf ("NOT expression has " ++ itoa (Z.of_nat (length Args))
                           ++ " subexpressions, want 1"))
      end
  end.

Definition transformWhereHelper (where_ : Node) (onConflict : bool)
    (tables : list string) : M unit :=
  e <- getEnv ;;
  let addTenantID_ :=
    existsb (fun table => bool_decide (envGet e table = needsTenantID)) tables in
  if negb addTenantID_ then transformNode where_
  else
    match where_ with
    | nodes.Nil => ret tt
    | nodes.BoolExpr Boolop Args =>
        if bool_decide (Boolop <> AND_EXPR) then
          Fprint "(" ;;
          wrap "transformWhere" (transformBoolExpr Boolop Args) ;;
          Fprint ")" ;;
          Fprint " AND "
        else
          wrap "transformWhere" (transformNode where_) ;;
          Fprint " AND "
    | _ =>
        wrap "transformWhere" (transformNode where_) ;;
        Fprint " AND "
    end ;;
    _ <- forRange tables true
           (fun first table =>
              st_ <- envLookup table ;;
              if bool_decide (st_ <> needsTenantID) then ret first
              else
                (if (first : bool) then ret tt else Fprint " AND ") ;;
                (if ((1 <? length tables)%nat || onConflict)%bool
                 then Fprint (table ++ ".") else ret tt) ;;
                t <- getTransformer ;;
                Fprint (tenantIDCol t ++ " = ") ;;
                addTenantID ;;
                envStore table hasTenantID ;;
                ret false) ;;
    ret tt.

(** The first loop of [transformWhere]: the first table met with the
    status [isLeftJoinTable] is set to [needsTenantID].  Which one is met
    first matters only when two tables have that status. *)
Definition promoteLeftJoinTable (e : environ) : environ :=
  match List.find (fun kv => bool_decide (kv.2 = isLeftJoinTable)) (envRange e) with
  | Some (tbl, _) => <[tbl := needsTenantID]> e
  | None => e
  end.

Definition transformWhere (where_ : Node) (onConflict : bool) : M unit :=
  e <- getEnv ;;
  setEnv (promoteLeftJoinTable e) ;;
  e <- getEnv ;;
  let doWhere :=
    match where_ with
    | nodes.Nil => envHas needsTenantID e
    | _ => true
    end in
  if negb doWhere then ret tt
  else
    Fprint " WHERE " ;;
    let tables := sortedKeys e in
    transformWhereHelper where_ onConflict tables.

Definition transformSubLink (SubLinkType_ : SubLinkType) (Testexpr Subselect : Node)
    : M unit :=
  match SubLinkType_ with
  | EXISTS_SUBLINK =>
      Fprint "EXISTS (" ;;
      match Subselect with
      | nodes.SelectStmt sel =>
          _ <- withEnv newEnv
                 (wrap "transformSubLink (EXISTS)" (rec_transformSelect self sel false)) ;;
          Fprint ")"
      | _ => fail (Errorf ("EXISTS subselect is a " ++ typeName Subselect
                           ++ ", want SelectStmt"))
      end
  | ANY_SUBLINK =>
      wrap "transformSubLink (ANY)" (transformNode Testexpr) ;;
      Fprint " IN (" ;;
      match Subselect with
      | nodes.SelectStmt sel =>
          _ <- withEnv newEnv
                 (wrap "transformSubLink (ANY)" (rec_transformSelect self sel false)) ;;
          Fprint ")"
      | _ => fail (Errorf ("EXISTS subselect is a " ++ typeName Subselect
                           ++ ", want SelectStmt"))
      end
  | _ => fail (Errorf ("SubLink type " ++ itoa (SubLinkType_num SubLinkType_)
                       ++ " not implemented"))
  end.

(** The entries of [subEnv] with the status [isCTE] are copied into the
    caller's environment. *)
Definition copyCTEs (subEnv : environ) : M unit :=
  _ <- forRange (envRange subEnv) tt
         (fun _ kv =>
            if bool_decide (kv.2 = isCTE) then envStore kv.1 isCTE else ret tt) ;;
  ret tt.

(** returns the list of cte aliases *)
Definition handleCTE (withClause : option (WithClause.t Node)) : M (list string) :=
  match withClause with
  | None => ret []
  | Some withClause =>
      Fprint "WITH " ;;
      (if WithClause.Recursive withClause then Fprint "RECURSIVE " else ret tt) ;;
      r <- forRange (WithClause.Ctes withClause) (0%nat, ([] : list string))
             (fun acc cteItem =>
                let '(i, cteNames) := acc in
                (if (0 <? i)%nat then Fprint ", " else ret tt) ;;
                match cteItem with
                | nodes.CommonTableExpr Ctename Ctequery =>
                    Fprint (safestr Ctename ++ " AS (") ;;
                    envStore Ctename isCTE ;;
                    let cteNames := (cteNames ++ [Ctename])%list in
                    match Ctequery with
                    | nodes.SelectStmt substmt =>
                        r <- withEnv newEnv
                               (wrap "handleCTE" (rec_transformSelect self substmt false)) ;;
                        copyCTEs r.2
                    | nodes.InsertStmt substmt =>
                        match InsertStmt.SelectStmt substmt with
                        | nodes.Nil => fail (Errorf "Ctequery has no SELECT")
                        | _ =>
                            r <- withEnv newEnv
                                   (wrap "handleCTE" (rec_transformInsert self substmt)) ;;
                            copyCTEs r.2
                        end
                    | _ => fail (Errorf ("Ctequery is a " ++ typeName Ctequery
                                         ++ ", want SELECT or INSERT ... SELECT"))
                    end ;;
                    Fprint ")" ;;
                    ret (S i, cteNames)
                | _ => fail (Errorf ("Ctequery item is a " ++ typeName cteItem
                                     ++ ", want CommonTableExpr"))
                end) ;;
      Fprint " " ;;
      ret r.2
  end.

Definition transformSelectCol (node : Node) : M unit :=
  match node with
  | nodes.ResTarget Name Val =>
      wrap "transformSelectCol" (transformNode Val) ;;
      match Name with
      | Some name => Fprint (" AS " ++ safestr name)
      | None => ret tt
      end
  | _ => fail (Errorf ("transformSelectCol: got " ++ typeName node ++ ", want ResTarget"))
  end.
(** [insertStmt] stands for the parameter [insertStmt *nodes.InsertStmt],
    which is only compared with nil: it is [true] when the pointer is set. *)
Definition transformSelect (stmt : SelectStmt.t Node) (insertStmt : bool) : M unit :=
  _ <- wrap "transformSelect" (handleCTE (SelectStmt.WithClause stmt)) ;;
  Fprint "SELECT " ;;
  (if (0 <? length (SelectStmt.DistinctClause stmt))%nat
   then fail (Errorf "SELECT DISTINCT not implemented") else ret tt) ;;
  let targetItems := SelectStmt.TargetList stmt in
  star <- match targetItems with
          | [item] =>
              match item with
              | nodes.ResTarget _ (nodes.ColumnRef [nodes.A_Star]) =>
                  Fprint "*" ;;
                  if insertStmt
                  then fail (Errorf "cannot handle INSERT ... SELECT *")
                  else ret true
              | nodes.ResTarget _ _ => ret false
              | _ => fail (Errorf "SELECT target item is a nodes.ResTarget, want ResTarget")
              end
          | _ => ret false
          end ;;
  (if negb star then
     wrap "transformSelect" (commaSeparated targetItems transformSelectCol) ;;
     if insertStmt then
       (if (0 <? length targetItems)%nat then Fprint ", " else ret tt) ;;
       addTenantID
     else ret tt
   else ret tt) ;;
  let fromItems := SelectStmt.FromClause stmt in
  (if (0 <? length fromItems)%nat then
     Fprint " FROM " ;;
     wrap "transformSelect" (commaSeparated fromItems transformNode)
   else ret tt) ;;
  wrap "transformSelect" (transformWhere (SelectStmt.WhereClause stmt) false) ;;
  (if (0 <? length (SelectStmt.GroupClause stmt))%nat then
     Fprint " GROUP BY " ;;
     wrap "transformSelect" (commaSeparated (SelectStmt.GroupClause stmt) transformNode)
   else ret tt) ;;
  match SelectStmt.HavingClause stmt with
  | nodes.Nil => ret tt
  | having =>
      Fprint " HAVING " ;;
      wrap "transformSelect" (transformNode having)
  end ;;
  (if (0 <? length (SelectStmt.SortClause stmt))%nat then
     Fprint " ORDER BY " ;;
     wrap "transformSelect"
       (commaSeparated (SelectStmt.SortClause stmt)
          (fun item =>
             match item with
             | nodes.SortBy sortNode SortbyDir =>
                 transformNode sortNode ;;
                 match SortbyDir with
                 | SORTBY_ASC => Fprint " ASC"
                 | SORTBY_DESC => Fprint " DESC"
                 | _ => ret tt
                 end
             | _ => fail (Errorf ("SORT BY clause is a " ++ typeName item ++ ", want SortBy"))
             end))
   else ret tt) ;;
  match SelectStmt.LimitCount stmt with
  | nodes.Nil => ret tt
  | limit =>
      Fprint " LIMIT " ;;
      wrap "transformSelect" (transformNode limit)
  end.

Definition transformInsert (stmt : InsertStmt.t Node) : M unit :=
  cteNames <- wrap "transformInsert" (handleCTE (InsertStmt.WithClause stmt)) ;;
  let Relation := InsertStmt.Relation stmt in
  Fprint ("INSERT INTO " ++ safestr (RangeVar.Relname Relation) ++ " ") ;;
  match RangeVar.Alias Relation with
  | Some a =>
      Fprint ("AS " ++ safestr (Alias.Aliasname a) ++ " ") ;;
      envStore (Alias.Aliasname a) needsTenantID
  | None => envStore (RangeVar.Relname Relation) needsTenantID
  end ;;
  Fprint "(" ;;
  _ <- forRange (InsertStmt.Cols stmt) tt
         (fun _ col =>
            match col with
            | nodes.ResTarget (Some name) _ => Fprint (safestr name ++ ", ")
            | nodes.ResTarget None _ => panic
            | _ => fail (Errorf ("INSERT INTO (...) item is a " ++ typeName col
                                 ++ ", want ResTarget"))
            end) ;;
  t <- getTransformer ;;
  Fprint (tenantIDCol t ++ ") ") ;;
  match InsertStmt.SelectStmt stmt with
  | nodes.SelectStmt sel =>
      match SelectStmt.ValuesLists sel with
      | [] =>
          (* INSERT ... SELECT *)
          let subEnv :=
            fold_left (fun subEnv cteName => <[cteName := isCTE]> subEnv) cteNames newEnv in
          _ <- withEnv subEnv (wrap "transformInsert" (rec_transformSelect self sel true)) ;;
          ret tt
      | [values] =>
          (* INSERT ... VALUES *)
          Fprint "VALUES (" ;;
          _ <- forRange values tt
                 (fun _ node =>
                    wrap "transformInsert" (transformNode node) ;;
                    Fprint ", ") ;;
          addTenantID ;;
          Fprint ")"
      | lists =>
          fail (Errorf ("SELECT statement has " ++ itoa (Z.of_nat (length lists))
                        ++ " items in ValuesLists, want 0 or 1"))
      end
  | other => fail (Errorf ("INSERT select statement is a " ++ typeName other
                           ++ ", want SelectStmt"))
  end ;;
  match InsertStmt.OnConflictClause stmt with
  | Some oc =>
      if bool_decide (OnConflictClause.Action oc <> ONCONFLICT_NONE) then
        Fprint " ON CONFLICT " ;;
        match OnConflictClause.Infer oc with
        | Some infer =>
            Fprint "(" ;;
            _ <- forRange (InferClause.IndexElems infer) tt
                   (fun _ node =>
                      match node with
                      | nodes.IndexElem Name _ =>
                          wrap "transformInsert" (transformIndexElem Name) ;;
                          Fprint ", "
                      | _ => fail (Errorf ("ON CONFLICT index element is a "
                                           ++ typeName node ++ ", want IndexElem"))
                      end) ;;
            Fprint (tenantIDCol t ++ ") ")
        | None => ret tt
        end ;;
        Fprint "DO " ;;
        match OnConflictClause.Action oc with
        | ONCONFLICT_NOTHING => Fprint "NOTHING"
        | ONCONFLICT_UPDATE =>
            Fprint "UPDATE SET " ;;
            wrap "transformInsert"
              (commaSeparated (OnConflictClause.TargetList oc) transformNode) ;;
            match OnConflictClause.WhereClause oc with
            | nodes.Nil => ret tt
            | where_ => wrap "transformInsert" (transformWhere where_ true)
            end
        | ONCONFLICT_NONE => ret tt
        end
      else ret tt
  | None => ret tt
  end ;;
  if (0 <? length (InsertStmt.ReturningList stmt))%nat then
    Fprint " RETURNING " ;;
    wrap "transformInsert" (commaSeparated (InsertStmt.ReturningList stmt) transformNode)
  else ret tt.

Definition transformUpdate (stmt : UpdateStmt.t Node) : M unit :=
  _ <- wrap "transformUpdate" (handleCTE (UpdateStmt.WithClause stmt)) ;;
  Fprint "UPDATE " ;;
  wrap "transformUpdate" (transformNode (nodes.RangeVar (UpdateStmt.Relation stmt))) ;;
  Fprint " SET " ;;
  wrap "transformUpdate" (commaSeparated (UpdateStmt.TargetList stmt) transformNode) ;;
  (if (0 <? length (UpdateStmt.FromClause stmt))%nat then
     Fprint " FROM " ;;
     wrap "transformUpdate" (commaSeparated (UpdateStmt.FromClause stmt) transformNode)
   else ret tt) ;;
  match UpdateStmt.WhereClause stmt with
  | nodes.Nil =>
      t <- getTransformer ;;
      Fprint (" WHERE " ++ tenantIDCol t ++ " = ") ;;
      addTenantID
      (* return nil *)
  | where_ =>
      wrap "transformUpdate" (transformWhere where_ false) ;;
      if (0 <? length (UpdateStmt.ReturningList stmt))%nat then
        Fprint " RETURNING " ;;
        wrap "transformUpdate"
          (commaSeparated (UpdateStmt.ReturningList stmt) transformNode)
      else ret tt
  end.

Definition transformDelete (stmt : DeleteStmt.t Node) : M unit :=
  Fprint "DELETE FROM " ;;
  wrap "transformDelete" (transformNode (nodes.RangeVar (DeleteStmt.Relation stmt))) ;;
  (if (0 <? length (DeleteStmt.UsingClause stmt))%nat then
     Fprint " USING " ;;
     wrap "transformDelete" (commaSeparated (DeleteStmt.UsingClause stmt) transformNode)
   else ret tt) ;;
  transformWhere (DeleteStmt.WhereClause stmt) false.

(** Returns true if the emitted node is "atomic" - i.e., doesn't need
    extra parens. *)
Definition transformNodeHelper (node : Node) : M bool :=
  match node with
  | nodes.RangeSubselect Subquery Alias_ =>
      match Subquery with
      | nodes.SelectStmt subquery =>
          let hasAlias :=
            match Alias_ with
            | Some a => negb (isEmpty (Alias.Aliasname a))
            | None => false
            end in
          (if hasAlias then Fprint "(" else ret tt) ;;
          _ <- withEnv newEnv
                 (wrap "transformNode (RangeSubselect)"
                    (rec_transformSelect self subquery false)) ;;
          match Alias_ with
          | Some a =>
              if hasAlias then
                Fprint (") AS " ++ Alias.Aliasname a) ;;
                envStore (Alias.Aliasname a) isCTE
              else ret tt
          | None => ret tt
          end ;;
          ret false
      | _ => fail (Errorf ("RangeSubselect with " ++ typeName Subquery
                           ++ " subquery not handled"))
      end

  | nodes.ParamRef Number =>
      Fprint ("$" ++ itoa Number) ;;
      ret true

  | nodes.TypeCast Arg TypeName_ =>
      match specialCaseBoolLiteral Arg TypeName_ with
      | Some literal => Fprint literal ;; ret true
      | None =>
          wrap "transformNode (TypeCast)" (transformAtom Arg) ;;
          Fprint "::" ;;
          transformTypeName TypeName_ ;;
          ret false
      end

  | nodes.ResTarget Name Val =>
      match Name with
      | Some name => Fprint (safestr name)
      | None => ret tt
      end ;;
      match Name, Val with
      | Some _, nodes.Nil => ret tt
      | Some _, _ => Fprint " = "
      | None, _ => ret tt
      end ;;
      match Val with
      | nodes.Nil => ret true
      | _ =>
          wrap "transformNode (ResTarget)" (transformNode Val) ;;
          ret false
      end

  | nodes.ColumnRef Fields =>
      match Fields with
      | [] => fail (Errorf "no fields in ColumnRef node")
      | field0 :: rest =>
          wrap "transformNode (ColumnRef)" (transformNodeSafe field0) ;;
          match rest with
          | field1 :: _ =>
              Fprint "." ;;
              match field1 with
              | nodes.A_Star => Fprint "*" ;; ret false
              | _ =>
                  wrap "transformNode (ColumnRef)" (transformNodeSafe field1) ;;
                  ret false
              end
          | [] => ret true
          end
      end

  | nodes.String Str =>
      Fprint Str ;;
      ret true

  | nodes.A_Expr Kind Name Lexpr Rexpr =>
      match Kind with
      | AEXPR_OP => (* normal operator *)
          wrap "transformNode (A_Expr/OP)" (transformNode Lexpr) ;;
          match Name with
          | [nodes.String op] =>
              (if (String.eqb op "->" || String.eqb op "->>")%bool
               then Fprint op
               else Fprint (" " ++ op ++ " ")) ;;
              wrap "transformNode (A_Expr/OP)" (transformNode Rexpr)
          | [item] => fail (Errorf ("name for A_Expr operator is a " ++ typeName item
                                    ++ ", want Str"))
          | _ => fail (Errorf (itoa (Z.of_nat (length Name))
                               ++ " names for A_Expr operator, want 1"))
          end
      | AEXPR_OP_ANY => (* scalar op ANY (array) *)
          wrap "transformNode (A_Expr/OP_ANY" (transformNode Lexpr) ;;
          match Name with
          | [nodes.String op] =>
              Fprint (" " ++ op ++ " ANY(") ;;
              wrap "transformNode (A_Expr/OP_ANY" (transformNode Rexpr) ;;
              Fprint ")"
          | [item] => fail (Errorf ("name for A_Expr operator is a " ++ typeName item
                                    ++ ", want Str"))
          | _ => fail (Errorf (itoa (Z.of_nat (length Name))
                               ++ " names for A_Expr operator, want 1"))
          end
      | AEXPR_NULLIF => (* NULLIF(left, right) *)
          Fprint "NULLIF(" ;;
          wrap "transformNode(A_Expr/NULLIF left subexp)" (transformNode Lexpr) ;;
          Fprint ", " ;;
          wrap "transformNode(A_Expr/NULLIF right subexp)" (transformNode Rexpr) ;;
          Fprint ")"
      | _ => fail (Errorf ("A_Expr subtype " ++ itoa (A_Expr_Kind_num Kind)
                           ++ " not implemented"))
      end ;;
      ret false

  | nodes.FuncCall Funcname Args AggStar =>
      wrap "transformNode (FuncCall)" (transformIdent Funcname) ;;
      Fprint "(" ;;
      (if ((length Args =? 0)%nat && AggStar)%bool then Fprint "*"
       else wrap "transformNode (FuncCall)" (commaSeparated Args transformNode)) ;;
      Fprint ")" ;;
      ret true

  | nodes.BoolExpr Boolop Args =>
      transformBoolExpr Boolop Args ;;
      ret false

  | nodes.SubLink SubLinkType_ Testexpr Subselect =>
      transformSubLink SubLinkType_ Testexpr Subselect ;;
      ret false

  | nodes.A_Const Val =>
      transformConst Val ;;
      ret true

  | nodes.RangeVar rv =>
      Fprint (safestr (RangeVar.Relname rv)) ;;
      match RangeVar.Alias rv with
      | Some a =>
          Fprint (" " ++ safestr (Alias.Aliasname a)) ;;
          aliasStatus <- envLookup (Alias.Aliasname a) ;;
          (if bool_decide (aliasStatus = noStatus) then
             st_ <- envLookup (RangeVar.Relname rv) ;;
             let st_ := if bool_decide (st_ = noStatus) then needsTenantID else st_ in
             envStore (Alias.Aliasname a) st_
           else ret tt) ;;
          ret false
      | None =>
          relStatus <- envLookup (RangeVar.Relname rv) ;;
          (if bool_decide (relStatus = noStatus)
           then envStore (RangeVar.Relname rv) needsTenantID
           else ret tt) ;;
          ret true
      end

  | nodes.CoalesceExpr Args =>
      Fprint "COALESCE(" ;;
      wrap "transformNode (CoalesceExpr)" (commaSeparated Args transformNode) ;;
      Fprint ")" ;;
      ret true

  | nodes.SetToDefault =>
      Fprint "DEFAULT" ;;
      ret true

  | nodes.NullTest Arg Nulltesttype =>
      wrap "transformNode (NullTest)" (transformNode Arg) ;;
      match Nulltesttype with
      | IS_NULL => Fprint " IS NULL"
      | IS_NOT_NULL => Fprint " IS NOT NULL"
      end ;;
      ret false

  | nodes.CaseExpr Arg Args Defresult =>
      match Arg with
      | nodes.Nil =>
          Fprint "CASE " ;;
          _ <- forRange Args tt
                 (fun _ arg => wrap "transformNode (CaseExpr Args)" (transformNode arg)) ;;
          Fprint " ELSE " ;;
          wrap "transformNode (CaseExpr Defresult)" (transformNode Defresult) ;;
          Fprint " END" ;;
          ret true
      | _ => fail (Errorf "CASE testexpr WHEN ... not implemented")
      end

  | nodes.CaseWhen Expr Result =>
      Fprint "WHEN " ;;
      wrap "transformNode (CaseWhen)" (transformNode Expr) ;;
      Fprint " THEN " ;;
      wrap "transformNode (CaseWhen)" (transformNode Result) ;;
      ret true

  | nodes.JoinExpr Jointype Larg Rarg Quals =>
      (* Only the leftmost table will be set. *)
      (if bool_decide (Jointype = JOIN_LEFT) then
         match Larg with
         | nodes.RangeVar n =>
             match RangeVar.Alias n with
             | Some a => maybeSetIsLeftJoinTable (Alias.Aliasname a)
             | None => maybeSetIsLeftJoinTable (RangeVar.Relname n)
             end
         | _ => ret tt
         end
       else ret tt) ;;
      wrap "transformNode (JoinExpr)" (transformNode Larg) ;;
      match Jointype with
      | JOIN_INNER => Fprint " INNER JOIN "
      | JOIN_LEFT => Fprint " LEFT JOIN "
      | _ => fail (Errorf ("JoinExpr subtype " ++ itoa (JoinType_num Jointype)
                           ++ " not implemented"))
      end ;;
      wrap "transformNode (JoinExpr)" (transformNode Rarg) ;;
      match Quals with
      | nodes.Nil => ret tt
      | _ =>
          let m := extractTables [Larg; Rarg] in
          let tables := sortStrings (elements m) in
          Fprint " ON " ;;
          wrap "transformNode (JoinExpr)" (transformWhereHelper Quals false tables)
      end ;;
      ret false

  | nodes.RangeFunction Functions Alias_ =>
      match Functions with
      | [item] =>
          match item with
          | nodes.List f =>
              match f with
              | [] => fail (Errorf "empty subitems list in Functions.Items[0]")
              | f0 :: _ =>
                  wrap "transformNode (RangeFunction)" (transformNode f0) ;;
                  match Alias_ with
                  | Some a =>
                      Fprint (" AS " ++ safestr (Alias.Aliasname a) ++ "(") ;;
                      wrap "transformNode (RangeFunction)"
                        (commaSeparated (Alias.Colnames a)
                           (fun col =>
                              match col with
                              | nodes.String s => Fprint (safestr s)
                              | _ => fail (Errorf ("range function alias is a "
                                                   ++ typeName col ++ ", want String"))
                              end)) ;;
                      Fprint ")"
                  | None => ret tt
                  end ;;
                  ret false
              end
          | _ => fail (Errorf ("Functions.Items[0] for RangeFunction node is a "
                               ++ typeName item ++ ", want List"))
          end
      | _ => fail (Errorf (itoa (Z.of_nat (length Functions))
                           ++ " functions for RangeFunction node, want 1"))
      end

  | nodes.RowExpr Args =>
      Fprint "(" ;;
      wrap "transformNode (RowExpr)" (commaSeparated Args transformNode) ;;
      Fprint ")" ;;
      ret true

  | nodes.SQLValueFunction Op =>
      match Op with
      | SVFOP_CURRENT_TIMESTAMP => Fprint "NOW()"
      | _ => fail (Errorf ("SQLValueFunction " ++ itoa (SQLValueFunctionOp_num Op)
                           ++ " not handled"))
      end ;;
      ret true

  | _ => fail (Errorf ("node type " ++ typeName node ++ " not handled"))
  end.
End Rewriter.

(** The knot: [rewriter fuel] is the four methods with [fuel] levels of
    the parse tree below them. *)
Fixpoint rewriter (fuel : nat) : recursion :=
  match fuel with
  | O =>
      {| rec_transformNodeHelper := fun _ => outOfFuel;
         rec_transformSelect := fun _ _ => outOfFuel;
         rec_transformInsert := fun _ => outOfFuel;
         rec_transformBoolExpr := fun _ _ => outOfFuel |}
  | S fuel =>
      let self := rewriter fuel in
      {| rec_transformNodeHelper := transformNodeHelper self;
         rec_transformSelect := transformSelect self;
         rec_transformInsert := transformInsert self;
         rec_transformBoolExpr := transformBoolExpr self |}
  end.

(** ** transform.go and conn.go: the entry points *)

(** What a Go call does: it returns its results, or it panics. *)
Inductive outcome (A : Type) : Type :=
| Returns (a : A)
| Panics (x : abort).
Arguments Returns {A}. Arguments Panics {A}.

(** The state [transformStmt] starts a statement in: a new buffer and a new
    environment. *)
Definition start (t : transformer) : st :=
  {| xf := t; buf := EmptyString; env := newEnv; sites := [] |}.

(** [transformStmt], run with the recursion bound [fuel]: the final state
    holds the buffer, whose content the method returns next to the error,
    and the transformer as the method leaves it. *)
Fixpoint runStmt (fuel : nat) (t : transformer) (stmt : Node) : res unit * st :=
  match stmt with
  | nodes.RawStmt raw => runStmt fuel t raw
  | nodes.InsertStmt stmt => transformInsert (rewriter fuel) stmt (start t)
  | nodes.SelectStmt stmt => transformSelect (rewriter fuel) stmt false (start t)
  | nodes.UpdateStmt stmt => transformUpdate (rewriter fuel) stmt (start t)
  | nodes.DeleteStmt stmt => transformDelete (rewriter fuel) stmt (start t)
  | _ => (Err (Errorf ("unknown statement type " ++ typeName stmt)), start t)
  end.

(** The bound is the height of the statement, which the recursion cannot
    outrun: every recursive call is on a proper part of the node. *)
Definition transformStmt (t : transformer) (stmt : Node) : res unit * st :=
  runStmt (height stmt) t stmt.

Definition transformTree (t : transformer) (tree : nodes.ParsetreeList) : res unit * st :=
  match nodes.Statements tree with
  | [stmt] => transformStmt t stmt
  | stmts =>
      (Err (Errorf (itoa (Z.of_nat (length stmts)) ++ " statements in parse tree, want 1")),
       start t)
  end.

(** Go's [int] addition, on 64 bits. *)
Definition maxInt : Z := 2 ^ 63 - 1.
Definition wrapInt (z : Z) : Z := (z + 2 ^ 63) mod 2 ^ 64 - 2 ^ 63.

Definition newTransformer (c : Conn) (tree : nodes.ParsetreeList) : transformer :=
  {| conn := c;
     tenantIDNum := wrapInt (1 + findMaxParam tree);
     isTransformed := false |}.

Definition doTransform (c : Conn) (tree : nodes.ParsetreeList)
    : outcome (string * Z * option error) :=
  let tenantIDNum_ := wrapInt (1 + findMaxParam tree) in
  let t := newTransformer c tree in
  match transformTree t tree with
  | (Abort x, _) => Panics x
  | (Err err, _) => Returns (EmptyString, 0, Some err)
  | (Ok _, s) =>
      let tenantIDNum_ := if negb (isTransformed (xf s)) then 0 else tenantIDNum_ in
      Returns (buf s, tenantIDNum_, None)
  end.

(** The context of a call, as far as [transform] reads it: the string, if
    any, that [WithQuery] has attached under [queryKey]. *)
Record Context : Type := { queryValue : option string }.

Definition Background : Context := {| queryValue := None |}.
Definition WithQuery (ctx : Context) (query : string) : Context :=
  {| queryValue := Some query |}.

Inductive parsed : Type :=
| Parsed (tree : nodes.ParsetreeList)
| ParseFailed (err : error).

Section Transform.
(** [pg_query.Parse] *)
Variable Parse : string -> parsed.

Definition setCache (c : Conn) (qc : queryCache) : Conn :=
  {| driver := {| TenantIDCol := TenantIDCol (driver c);
                  Whitelist := Whitelist (driver c);
                  dynamicCache := qc |} |}.

(** [(c *Conn) transform]: the results, and the connection with the cache
    of its driver as the call leaves it. *)
Definition transform (c : Conn) (ctx : Context) (query : string)
    : outcome (string * Z * option error) * Conn :=
  let query := normalize query in
  match Whitelist (driver c) !! query with
  | Some found => (Returns (Query found, Num found, None), c)
  | None =>
      let escaped :=
        match queryValue ctx with
        | Some escapedQuery => String.eqb (normalize escapedQuery) query
        | None => false
        end in
      if negb escaped
      then (Returns (EmptyString, 0, Some (Wrap ErrUnknownQuery query)), c)
      else
        let '(hit, qc) := lookup (dynamicCache (driver c)) query in
        let c := setCache c qc in
        match hit with
        | Some found => (Returns (Query found, Num found, None), c)
        | None =>
            match Parse query with
            | ParseFailed err => (Returns (EmptyString, 0, Some err), c)
            | Parsed tree =>
                match doTransform c tree with
                | Panics x => (Panics x, c)
                | Returns (_, _, Some err) => (Returns (EmptyString, 0, Some err), c)
                | Returns (transformedQ, tenantIDNum_, None) =>
                    let qc := add (dynamicCache (driver c)) query
                                  {| Query := transformedQ; Num := tenantIDNum_ |} in
                    (Returns (transformedQ, tenantIDNum_, None), setCache c qc)
                end
            end
        end
  end.
End Transform.

(** ** context.go: what the package carries on a context

    A [context.Context] is the chain of the values attached to it, the last
    one first; a value is looked up by its key, and the last one attached
    under the key is found.  The two keys of the package have an unexported
    type, so that nothing else attaches a value under them; values under the
    keys of other packages are left out.

    A [driver.Value] is nil or a value of one of six kinds; a float is kept
    as its bits, a time as an instant. *)

Module driver.
Inductive Value : Type :=
| Bytes (b : string)
| Int64 (i : Z)
| Float64 (bits : Z)
| Str (s : string)
| Bool (b : bool)
| Time (t : Z).

Record NamedValue : Type := { Name : string; Ordinal : Z; Value_ : option Value }.
End driver.

Module Ctx.
Inductive keyType := queryKey | tenantKey.

#[global] Instance keyType_eq_dec : EqDecision keyType.
Proof. solve_decision. Defined.

(** [nil], or the dynamic value of an [interface{}] *)
Definition any : Type := option driver.Value.

Definition t : Type := list (keyType * any).

(** [context.Background()] *)
Definition Background : t := [].

(** [context.WithValue(ctx, key, val)] *)
Definition WithValue (ctx : t) (key : keyType) (val : any) : t := (key, val) :: ctx.

(** [ctx.Value(key)] *)
Fixpoint Value (ctx : t) (key : keyType) : any :=
  match ctx with
  | [] => None
  | (k, val) :: parent => if decide (k = key) then val else Value parent key
  end.

(** [WithQuery] *)
Definition WithQuery (ctx : t) (query : string) : t :=
  WithValue ctx queryKey (Some (driver.Str query)).

(** [WithTenantID] *)
Definition WithTenantID (ctx : t) (tenantID : option driver.Value) : t :=
  WithValue ctx tenantKey tenantID.

(** [ID] *)
Definition ID (ctx : t) : error + driver.Value :=
  match Value ctx tenantKey with
  | None => inl ErrNoID
  | Some id => inr id
  end.

(** [ctx.Value(queryKey).(string)], which is all that [transform] reads of
    the context. *)
Definition escape (ctx : t) : Context :=
  {| queryValue := match Value ctx queryKey with
                   | Some (driver.Str escapedQuery) => Some escapedQuery
                   | _ => None
                   end |}.
End Ctx.

(** ** conn.go: the methods of [*Conn] that run a query

    The nested connection [c.ctxConn] is the driver of lib/pq; what a method
    hands to it is the result here. *)

Inductive forwarded : Type :=
| PrepareCall (query : string)
| QueryCall (query : string) (args : list driver.NamedValue)
| ExecCall (query : string) (args : list driver.NamedValue).

Section ConnMethods.
(** [pg_query.Parse] *)
Variable Parse : string -> parsed.

(** The tenant-ID argument is appended when the index is positive. *)
Definition withTenantIDArg (ctx : Ctx.t) (tenantIDNum_ : Z) (args : list driver.NamedValue)
    : error + list driver.NamedValue :=
  if 0 <? tenantIDNum_ then
    match Ctx.ID ctx with
    | inl err => inl err
    | inr id =>
        let tenantIDArg :=
          {| driver.Name := EmptyString; driver.Ordinal := tenantIDNum_;
             driver.Value_ := Some id |} in
        inr (args ++ [tenantIDArg])%list
    end
  else inr args.

(** [(c *Conn) Prepare] *)
Definition Prepare (c : Conn) (query : string) : outcome (error + forwarded) * Conn :=
  match transform Parse c (Ctx.escape Ctx.Background) query with
  | (Panics x, c') => (Panics x, c')
  | (Returns (_, _, Some err), c') => (Returns (inl err), c')
  | (Returns (transformed, _, None), c') => (Returns (inr (PrepareCall transformed)), c')
  end.

(** [(c *Conn) QueryContext] *)
Definition QueryContext (c : Conn) (ctx : Ctx.t) (query : string)
    (args : list driver.NamedValue) : outcome (error + forwarded) * Conn :=
  match transform Parse c (Ctx.escape ctx) query with
  | (Panics x, c') => (Panics x, c')
  | (Returns (_, _, Some err), c') => (Returns (inl err), c')
  | (Returns (transformedQuery, tenantIDNum_, None), c') =>
      match withTenantIDArg ctx tenantIDNum_ args with
      | inl err => (Returns (inl err), c')
      | inr args => (Returns (inr (QueryCall transformedQuery args)), c')
      end
  end.

(** [(c *Conn) ExecContext] *)
Definition ExecContext (c : Conn) (ctx : Ctx.t) (query : string)
    (args : list driver.NamedValue) : outcome (error + forwarded) * Conn :=
  match transform Parse c (Ctx.escape ctx) query with
  | (Panics x, c') => (Panics x, c')
  | (Returns (_, _, Some err), c') => (Returns (inl err), c')
  | (Returns (transformedQuery, tenantIDNum_, None), c') =>
      match withTenantIDArg ctx tenantIDNum_ args with
      | inl err => (Returns (inl err), c')
      | inr args => (Returns (inr (ExecCall transformedQuery args)), c')
      end
  end.
End ConnMethods.

(** ** testutil.go: [TransformTester]

    What a subtest reports: nothing, [t.Error] or [t.Fatal], without the
    dump of the parse tree that the messages end with.  The subtests run in
    the order of the sorted queries; a fatal one ends itself only. *)

Inductive report : Type :=
| Passed
| Errored (got want : string)
| Fatal (err : error).

Section TransformTester.
(** [pg_query.Parse] and [strings.EqualFold] *)
Variable Parse : string -> parsed.
Variable EqualFold : string -> string -> bool.

(** The transformer of a subtest: a connection with the tenant column
    only. *)
Definition testTransformer (tenantIDCol_ : string) (stmt : Node) : transformer :=
  {| conn := {| driver := {| TenantIDCol := tenantIDCol_; Whitelist := ∅;
                             dynamicCache := {| cache := None |} |} |};
     tenantIDNum := wrapInt (1 + findMaxParamNode stmt);
     isTransformed := false |}.

(** The body of the function given to [t.Run]. *)
Definition testQuery (tenantIDCol_ : string) (pre : string) (post : Transformed)
    : outcome report :=
  match Parse pre with
  | ParseFailed err => Returns (Fatal err)
  | Parsed tree =>
      match nodes.Statements tree with
      | [stmt] =>
          match transformStmt (testTransformer tenantIDCol_ stmt) stmt with
          | (Abort x, _) => Panics x
          | (Err err, _) => Returns (Fatal err)
          | (Ok _, s) =>
              if negb (EqualFold (buf s) (Query post))
              then Returns (Errored (buf s) (Query post))
              else Returns Passed
          end
      | stmts =>
          Returns (Fatal (Errorf ("got " ++ itoa (Z.of_nat (length stmts))
                                  ++ " statements from Parse, want 1")))
      end
  end.

Definition TransformTester (tenantIDCol_ : string) (m : gmap string Transformed)
    : list (string * outcome report) :=
  let sorted := sortStrings (List.map fst (map_to_list m)) in
  List.map (fun pre =>
              match m !! pre with
              | Some post => (pre, testQuery tenantIDCol_ pre post)
              | None => (pre, testQuery tenantIDCol_ pre {| Query := EmptyString; Num := 0 |})
              end) sorted.
End TransformTester.

(** * The vocabulary of the properties *)

(** ** Parse trees of statements, as [pg_query.Parse] yields them *)

Definition colRef (name : string) : Node := nodes.ColumnRef [nodes.String name].
Definition colRef2 (table name : string) : Node :=
  nodes.ColumnRef [nodes.String table; nodes.String name].
Definition target (val : Node) : Node := nodes.ResTarget None val.
Definition rangeVar (name : string) : RangeVar.t Node :=
  {| RangeVar.Relname := name; RangeVar.Alias := None |}.
Definition rangeVarAs (name alias : string) : RangeVar.t Node :=
  {| RangeVar.Relname := name;
     RangeVar.Alias := Some {| Alias.Aliasname := alias; Alias.Colnames := [] |} |}.
Definition tableRef (name : string) : Node := nodes.RangeVar (rangeVar name).
Definition binop (op : string) (l r : Node) : Node := nodes.A_Expr AEXPR_OP [nodes.String op] l r.

Definition selectStmt (ctes : option (WithClause.t Node)) (targets from : list Node)
    (where_ : Node) : SelectStmt.t Node :=
  {| SelectStmt.DistinctClause := [];
     SelectStmt.TargetList := targets;
     SelectStmt.FromClause := from;
     SelectStmt.WhereClause := where_;
     SelectStmt.GroupClause := [];
     SelectStmt.HavingClause := nodes.Nil;
     SelectStmt.ValuesLists := [];
     SelectStmt.SortClause := [];
     SelectStmt.LimitOffset := nodes.Nil;
     SelectStmt.LimitCount := nodes.Nil;
     SelectStmt.WithClause := ctes |}.

Definition single (stmt : Node) : nodes.ParsetreeList :=
  {| nodes.Statements := [nodes.RawStmt stmt] |}.

(** A connection of a driver whose tenant column is [tenant_id], with an
    empty whitelist and no dynamic cache yet. *)
Definition exampleConn : Conn :=
  {| driver := {| TenantIDCol := "tenant_id"; Whitelist := ∅;
                  dynamicCache := {| cache := None |} |} |}.

(** [SELECT a FROM t WHERE b = $2 AND c = $1] *)
Definition selectParams : nodes.ParsetreeList :=
  single (nodes.SelectStmt
            (selectStmt None [target (colRef "a")] [tableRef "t"]
               (nodes.BoolExpr AND_EXPR
                  [binop "=" (colRef "b") (nodes.ParamRef 2);
                   binop "=" (colRef "c") (nodes.ParamRef 1)]))).

(** [DELETE FROM cotton USING lamp WHERE lamp.x = cotton.y] *)
Definition deleteUsing : nodes.ParsetreeList :=
  single (nodes.DeleteStmt
            {| DeleteStmt.Relation := rangeVar "cotton";
               DeleteStmt.UsingClause := [tableRef "lamp"];
               DeleteStmt.WhereClause :=
                 binop "=" (colRef2 "lamp" "x") (colRef2 "cotton" "y");
               DeleteStmt.ReturningList := [];
               DeleteStmt.WithClause := None |}).

(** [WITH c AS (SELECT k FROM t) SELECT k FROM c LEFT JOIN u ON c.k = u.k] *)
Definition cteLeftJoin : nodes.ParsetreeList :=
  single (nodes.SelectStmt
            (selectStmt
               (Some {| WithClause.Ctes :=
                          [nodes.CommonTableExpr "c"
                             (nodes.SelectStmt
                                (selectStmt None [target (colRef "k")] [tableRef "t"] nodes.Nil))];
                        WithClause.Recursive := false |})
               [target (colRef "k")]
               [nodes.JoinExpr JOIN_LEFT (tableRef "c") (tableRef "u")
                  (binop "=" (colRef2 "c" "k") (colRef2 "u" "k"))]
               nodes.Nil)).

(** The FROM clause of
    [SELECT e.k FROM emp LEFT JOIN emp e ON emp.boss = e.k] *)
Definition selfLeftJoin : Node :=
  nodes.JoinExpr JOIN_LEFT (tableRef "emp") (nodes.RangeVar (rangeVarAs "emp" "e"))
    (binop "=" (colRef2 "emp" "boss") (colRef2 "e" "k")).

(** [UPDATE t SET a = $1 RETURNING a] and
    [UPDATE t SET a = $1 WHERE b = $2 RETURNING a] *)
Definition updateReturning (where_ : Node) : nodes.ParsetreeList :=
  single (nodes.UpdateStmt
            {| UpdateStmt.Relation := rangeVar "t";
               UpdateStmt.TargetList := [nodes.ResTarget (Some "a") (nodes.ParamRef 1)];
               UpdateStmt.WhereClause := where_;
               UpdateStmt.FromClause := [];
               UpdateStmt.ReturningList := [target (colRef "a")];
               UpdateStmt.WithClause := None |}).

(** [SELECT B'101'], a bit-string constant, and [SELECT 'abc'] *)
Definition selectConst (val : Node) : nodes.ParsetreeList :=
  single (nodes.SelectStmt (selectStmt None [target (nodes.A_Const val)] [] nodes.Nil)).

(** [SELECT CURRENT_TIMESTAMP] *)
Definition selectNow : nodes.ParsetreeList :=
  single (nodes.SelectStmt
            (selectStmt None [target (nodes.SQLValueFunction SVFOP_CURRENT_TIMESTAMP)] []
               nodes.Nil)).

(** [SELECT 1::bigint]: the parser names the type [pg_catalog.int8]. *)
Definition selectBigint : nodes.ParsetreeList :=
  single (nodes.SelectStmt
            (selectStmt None
               [target (nodes.TypeCast (nodes.A_Const (nodes.Integer 1))
                          {| TypeName.Names := [nodes.String "pg_catalog"; nodes.String "int8"];
                             TypeName.Typmods := [];
                             TypeName.ArrayBounds := [] |})]
               [] nodes.Nil)).

(** [SELECT CURRENT_DATE] *)
Definition selectToday : nodes.ParsetreeList :=
  single (nodes.SelectStmt
            (selectStmt None [target (nodes.SQLValueFunction SVFOP_CURRENT_DATE)] []
               nodes.Nil)).

(** A parser that knows [SELECT CURRENT_TIMESTAMP] and [SELECT 1::bigint]. *)
Definition exampleParse (q : string) : parsed :=
  if String.eqb q "SELECT CURRENT_TIMESTAMP" then Parsed selectNow
  else if String.eqb q "SELECT 1::bigint" then Parsed selectBigint
  else ParseFailed (ParserError "syntax error").

(** ** The normalizer *)

(** Whether [s] starts with a white-space rune. *)
Definition lead (p1 : ascii -> bool) (p2 : ascii -> ascii -> bool)
    (p3 : ascii -> ascii -> ascii -> bool) (s : string) : bool :=
  match s with
  | String c0 r0 =>
      p1 c0
      || match r0 with
         | String c1 r1 =>
             p2 c0 c1
             || match r1 with
                | String c2 _ => p3 c0 c1 c2
                | EmptyString => false
                end
         | EmptyString => false
         end
  | EmptyString => false
  end.

Definition leadL : string -> bool :=
  lead GoStrings.isSpace1 GoStrings.isSpace2 GoStrings.isSpace3.
Definition leadR : string -> bool :=
  lead GoStrings.isSpace1 (fun c1 c0 => GoStrings.isSpace2 c0 c1)
       (fun c2 c1 c0 => GoStrings.isSpace3 c0 c1 c2).

Definition noNewline (s : string) : Prop := GoStrings.contains GoStrings.newline s = false.

(** A line as [normalize] joins it: trimmed, and without a line feed. *)
Definition trimmed (l : string) : Prop :=
  leadL l = false /\ leadR (GoStrings.rev l) = false /\ noNewline l.

(** A query with a string literal that spans a line break. *)
Definition brokenLiteral : string :=
  "SELECT 'a" ++ String GoStrings.newline "  b'".

(** ** The rewriter *)

(** [m] keeps [P]: whatever [m] returns, it leaves a state in which [P]
    holds if it was started in one. *)
Definition preserves (P : st -> Prop) {A} (m : M A) : Prop :=
  forall s, P s -> P (m s).2.

Definition preservesAll (P : st -> Prop) (self : recursion) : Prop :=
  (forall node, preserves P (rec_transformNodeHelper self node))
  /\ (forall stmt ins, preserves P (rec_transformSelect self stmt ins))
  /\ (forall stmt, preserves P (rec_transformInsert self stmt))
  /\ (forall op args, preserves P (rec_transformBoolExpr self op args)).

(** [m] does not run out of the recursion bound. *)
Definition ranOut {A} (r : res A) : bool :=
  match r with
  | Abort OutOfFuel => true
  | _ => false
  end.

Definition terminates {A} (m : M A) : Prop :=
  forall s, ranOut (m s).1 = false.

(** The four methods of [self] do not run out of the bound on a node of
    height [h] at most. *)
Definition enoughFor (h : nat) (self : recursion) : Prop :=
  (forall node, (height node <= h)%nat -> terminates (rec_transformNodeHelper self node))
  /\ (forall stmt ins, (height (nodes.SelectStmt stmt) <= h)%nat ->
        terminates (rec_transformSelect self stmt ins))
  /\ (forall stmt, (height (nodes.InsertStmt stmt) <= h)%nat ->
        terminates (rec_transformInsert self stmt))
  /\ (forall op args, (height (nodes.BoolExpr op args) <= h)%nat ->
        terminates (rec_transformBoolExpr self op args)).

(** *** The index of the tenant parameter *)

(** The greatest of the numbers of the parameters, 0 if there is none. *)
Definition maxParam (l : list Z) : Z := fold_right Z.max 0 l.

(** The result [z] of the scan of a subtree is the greatest of its
    parameter numbers [l], none of which is negative. *)
Definition scanAgree (z : Z) (l : list Z) : Prop :=
  Forall (fun K => 0 <= K) l -> z = maxParam l.

(** The index stays [N], every site so far has written [N], and the
    transformer is marked as soon as there is a site. *)
Definition injectionInv (N : Z) (s : st) : Prop :=
  tenantIDNum (xf s) = N
  /\ Forall (fun site => site = N) (sites s)
  /\ (isTransformed (xf s) = true <-> sites s <> []).

(** *** The WHERE clause *)

(** The tenant predicate of [table]. *)
Definition tenantPredicate (col : string) (N : Z) (qualified : bool) (table : string)
    : string :=
  (if qualified then table ++ "." else "") ++ col ++ " = " ++ "$" ++ itoa N.

Definition needs (e : environ) (table : string) : bool :=
  bool_decide (envGet e table = needsTenantID).

(** The original condition as [transformWhereHelper] writes it before the
    tenant predicates: in parentheses if it is an OR or a NOT. *)
Definition whereCondition (self : recursion) (where_ : Node) : M unit :=
  match where_ with
  | nodes.Nil => ret tt
  | nodes.BoolExpr AND_EXPR _ => wrap "transformWhere" (transformNode self where_)
  | nodes.BoolExpr Boolop Args =>
      Fprint "(" ;;
      wrap "transformWhere" (transformBoolExpr self Boolop Args) ;;
      Fprint ")"
  | _ => wrap "transformWhere" (transformNode self where_)
  end.

(** The state in which [transformWhere] writes the condition. *)
Definition enterWhere (s : st) : st :=
  {| xf := xf s; buf := buf s ++ " WHERE ";
     env := promoteLeftJoinTable (env s); sites := sites s |}.

Fixpoint predicates (first : bool) (preds : list string) : string :=
  match preds with
  | [] => ""
  | p :: rest => (if first then "" else " AND ") ++ p ++ predicates false rest
  end.

Definition markAll (needy : list string) (e : environ) : environ :=
  fold_left (fun e table => <[table := hasTenantID]> e) needy e.

(** The transformer after [k] injections. *)
Definition injected (t : transformer) (k : nat) : transformer :=
  match k with
  | O => t
  | S _ => {| conn := conn t; tenantIDNum := tenantIDNum t; isTransformed := true |}
  end.

(** One turn of the loop of [transformWhereHelper] over the tables. *)
Definition wherePredicate (n_tables : nat) (onConflict : bool) (first : bool)
    (table : string) : M bool :=
  st_ <- envLookup table ;;
  if bool_decide (st_ <> needsTenantID) then ret first
  else
    (if (first : bool) then ret tt else Fprint " AND ") ;;
    (if ((1 <? n_tables)%nat || onConflict)%bool
     then Fprint (table ++ ".") else ret tt) ;;
    t <- getTransformer ;;
    Fprint (tenantIDCol t ++ " = ") ;;
    addTenantID ;;
    envStore table hasTenantID ;;
    ret false.

Definition whereSeparator (where_ : Node) : string :=
  match where_ with
  | nodes.Nil => ""
  | _ => " AND "
  end.

(** The state after the tenant predicates of the tables [needy] are written. *)
Definition afterPredicates (where_ : Node) (qualified : bool) (needy : list string)
    (s1 : st) : st :=
  {| xf := injected (xf s1) (length needy);
     buf := buf s1 ++ whereSeparator where_
            ++ GoStrings.Join
                 (List.map (tenantPredicate (tenantIDCol (xf s1)) (tenantIDNum (xf s1))
                                            qualified) needy) " AND ";
     env := markAll needy (env s1);
     sites := (sites s1 ++ List.repeat (tenantIDNum (xf s1)) (length needy))%list |}.

(** The state of a rewrite that has written [text] and has the tables of
    [e] in scope. *)
Definition scopeOf (text : string) (e : environ) : st :=
  {| xf := newTransformer exampleConn deleteUsing; buf := text; env := e; sites := [] |}.

(** ** The driver-facing operation *)

(** The context carries a query whose normalized form is [q]. *)
Definition escapes (ctx : Context) (q : string) : Prop :=
  exists escapedQuery, queryValue ctx = Some escapedQuery /\ normalize escapedQuery = q.

(** A connection whose dynamic cache holds [q]. *)
Definition cachedConn (q : string) (found : Transformed) : Conn :=
  setCache exampleConn (add (dynamicCache (driver exampleConn)) q found).

(** ** What the further properties are stated with *)

(** Two states of the rewriter that differ in the connection at most, and
    not in its tenant column. *)
Definition alike (s1 s2 : st) : Prop :=
  tenantIDCol (xf s1) = tenantIDCol (xf s2)
  /\ tenantIDNum (xf s1) = tenantIDNum (xf s2)
  /\ isTransformed (xf s1) = isTransformed (xf s2)
  /\ buf s1 = buf s2 /\ env s1 = env s2 /\ sites s1 = sites s2.

(** [m1] and [m2] do the same from states that are alike. *)
Definition agrees {A} (m1 m2 : M A) : Prop :=
  forall s1 s2, alike s1 s2 -> (m1 s1).1 = (m2 s2).1 /\ alike (m1 s1).2 (m2 s2).2.

Definition agreesAll (self : recursion) : Prop :=
  (forall node, agrees (rec_transformNodeHelper self node) (rec_transformNodeHelper self node))
  /\ (forall stmt ins,
        agrees (rec_transformSelect self stmt ins) (rec_transformSelect self stmt ins))
  /\ (forall stmt, agrees (rec_transformInsert self stmt) (rec_transformInsert self stmt))
  /\ (forall op args,
        agrees (rec_transformBoolExpr self op args) (rec_transformBoolExpr self op args)).

(** The argument that carries the tenant ID. *)
Definition tenantIDArg (tenantIDNum_ : Z) (id : driver.Value) : driver.NamedValue :=
  {| driver.Name := ""; driver.Ordinal := tenantIDNum_; driver.Value_ := Some id |}.

(** The connection [c] with another whitelist. *)
Definition withWhitelist (c : Conn) (whitelist : gmap string Transformed) : Conn :=
  {| driver := {| TenantIDCol := TenantIDCol (driver c);
                  Whitelist := whitelist;
                  dynamicCache := dynamicCache (driver c) |} |}.

(** How SQL reads a string constant after its opening quote: up to the
    first quote that is not doubled, a doubled quote standing for one.  The
    result is the string and what follows the closing quote. *)
Fixpoint readLiteral (s : string) : option (string * string) :=
  match s with
  | EmptyString => None
  | String c r =>
      if Ascii.eqb c GoStrings.squote then
        match r with
        | String c' r' =>
            if Ascii.eqb c' GoStrings.squote
            then option_map (fun p => (String GoStrings.squote p.1, p.2)) (readLiteral r')
            else Some (EmptyString, r)
        | EmptyString => Some (EmptyString, EmptyString)
        end
      else option_map (fun p => (String c p.1, p.2)) (readLiteral r)
  end.

Definition startsWithQuote (s : string) : bool :=
  match s with
  | String c _ => Ascii.eqb c GoStrings.squote
  | EmptyString => false
  end.

(** The transformer has added a tenant ID. *)
Definition marked (s : st) : Prop := isTransformed (xf s) = true.

(** [INSERT INTO t (a) VALUES ($1)] *)
Definition insertValues : nodes.ParsetreeList :=
  single (nodes.InsertStmt
            {| InsertStmt.Relation := rangeVar "t";
               InsertStmt.Cols := [nodes.ResTarget (Some "a") nodes.Nil];
               InsertStmt.SelectStmt :=
                 nodes.SelectStmt
                   {| SelectStmt.DistinctClause := [];
                      SelectStmt.TargetList := [];
                      SelectStmt.FromClause := [];
                      SelectStmt.WhereClause := nodes.Nil;
                      SelectStmt.GroupClause := [];
                      SelectStmt.HavingClause := nodes.Nil;
                      SelectStmt.ValuesLists := [[nodes.ParamRef 1]];
                      SelectStmt.SortClause := [];
                      SelectStmt.LimitOffset := nodes.Nil;
                      SelectStmt.LimitCount := nodes.Nil;
                      SelectStmt.WithClause := None |};
               InsertStmt.OnConflictClause := None;
               InsertStmt.ReturningList := [];
               InsertStmt.WithClause := None |}).

(** The statement comes back rewritten, without error. *)
Definition rewritten (c : Conn) (tree : nodes.ParsetreeList) : bool :=
  match doTransform c tree with
  | Returns (_, _, None) => true
  | _ => false
  end.

(** The node holds no join and no sub-select of a FROM clause, as far as the
    rewriter visits it in the scope of the statement: the queries of its
    sub-links have a scope of their own. *)
Fixpoint plain (n : Node) : bool :=
  match n with
  | nodes.JoinExpr _ _ _ _ | nodes.RangeSubselect _ _ => false
  | nodes.TypeCast Arg _ => plain Arg
  | nodes.ResTarget _ Val => plain Val
  | nodes.ColumnRef Fields => forallb plain Fields
  | nodes.A_Expr _ _ Lexpr Rexpr => plain Lexpr && plain Rexpr
  | nodes.FuncCall _ Args _ => forallb plain Args
  | nodes.BoolExpr _ Args => forallb plain Args
  | nodes.SubLink _ Testexpr _ => plain Testexpr
  | nodes.CoalesceExpr Args => forallb plain Args
  | nodes.NullTest Arg _ => plain Arg
  | nodes.CaseExpr _ Args Defresult => forallb plain Args && plain Defresult
  | nodes.CaseWhen Expr Result => plain Expr && plain Result
  | nodes.RangeFunction Functions _ => forallb plain Functions
  | nodes.List Items => forallb plain Items
  | nodes.RowExpr Args => forallb plain Args
  | nodes.SortBy Node_ _ => plain Node_
  | _ => true
  end.

(** The name under which a table is in scope: its alias, if it has one. *)
Definition tableName (rv : RangeVar.t Node) : string :=
  match RangeVar.Alias rv with
  | Some a => Alias.Aliasname a
  | None => RangeVar.Relname rv
  end.

(** A property of the tables in scope. *)
Definition inEnv (I : environ -> Prop) (s : st) : Prop := I (env s).

(** The table awaits its tenant predicate. *)
Definition awaits (table : string) (e : environ) : Prop :=
  envGet e table = needsTenantID.

(** Every table in scope awaits its tenant predicate. *)
Definition allAwait (e : environ) : Prop :=
  forall table, envGet e table = noStatus \/ envGet e table = needsTenantID.

(** What has been written begins with [pre]. *)
Definition startsWith (pre : string) (s : st) : Prop := exists w, buf s = pre ++ w.

(** The rewritten text [q] has a WHERE clause whose condition ends with
    tenant predicates joined by AND, the one of [table] among them. *)
Definition scopedTo (col : string) (n : Z) (table q : string) : Prop :=
  exists head cond qualified needy tail,
    In table needy
    /\ q = head ++ " WHERE " ++ cond
           ++ GoStrings.Join (List.map (tenantPredicate col n qualified) needy) " AND "
           ++ tail.

(** The transformer has the connection and the index of [t]. *)
Definition settingsOf (t : transformer) (s : st) : Prop :=
  conn (xf s) = conn t /\ tenantIDNum (xf s) = tenantIDNum t.

(** * Proofs *)

(** ** Walks of the parse tree *)

Section WalkRelation.
Context {A B : Type} (leafA : Z -> A) (joinA : list A -> A)
        (leafB : Z -> B) (joinB : list B -> B) (R : A -> B -> Prop).
Hypothesis R_leaf : forall Number, R (leafA Number) (leafB Number).
Hypothesis R_join : forall xs ys, List.Forall2 R xs ys -> R (joinA xs) (joinB ys).

Ltac related IH :=
  repeat first
    [ apply IH
    | apply R_leaf
    | apply R_join
    | match goal with
      | |- List.Forall2 _ [] [] => constructor
      | |- List.Forall2 _ (_ :: _) (_ :: _) => constructor
      | |- List.Forall2 _ (List.map _ ?l) (List.map _ ?l) =>
          let x := fresh "x" in
          let l' := fresh "l" in
          let IHl := fresh "IHl" in
          induction l as [|x l' IHl]; simpl; [constructor|constructor; [|exact IHl]]
      | |- R (match ?o with _ => _ end) (match ?o with _ => _ end) => destruct o; simpl
      | |- R (walkList _ _ _ _) (walkList _ _ _ _) => unfold walkList
      | |- R (walkAlias _ _ ?a) (walkAlias _ _ ?a) => unfold walkAlias; destruct a as [[? ?]|]; simpl
      | |- R (walkRangeVar _ _ ?rv) (walkRangeVar _ _ ?rv) => unfold walkRangeVar; destruct rv as [? ?]; simpl
      | |- R (walkWith _ _ ?w) (walkWith _ _ ?w) => unfold walkWith; destruct w as [[? ?]|]; simpl
      | |- R (zeroValue _) (zeroValue _) => unfold zeroValue
      end ].

Lemma reflectWalk_related :
  forall n, R (reflectWalk leafA joinA n) (reflectWalk leafB joinB n).
Proof.
  fix IH 1. intros n.
  destruct n as
    [ | Stmt | [rel cols sel oc ret wc] | [dc tl fc wh gc hv vl sc lo lc wc]
      | [rel tl wh fc ret wc] | [rel us wh ret wc] | ? ? | ? ? | ? ? | ? | ? [nm tm ab]
      | ? ? | ? | | ? | ? | ? | | ? | ? ? ? ? | ? ? ? | ? ? | ? ? ? | ? | ? | ? | | ? ?
      | ? ? ? | ? ? | ? ? ? ? | ? ? | ? | ? | ? | ? ? | ? ? ];
    simpl; related IH.
Qed.

Lemma walkTree_related tree :
  R (walkTree leafA joinA tree) (walkTree leafB joinB tree).
Proof.
  unfold walkTree. apply R_join. constructor; [|constructor]. apply R_join.
  induction (nodes.Statements tree); simpl; constructor;
    [apply reflectWalk_related|assumption].
Qed.
End WalkRelation.

(** ** What the rewriter keeps *)

Create HintDb pres discriminated.

Section Preservation.
Variable P : st -> Prop.
(** [P] reads the transformer and the sites only. *)
Hypothesis P_frame : forall s s', xf s = xf s' -> sites s = sites s' -> P s -> P s'.
Hypothesis P_addTenantID : preserves P addTenantID.

Lemma preserves_ret {A} (a : A) : preserves P (ret a).
Proof. intros s H. exact H. Qed.

Lemma preserves_fail {A} e : preserves P (@fail A e).
Proof. intros s H. exact H. Qed.

Lemma preserves_panic {A} : preserves P (@panic A).
Proof. intros s H. exact H. Qed.

Lemma preserves_outOfFuel {A} : preserves P (@outOfFuel A).
Proof. intros s H. exact H. Qed.

Lemma preserves_bind {A B} (m : M A) (k : A -> M B) :
  preserves P m -> (forall a, preserves P (k a)) -> preserves P (bind m k).
Proof.
  intros Hm Hk s H. unfold bind. specialize (Hm s H).
  destruct (m s) as [[a|e|x] s']; simpl in *; auto. apply Hk, Hm.
Qed.

Lemma preserves_wrap {A} msg (m : M A) : preserves P m -> preserves P (wrap msg m).
Proof.
  intros Hm s H. unfold wrap. specialize (Hm s H).
  destruct (m s) as [[a|e|x] s']; simpl in *; auto.
Qed.

Lemma preserves_Fprint str : preserves P (Fprint str).
Proof. intros s H. eapply P_frame; [| |exact H]; reflexivity. Qed.

Lemma preserves_getTransformer : preserves P getTransformer.
Proof. intros s H. exact H. Qed.

Lemma preserves_getEnv : preserves P getEnv.
Proof. intros s H. exact H. Qed.

Lemma preserves_setEnv e : preserves P (setEnv e).
Proof. intros s H. eapply P_frame; [| |exact H]; reflexivity. Qed.

Lemma preserves_envLookup k : preserves P (envLookup k).
Proof. apply preserves_bind; [apply preserves_getEnv|intros; apply preserves_ret]. Qed.

Lemma preserves_envStore k v : preserves P (envStore k v).
Proof. apply preserves_bind; [apply preserves_getEnv|intros; apply preserves_setEnv]. Qed.

Lemma preserves_withBuffer {A} (m : M A) : preserves P m -> preserves P (withBuffer m).
Proof.
  intros Hm s H. unfold withBuffer.
  set (s0 := {| xf := xf s; buf := ""; env := env s; sites := sites s |}).
  assert (H0 : P s0) by (eapply P_frame; [| |exact H]; reflexivity).
  specialize (Hm s0 H0).
  destruct (m s0) as [[a|e|x] s']; simpl in *;
    (eapply P_frame; [| |exact Hm]; reflexivity).
Qed.

Lemma preserves_withEnv {A} e (m : M A) : preserves P m -> preserves P (withEnv e m).
Proof.
  intros Hm s H. unfold withEnv.
  set (s0 := {| xf := xf s; buf := buf s; env := e; sites := sites s |}).
  assert (H0 : P s0) by (eapply P_frame; [| |exact H]; reflexivity).
  specialize (Hm s0 H0).
  destruct (m s0) as [[a|err|x] s']; simpl in *;
    (eapply P_frame; [| |exact Hm]; reflexivity).
Qed.

Lemma preserves_forRange {X S} (l : list X) (body : S -> X -> M S) :
  (forall acc x, preserves P (body acc x)) ->
  forall acc, preserves P (forRange l acc body).
Proof.
  intros Hb. induction l as [|x l IH]; intros acc; simpl.
  - apply preserves_ret.
  - apply preserves_bind; [apply Hb|intros; apply IH].
Qed.

Hint Resolve preserves_ret preserves_fail preserves_panic preserves_outOfFuel
  preserves_Fprint preserves_getTransformer preserves_getEnv preserves_setEnv
  preserves_envLookup preserves_envStore : pres.

Ltac pres :=
  repeat first
    [ progress auto with pres
    | apply preserves_bind; [|intros]
    | apply preserves_wrap
    | apply preserves_withBuffer
    | apply preserves_withEnv
    | apply preserves_forRange; intros
    | match goal with
      | |- preserves _ (match ?x with _ => _ end) => destruct x
      | |- preserves _ (let '(_, _) := ?x in _) => destruct x
      end ].

Lemma preserves_maybeSetIsLeftJoinTable table : preserves P (maybeSetIsLeftJoinTable table).
Proof. unfold maybeSetIsLeftJoinTable. pres. Qed.

Lemma preserves_transformIndexElem n : preserves P (transformIndexElem n).
Proof. unfold transformIndexElem. pres. Qed.

Lemma preserves_transformIdent names : preserves P (transformIdent names).
Proof. unfold transformIdent. pres. Qed.

Hint Resolve preserves_transformIdent : pres.

Lemma preserves_transformTypeName tn : preserves P (transformTypeName tn).
Proof. unfold transformTypeName. pres. Qed.

Lemma preserves_transformConst v : preserves P (transformConst v).
Proof. unfold transformConst. pres. Qed.

Hint Resolve preserves_maybeSetIsLeftJoinTable preserves_transformIndexElem
  preserves_transformTypeName preserves_transformConst P_addTenantID : pres.

Section Bodies.
Variable self : recursion.
Hypothesis Hself : preservesAll P self.

Lemma preserves_rec_node node : preserves P (rec_transformNodeHelper self node).
Proof. apply Hself. Qed.
Lemma preserves_rec_select stmt ins : preserves P (rec_transformSelect self stmt ins).
Proof. apply Hself. Qed.
Lemma preserves_rec_insert stmt : preserves P (rec_transformInsert self stmt).
Proof. apply Hself. Qed.
Lemma preserves_rec_bool op args : preserves P (rec_transformBoolExpr self op args).
Proof. apply Hself. Qed.
Hint Resolve preserves_rec_node preserves_rec_select preserves_rec_insert
  preserves_rec_bool : pres.

Lemma preserves_transformNode node : preserves P (transformNode self node).
Proof. unfold transformNode. pres. Qed.
Hint Resolve preserves_transformNode : pres.

Lemma preserves_transformAtom node : preserves P (transformAtom self node).
Proof. unfold transformAtom. pres. Qed.

Lemma preserves_transformNodeSafe node : preserves P (transformNodeSafe self node).
Proof. unfold transformNodeSafe. pres. Qed.

Lemma preserves_commaSeparated l f :
  (forall n, preserves P (f n)) -> preserves P (commaSeparated l f).
Proof. intros Hf. unfold commaSeparated. pres. Qed.

Lemma preserves_transformBoolSubexpr e : preserves P (transformBoolSubexpr self e).
Proof. unfold transformBoolSubexpr. pres. Qed.
Hint Resolve preserves_transformAtom preserves_transformNodeSafe
  preserves_transformBoolSubexpr : pres.

Lemma preserves_transformBoolExpr op args : preserves P (transformBoolExpr self op args).
Proof. unfold transformBoolExpr. pres. Qed.
Hint Resolve preserves_transformBoolExpr : pres.

Lemma preserves_transformWhereHelper w oc tables :
  preserves P (transformWhereHelper self w oc tables).
Proof. unfold transformWhereHelper. pres. Qed.
Hint Resolve preserves_transformWhereHelper : pres.

Lemma preserves_transformWhere w oc : preserves P (transformWhere self w oc).
Proof. unfold transformWhere. pres. Qed.

Lemma preserves_transformSubLink k t s : preserves P (transformSubLink self k t s).
Proof. unfold transformSubLink. pres. Qed.

Lemma preserves_copyCTEs e : preserves P (copyCTEs e).
Proof. unfold copyCTEs. pres. Qed.
Hint Resolve preserves_transformWhere preserves_transformSubLink preserves_copyCTEs : pres.

Lemma preserves_handleCTE w : preserves P (handleCTE self w).
Proof. unfold handleCTE. pres. Qed.

Lemma preserves_transformSelectCol n : preserves P (transformSelectCol self n).
Proof. unfold transformSelectCol. pres. Qed.
Hint Resolve preserves_handleCTE preserves_transformSelectCol : pres.

Lemma preserves_transformSelect stmt ins : preserves P (transformSelect self stmt ins).
Proof.
  unfold transformSelect. pres; try (apply preserves_commaSeparated; intros; pres).
Qed.

Lemma preserves_transformInsert stmt : preserves P (transformInsert self stmt).
Proof.
  unfold transformInsert. pres; try (apply preserves_commaSeparated; intros; pres).
Qed.

Lemma preserves_transformUpdate stmt : preserves P (transformUpdate self stmt).
Proof.
  unfold transformUpdate. pres; try (apply preserves_commaSeparated; intros; pres).
Qed.

Lemma preserves_transformDelete stmt : preserves P (transformDelete self stmt).
Proof.
  unfold transformDelete. pres; try (apply preserves_commaSeparated; intros; pres).
Qed.

Lemma preserves_transformNodeHelper node : preserves P (transformNodeHelper self node).
Proof.
  unfold transformNodeHelper. pres; try (apply preserves_commaSeparated; intros; pres).
Qed.
End Bodies.

Lemma preserves_rewriter fuel : preservesAll P (rewriter fuel).
Proof.
  induction fuel as [|fuel IH].
  - repeat split; intros; apply preserves_outOfFuel.
  - repeat split; intros; simpl.
    + apply preserves_transformNodeHelper, IH.
    + apply preserves_transformSelect, IH.
    + apply preserves_transformInsert, IH.
    + apply preserves_transformBoolExpr, IH.
Qed.

Lemma preserves_runStmt fuel t stmt : P (start t) -> P (runStmt fuel t stmt).2.
Proof.
  induction stmt; simpl; intros H; auto.
  - apply preserves_transformInsert; [apply preserves_rewriter|exact H].
  - apply preserves_transformSelect; [apply preserves_rewriter|exact H].
  - apply preserves_transformUpdate; [apply preserves_rewriter|exact H].
  - apply preserves_transformDelete; [apply preserves_rewriter|exact H].
Qed.
End Preservation.

(** *** The parameter scan *)

Lemma maxParam_nonneg l : 0 <= maxParam l.
Proof. induction l; simpl; lia. Qed.

Lemma maxParam_app l1 l2 : maxParam (l1 ++ l2) = Z.max (maxParam l1) (maxParam l2).
Proof. induction l1 as [|x l1 IH]; simpl; [pose proof (maxParam_nonneg l2)|]; lia. Qed.

Lemma maxParam_ge l : Forall (fun K => K <= maxParam l) l.
Proof.
  induction l as [|x l IH]; constructor; simpl; [lia|].
  eapply List.Forall_impl; [|exact IH]. simpl. intros; lia.
Qed.

Lemma fold_max_init a x rest :
  fold_right Z.max (Z.max a x) rest = Z.max x (fold_right Z.max a rest).
Proof. induction rest as [|y rest IH]; simpl; lia. Qed.

Lemma maxOf_fold first rest :
  fold_left (fun result subresult => if result <? subresult then subresult else result)
            rest first
  = fold_right Z.max first rest.
Proof.
  revert first. induction rest as [|x rest IH]; intros first; simpl; [reflexivity|].
  rewrite IH. rewrite <- fold_max_init. f_equal.
  destruct (Z.ltb_spec first x); lia.
Qed.

(** The loop of [findMaxParam] yields the greatest of results that are not
    negative. *)
Lemma maxOf_nonneg subresults :
  Forall (fun z => 0 <= z) subresults -> maxOf subresults = maxParam subresults.
Proof.
  destruct subresults as [|first rest]; [reflexivity|].
  intros H. inversion H as [|? ? Hfirst Hrest]; subst.
  unfold maxOf. rewrite maxOf_fold. unfold maxParam. simpl.
  assert (E : forall a, 0 <= a -> Forall (fun z => 0 <= z) rest ->
              fold_right Z.max a rest = Z.max a (fold_right Z.max 0 rest)).
  { clear. intros a Ha. induction 1; simpl; lia. }
  rewrite (E first Hfirst Hrest). reflexivity.
Qed.

Lemma scanAgree_join zs ls :
  List.Forall2 scanAgree zs ls -> scanAgree (maxOf zs) (List.concat ls).
Proof.
  intros H Hnn.
  assert (Hz : zs = List.map maxParam ls).
  { induction H as [|z l zs ls Hzl _ IH]; [reflexivity|].
    simpl in Hnn. apply List.Forall_app in Hnn as [Hl Hls].
    simpl. rewrite (Hzl Hl), (IH Hls). reflexivity. }
  subst zs. rewrite maxOf_nonneg.
  - clear. induction ls as [|l ls IH]; [reflexivity|].
    simpl. rewrite maxParam_app, IH. reflexivity.
  - apply List.Forall_map. apply List.Forall_forall. intros; apply maxParam_nonneg.
Qed.

Lemma findMaxParam_max tree :
  Forall (fun K => 0 <= K) (params tree) -> findMaxParam tree = maxParam (params tree).
Proof.
  apply (walkTree_related (fun k => k) maxOf (fun k => [k]) (@List.concat Z) scanAgree).
  - intros k Hk. inversion Hk; subst. simpl. lia.
  - apply scanAgree_join.
Qed.

Lemma wrapInt_small z : - 2 ^ 63 <= z < 2 ^ 63 -> wrapInt z = z.
Proof. intros H. unfold wrapInt. rewrite Z.mod_small; lia. Qed.

(** *** The index of the tenant parameter *)

Lemma injectionInv_runStmt N fuel t stmt :
  tenantIDNum t = N -> isTransformed t = false ->
  injectionInv N (runStmt fuel t stmt).2.
Proof.
  intros HN Hf. apply preserves_runStmt.
  - intros s s' Hx Hs (H1 & H2 & H3). unfold injectionInv. rewrite <- Hx, <- Hs. auto.
  - intros s (H1 & H2 & H3). unfold injectionInv. simpl.
    split; [exact H1|]. split.
    + apply List.Forall_app. split; [exact H2|]. repeat constructor. exact H1.
    + split; [|reflexivity]. intros _. destruct (sites s); discriminate.
  - unfold injectionInv, start. simpl. split; [exact HN|]. split; [constructor|].
    rewrite Hf. split; [discriminate|congruence].
Qed.

Lemma injectionInv_transformTree c tree :
  injectionInv (wrapInt (1 + findMaxParam tree))
               (transformTree (newTransformer c tree) tree).2.
Proof.
  unfold transformTree.
  destruct (nodes.Statements tree) as [|stmt [|? ?]];
    [|apply injectionInv_runStmt; reflexivity|];
    (unfold injectionInv, start; simpl; split; [reflexivity|];
     split; [constructor|]; split; [discriminate|congruence]).
Qed.



(** ** The recursion bound *)

Lemma height_elem (l : list Node) x :
  In x l -> (height x <= list_max (List.map height l))%nat.
Proof.
  intros Hin. induction l as [|y l IH]; [contradiction|].
  change (list_max (List.map height (y :: l)))
    with (Nat.max (height y) (list_max (List.map height l))).
  destruct Hin as [->|Hin]; [clear IH; lia|]. specialize (IH Hin). lia.
Qed.

Lemma height_pos n : (1 <= height n)%nat.
Proof.
  destruct n; unfold height; simpl; unfold walkRangeVar, walkList;
    auto using le_n_S, Nat.le_0_l.
Qed.

Lemma terminates_ret {A} (a : A) : terminates (ret a).
Proof. intros s. reflexivity. Qed.
Lemma terminates_fail {A} e : terminates (@fail A e).
Proof. intros s. reflexivity. Qed.
Lemma terminates_panic {A} : terminates (@panic A).
Proof. intros s. reflexivity. Qed.
Lemma terminates_Fprint str : terminates (Fprint str).
Proof. intros s. reflexivity. Qed.
Lemma terminates_getTransformer : terminates getTransformer.
Proof. intros s. reflexivity. Qed.
Lemma terminates_getEnv : terminates getEnv.
Proof. intros s. reflexivity. Qed.
Lemma terminates_setEnv e : terminates (setEnv e).
Proof. intros s. reflexivity. Qed.
Lemma terminates_addTenantID : terminates addTenantID.
Proof. intros s. reflexivity. Qed.

Lemma terminates_bind {A B} (m : M A) (k : A -> M B) :
  terminates m -> (forall a, terminates (k a)) -> terminates (bind m k).
Proof.
  intros Hm Hk s. unfold bind. specialize (Hm s).
  destruct (m s) as [[a|e|x] s']; simpl in *; [apply Hk|reflexivity|exact Hm].
Qed.

Lemma terminates_wrap {A} msg (m : M A) : terminates m -> terminates (wrap msg m).
Proof.
  intros Hm s. unfold wrap. specialize (Hm s).
  destruct (m s) as [[a|e|x] s']; simpl in *; [reflexivity|reflexivity|exact Hm].
Qed.

Lemma terminates_withBuffer {A} (m : M A) : terminates m -> terminates (withBuffer m).
Proof.
  intros Hm s. unfold withBuffer.
  match goal with |- context [m ?s0] => specialize (Hm s0); destruct (m s0) as [[a|e|x] s'] end;
    simpl in *; [reflexivity|reflexivity|exact Hm].
Qed.

Lemma terminates_withEnv {A} e (m : M A) : terminates m -> terminates (withEnv e m).
Proof.
  intros Hm s. unfold withEnv.
  match goal with |- context [m ?s0] => specialize (Hm s0); destruct (m s0) as [[a|err|x] s'] end;
    simpl in *; [reflexivity|reflexivity|exact Hm].
Qed.

Lemma terminates_forRange {X S} (l : list X) (body : S -> X -> M S) :
  (forall acc x, In x l -> terminates (body acc x)) ->
  forall acc, terminates (forRange l acc body).
Proof.
  induction l as [|x l IH]; intros Hb acc; simpl.
  - apply terminates_ret.
  - apply terminates_bind; [apply Hb; left; reflexivity|].
    intros acc'. apply IH. intros ? ? Hin. apply Hb. right. exact Hin.
Qed.

Lemma terminates_envLookup k : terminates (envLookup k).
Proof. intros s. reflexivity. Qed.
Lemma terminates_envStore k v : terminates (envStore k v).
Proof. intros s. reflexivity. Qed.

Create HintDb term discriminated.
#[local] Hint Resolve terminates_ret terminates_fail terminates_panic terminates_Fprint
  terminates_getTransformer terminates_getEnv terminates_setEnv terminates_addTenantID
  terminates_envLookup terminates_envStore : term.

(** The height of a part of a node is below the height of the node. *)
Ltac heights :=
  intros;
  repeat match goal with
    | Hin : In ?x ?l |- _ =>
        lazymatch type of x with
        | nodes.Node =>
            simpl in Hin;
            try match goal with
              | H : forall y, In y _ -> (_ <= _)%nat |- _ => pose proof (H _ Hin)
              end;
            apply height_elem in Hin
        end
    end;
  repeat match goal with
    | H : ?T |- _ =>
        lazymatch T with
        | (_ <= _)%nat => fail
        | _ => clear H
        end
    end;
  unfold height in *; simpl in *;
  cbv beta delta [walkList walkAlias walkRangeVar walkWith zeroValue] in *; simpl in *;
  repeat match goal with
    | H : (S _ <= S _)%nat |- _ => apply le_S_n in H
    | H : (Nat.max _ _ <= _)%nat |- _ => apply Nat.max_lub_iff in H; destruct H
    | H : (0 <= _)%nat |- _ => clear H
    end;
  lia.

(** The bound on the height of a statement, as bounds on its fields. *)
Ltac height_fields H :=
  unfold height in H; simpl in H;
  cbv beta delta [walkList walkAlias walkRangeVar walkWith zeroValue] in H; simpl in H;
  apply le_S_n in H;
  repeat (apply Nat.max_lub_iff in H; destruct H as [? H]).

(** The fields of a record that has been taken apart. *)
Ltac fields :=
  cbn [Alias.Aliasname Alias.Colnames RangeVar.Relname RangeVar.Alias
       TypeName.Names TypeName.Typmods TypeName.ArrayBounds
       WithClause.Ctes WithClause.Recursive
       InferClause.IndexElems InferClause.WhereClause
       OnConflictClause.Action OnConflictClause.Infer OnConflictClause.TargetList
       OnConflictClause.WhereClause
       SelectStmt.DistinctClause SelectStmt.TargetList SelectStmt.FromClause
       SelectStmt.WhereClause SelectStmt.GroupClause SelectStmt.HavingClause
       SelectStmt.ValuesLists SelectStmt.SortClause SelectStmt.LimitOffset
       SelectStmt.LimitCount SelectStmt.WithClause
       InsertStmt.Relation InsertStmt.Cols InsertStmt.SelectStmt
       InsertStmt.OnConflictClause InsertStmt.ReturningList InsertStmt.WithClause
       UpdateStmt.Relation UpdateStmt.TargetList UpdateStmt.WhereClause
       UpdateStmt.FromClause UpdateStmt.ReturningList UpdateStmt.WithClause
       DeleteStmt.Relation DeleteStmt.UsingClause DeleteStmt.WhereClause
       DeleteStmt.ReturningList DeleteStmt.WithClause] in *.

Ltac term_struct :=
  cbv beta;
  lazymatch goal with
  | |- terminates (bind _ _) => apply terminates_bind; [|intros]
  | |- terminates (wrap _ _) => apply terminates_wrap
  | |- terminates (withBuffer _) => apply terminates_withBuffer
  | |- terminates (withEnv _ _) => apply terminates_withEnv
  | |- terminates (forRange _ _ _) => apply terminates_forRange; intros
  | |- terminates (match ?x with _ => _ end) =>
      first [ is_var x; destruct x
            | lazymatch x with ?f ?r => is_var r; destruct r; fields end
            | destruct x ]
  end.

Ltac term_basic := repeat first [ solve [auto with term] | term_struct ].

Lemma terminates_maybeSetIsLeftJoinTable table : terminates (maybeSetIsLeftJoinTable table).
Proof. unfold maybeSetIsLeftJoinTable. term_basic. Qed.
Lemma terminates_transformIndexElem n : terminates (transformIndexElem n).
Proof. unfold transformIndexElem. term_basic. Qed.
Lemma terminates_transformIdent names : terminates (transformIdent names).
Proof. unfold transformIdent. term_basic. Qed.
#[local] Hint Resolve terminates_transformIdent : term.
Lemma terminates_transformTypeName tn : terminates (transformTypeName tn).
Proof. unfold transformTypeName. term_basic. Qed.
Lemma terminates_transformConst v : terminates (transformConst v).
Proof. unfold transformConst. term_basic. Qed.
Lemma terminates_copyCTEs e : terminates (copyCTEs e).
Proof. unfold copyCTEs. term_basic. Qed.
#[local] Hint Resolve terminates_maybeSetIsLeftJoinTable terminates_transformIndexElem
  terminates_transformTypeName terminates_transformConst terminates_copyCTEs : term.

Section Enough.
Variable self : recursion.
Variable h : nat.
Hypothesis Hself : enoughFor h self.

Lemma terminates_rec_node node :
  (height node <= h)%nat -> terminates (rec_transformNodeHelper self node).
Proof. apply Hself. Qed.
Lemma terminates_rec_select stmt ins :
  (height (nodes.SelectStmt stmt) <= h)%nat -> terminates (rec_transformSelect self stmt ins).
Proof. apply Hself. Qed.
Lemma terminates_rec_insert stmt :
  (height (nodes.InsertStmt stmt) <= h)%nat -> terminates (rec_transformInsert self stmt).
Proof. apply Hself. Qed.
Lemma terminates_rec_bool op args :
  (height (nodes.BoolExpr op args) <= h)%nat -> terminates (rec_transformBoolExpr self op args).
Proof. apply Hself. Qed.

Lemma terminates_transformNode node :
  (height node <= h)%nat -> terminates (transformNode self node).
Proof. intros H. unfold transformNode. term_basic; apply terminates_rec_node, H. Qed.

Lemma terminates_transformAtom node :
  (height node <= h)%nat -> terminates (transformAtom self node).
Proof. intros H. unfold transformAtom. term_basic; apply terminates_rec_node, H. Qed.

Lemma terminates_transformNodeSafe node :
  (height node <= h)%nat -> terminates (transformNodeSafe self node).
Proof.
  intros H. unfold transformNodeSafe.
  destruct node; auto with term; apply terminates_transformNode, H.
Qed.

Lemma terminates_commaSeparated l f :
  (forall n, In n l -> terminates (f n)) -> terminates (commaSeparated l f).
Proof. intros Hf. unfold commaSeparated. term_basic; apply Hf; assumption. Qed.

Lemma terminates_transformBoolSubexpr e :
  (height e <= h)%nat -> terminates (transformBoolSubexpr self e).
Proof.
  intros H. unfold transformBoolSubexpr.
  destruct e; try (apply terminates_transformNode; exact H).
  term_basic; apply terminates_rec_bool, H.
Qed.

Lemma terminates_transformBoolExpr op args :
  (forall a, In a args -> (height a <= h)%nat) -> terminates (transformBoolExpr self op args).
Proof.
  intros H. unfold transformBoolExpr. destruct op; term_basic;
    apply terminates_transformBoolSubexpr, H; auto.
  all: left; reflexivity.
Qed.

Hint Extern 1 (terminates (transformNode _ _)) =>
  apply terminates_transformNode; heights : term.
Hint Extern 1 (terminates (transformAtom _ _)) =>
  apply terminates_transformAtom; heights : term.
Hint Extern 1 (terminates (transformNodeSafe _ _)) =>
  apply terminates_transformNodeSafe; heights : term.
Hint Extern 1 (terminates (transformBoolSubexpr _ _)) =>
  apply terminates_transformBoolSubexpr; heights : term.
Hint Extern 1 (terminates (transformBoolExpr _ _ _)) =>
  apply terminates_transformBoolExpr; heights : term.
Hint Extern 1 (terminates (rec_transformSelect _ _ _)) =>
  apply terminates_rec_select; heights : term.
Hint Extern 1 (terminates (rec_transformInsert _ _)) =>
  apply terminates_rec_insert; heights : term.
Hint Extern 1 (terminates (rec_transformBoolExpr _ _ _)) =>
  apply terminates_rec_bool; heights : term.

Ltac term :=
  repeat first
    [ solve [auto with term]
    | lazymatch goal with
      | |- terminates (commaSeparated _ _) => apply terminates_commaSeparated; intros
      end
    | term_struct ].

Lemma terminates_transformWhereHelper w oc tables :
  (height w <= h)%nat -> terminates (transformWhereHelper self w oc tables).
Proof. intros H. unfold transformWhereHelper. term. Qed.
Hint Extern 1 (terminates (transformWhereHelper _ _ _ _)) =>
  apply terminates_transformWhereHelper; heights : term.

Lemma terminates_transformWhere w oc :
  (height w <= h)%nat -> terminates (transformWhere self w oc).
Proof. intros H. unfold transformWhere. term. Qed.
Hint Extern 1 (terminates (transformWhere _ _ _)) =>
  apply terminates_transformWhere; heights : term.

Lemma terminates_transformSubLink k t s :
  (height t <= h)%nat -> (height s <= h)%nat -> terminates (transformSubLink self k t s).
Proof. intros Ht Hs. unfold transformSubLink. term. Qed.
Hint Extern 1 (terminates (transformSubLink _ _ _ _)) =>
  apply terminates_transformSubLink; heights : term.

Lemma terminates_handleCTE w :
  match w with
  | Some w => forall cte, In cte (WithClause.Ctes w) -> (height cte <= S h)%nat
  | None => True
  end -> terminates (handleCTE self w).
Proof.
  intros H. unfold handleCTE. destruct w as [[ctes r]|]; [|auto with term].
  simpl in H |- *. term.
Qed.

Lemma terminates_transformSelectCol n :
  (height n <= S h)%nat -> terminates (transformSelectCol self n).
Proof. intros H. unfold transformSelectCol. term. Qed.
Hint Extern 1 (terminates (transformSelectCol _ _)) =>
  apply terminates_transformSelectCol; heights : term.
Hint Extern 1 (terminates (handleCTE _ ?w)) =>
  apply terminates_handleCTE; destruct w; [heights|exact I] : term.

Lemma terminates_transformSelect stmt ins :
  (height (nodes.SelectStmt stmt) <= S h)%nat -> terminates (transformSelect self stmt ins).
Proof.
  intros H. destruct stmt as [dc tl fc wh gc hv vl sc lo lc wc].
  unfold transformSelect. cbn [SelectStmt.DistinctClause SelectStmt.TargetList
    SelectStmt.FromClause SelectStmt.WhereClause SelectStmt.GroupClause
    SelectStmt.HavingClause SelectStmt.ValuesLists SelectStmt.SortClause
    SelectStmt.LimitOffset SelectStmt.LimitCount SelectStmt.WithClause].
  term.
Qed.
Lemma terminates_transformInsert stmt :
  (height (nodes.InsertStmt stmt) <= S h)%nat -> terminates (transformInsert self stmt).
Proof.
  intros H. destruct stmt as [rel cols sel oc rl wc].
  unfold transformInsert. cbn [InsertStmt.Relation InsertStmt.Cols InsertStmt.SelectStmt
    InsertStmt.OnConflictClause InsertStmt.ReturningList InsertStmt.WithClause].
  height_fields H. term.
Qed.

Lemma terminates_transformUpdate stmt :
  (height (nodes.UpdateStmt stmt) <= S h)%nat -> terminates (transformUpdate self stmt).
Proof.
  intros H. destruct stmt as [rel tl wh fc rl wc].
  unfold transformUpdate. cbn [UpdateStmt.Relation UpdateStmt.TargetList
    UpdateStmt.WhereClause UpdateStmt.FromClause UpdateStmt.ReturningList
    UpdateStmt.WithClause].
  term.
Qed.

Lemma terminates_transformDelete stmt :
  (height (nodes.DeleteStmt stmt) <= S h)%nat -> terminates (transformDelete self stmt).
Proof.
  intros H. destruct stmt as [rel uc wh rl wc].
  unfold transformDelete. cbn [DeleteStmt.Relation DeleteStmt.UsingClause
    DeleteStmt.WhereClause DeleteStmt.ReturningList DeleteStmt.WithClause].
  term.
Qed.

Lemma terminates_transformNodeHelper node :
  (height node <= S h)%nat -> terminates (transformNodeHelper self node).
Proof.
  intros H. unfold transformNodeHelper. destruct node; term.
Qed.
End Enough.

Lemma enoughFor_rewriter fuel : enoughFor fuel (rewriter fuel).
Proof.
  induction fuel as [|fuel IH].
  - repeat split; intros; exfalso;
      match goal with H : (height ?n <= 0)%nat |- _ => pose proof (height_pos n); lia end.
  - repeat split; intros; cbn [rewriter rec_transformNodeHelper rec_transformSelect
      rec_transformInsert rec_transformBoolExpr].
    + apply (terminates_transformNodeHelper _ _ IH). assumption.
    + apply (terminates_transformSelect _ _ IH). assumption.
    + apply (terminates_transformInsert _ _ IH). assumption.
    + apply (terminates_transformBoolExpr _ _ IH). heights.
Qed.

Lemma enoughFor_le self h h' : (h' <= h)%nat -> enoughFor h self -> enoughFor h' self.
Proof.
  intros Hle (H1 & H2 & H3 & H4).
  repeat split; intros; [apply H1|apply H2|apply H3|apply H4]; lia.
Qed.

Lemma runStmt_terminates fuel t stmt :
  (height stmt <= fuel)%nat -> ranOut (runStmt fuel t stmt).1 = false.
Proof.
  pose proof (enoughFor_rewriter fuel) as Hfuel.
  assert (Hmore : enoughFor (fuel - 1) (rewriter fuel))
    by (apply (enoughFor_le _ fuel); [lia|exact Hfuel]).
  induction stmt; intros Hh; cbn [runStmt]; try reflexivity.
  - apply IHstmt. heights.
  - apply (terminates_transformInsert _ _ Hmore). lia.
  - apply (terminates_transformSelect _ _ Hmore). lia.
  - apply (terminates_transformUpdate _ _ Hmore). lia.
  - apply (terminates_transformDelete _ _ Hmore). lia.
Qed.

Lemma transformTree_terminates t tree : ranOut (transformTree t tree).1 = false.
Proof.
  unfold transformTree, transformStmt.
  destruct (nodes.Statements tree) as [|stmt [|? ?]]; try reflexivity.
  apply runStmt_terminates. reflexivity.
Qed.

(** X1: the recursion bound of the model is never reached: the rewriter comes
    to an end on every statement, with a result or with a panic of the Go
    code itself, and so does [doTransform]. *)
Theorem height_is_enough (c : Conn) (t : transformer) (stmt : Node)
    (tree : nodes.ParsetreeList) :
  ranOut (transformStmt t stmt).1 = false
  /\ match doTransform c tree with
     | Panics OutOfFuel => False
     | _ => True
     end.
Proof.
  split; [apply runStmt_terminates; reflexivity|].
  unfold doTransform.
  pose proof (transformTree_terminates (newTransformer c tree) tree) as H.
  destruct (transformTree (newTransformer c tree) tree) as [[[]|e|[]] s];
    simpl in H; [exact I|exact I|exact I|discriminate H].
Qed.

(** ** The driver-facing operation *)

Lemma escapes_dec ctx q :
  match queryValue ctx with
  | Some escapedQuery => String.eqb (normalize escapedQuery) q
  | None => false
  end = true <-> escapes ctx q.
Proof.
  unfold escapes. destruct (queryValue ctx) as [e|].
  - rewrite String.eqb_eq. split; [eauto|]. intros (e' & [= <-] & H). exact H.
  - split; [discriminate|]. intros (e' & [=] & _).
Qed.

(** A lookup that misses leaves the cache as it is. *)
Lemma lookup_miss qc q qc' : lookup qc q = (None, qc') -> qc' = qc.
Proof.
  unfold lookup. destruct qc as [[c|]]; simpl.
  - unfold lru.Get. destruct (lru.find q c); [discriminate|]. intros [= <-]. reflexivity.
  - intros [= <-]. reflexivity.
Qed.

Lemma setCache_same c : setCache c (dynamicCache (driver c)) = c.
Proof. destruct c as [[? ? ?]]. reflexivity. Qed.

Lemma doTransform_error c tree q n err :
  doTransform c tree = Returns (q, n, Some err) -> q = "" /\ n = 0.
Proof.
  unfold doTransform.
  destruct (transformTree (newTransformer c tree) tree) as [[[]|e|x] s];
    intros [= <- <-]; auto.
Qed.

Lemma doTransform_fails c tree e s :
  transformTree (newTransformer c tree) tree = (Err e, s) ->
  doTransform c tree = Returns ("", 0, Some e).
Proof. intros H. unfold doTransform. rewrite H. reflexivity. Qed.

Section TransformFacts.
Variable Parse : string -> parsed.

(** What [transform] does with a query that is not in the whitelist, is
    escaped and is not in the cache. *)
Lemma transform_rewrites (c : Conn) (ctx : Context) (query : string) :
  let q := normalize query in
  let d := driver c in
  Whitelist d !! q = None -> escapes ctx q -> (lookup (dynamicCache d) q).1 = None ->
  transform Parse c ctx query
  = match Parse q with
    | ParseFailed err => (Returns ("", 0, Some err), c)
    | Parsed tree =>
        match doTransform c tree with
        | Panics x => (Panics x, c)
        | Returns (_, _, Some err) => (Returns ("", 0, Some err), c)
        | Returns (transformedQ, tenantIDNum_, None) =>
            (Returns (transformedQ, tenantIDNum_, None),
             setCache c (add (dynamicCache d) q
                             {| Query := transformedQ; Num := tenantIDNum_ |}))
        end
    end.
Proof.
  intros q d Hwl Hesc Hlook. unfold transform. fold q. fold d.
  rewrite Hwl. rewrite <- escapes_dec in Hesc. rewrite Hesc. cbn [negb].
  destruct (lookup (dynamicCache d) q) as [hit qc] eqn:E. simpl in Hlook. subst hit.
  apply lookup_miss in E. subst qc. unfold d. rewrite setCache_same. reflexivity.
Qed.

(** C5: [transform] normalizes the query to [q]; a whitelisted [q] is
    answered from the whitelist, without parsing; otherwise a [q] that the
    context does not escape fails with [ErrUnknownQuery] wrapping [q],
    whatever the cache holds; otherwise a cached [q] is answered from the
    cache; otherwise [q] is parsed and rewritten, the result is added to
    the cache and returned. *)
Theorem transform_order (c : Conn) (ctx : Context) (query : string) :
  let q := normalize query in
  let d := driver c in
  (* the whitelist, before anything else and without parsing *)
  (forall found, Whitelist d !! q = Some found ->
     transform Parse c ctx query = (Returns (Query found, Num found, None), c))
  (* the escape, before the cache: a cached query that is not escaped fails *)
  /\ (Whitelist d !! q = None -> ~ escapes ctx q ->
      transform Parse c ctx query
      = (Returns ("", 0, Some (Wrap ErrUnknownQuery q)), c))
  (* the cache *)
  /\ (forall found qc,
        Whitelist d !! q = None -> escapes ctx q ->
        lookup (dynamicCache d) q = (Some found, qc) ->
        transform Parse c ctx query
        = (Returns (Query found, Num found, None), setCache c qc))
  (* the parser *)
  /\ (forall err,
        Whitelist d !! q = None -> escapes ctx q ->
        (lookup (dynamicCache d) q).1 = None ->
        Parse q = ParseFailed err ->
        transform Parse c ctx query = (Returns ("", 0, Some err), c))
  (* the rewriter, and the insertion of its result *)
  /\ (forall tree transformedQ tenantIDNum_,
        Whitelist d !! q = None -> escapes ctx q ->
        (lookup (dynamicCache d) q).1 = None ->
        Parse q = Parsed tree ->
        doTransform c tree = Returns (transformedQ, tenantIDNum_, None) ->
        transform Parse c ctx query
        = (Returns (transformedQ, tenantIDNum_, None),
           setCache c (add (dynamicCache d) q
                           {| Query := transformedQ; Num := tenantIDNum_ |}))).
Proof.
  intros q d. repeat split.
  - intros found Hwl. unfold transform. fold q. fold d. rewrite Hwl. reflexivity.
  - intros Hwl Hesc. unfold transform. fold q. fold d. rewrite Hwl.
    rewrite <- escapes_dec in Hesc. apply not_true_is_false in Hesc.
    rewrite Hesc. reflexivity.
  - intros found qc Hwl Hesc Hlook. unfold transform. fold q. fold d. rewrite Hwl.
    rewrite <- escapes_dec in Hesc. rewrite Hesc, Hlook. reflexivity.
  - intros err Hwl Hesc Hlook Hparse.
    rewrite (transform_rewrites c ctx query Hwl Hesc Hlook). fold q.
    rewrite Hparse. reflexivity.
  - intros tree tq n Hwl Hesc Hlook Hparse Hdo.
    rewrite (transform_rewrites c ctx query Hwl Hesc Hlook). fold q.
    rewrite Hparse, Hdo. reflexivity.
Qed.

(** C6: a rewrite that fails returns its error with the empty query and
    the index 0, whatever the rewriter had written; a call of [transform]
    that returns an error returns the empty query and the index 0 and
    leaves the connection, its cache included, as it was; and a failure
    of the parser or of the rewriter is such a call. *)
Theorem transform_all_or_nothing (c : Conn) (ctx : Context) (query : string) :
  let q := normalize query in
  let d := driver c in
  (forall tree e s,
     transformTree (newTransformer c tree) tree = (Err e, s) ->
     doTransform c tree = Returns ("", 0, Some e))
  /\ (forall q' n err c',
        transform Parse c ctx query = (Returns (q', n, Some err), c') ->
        q' = "" /\ n = 0 /\ c' = c)
  /\ (forall err,
        Whitelist d !! q = None -> escapes ctx q ->
        (lookup (dynamicCache d) q).1 = None ->
        Parse q = ParseFailed err ->
        transform Parse c ctx query = (Returns ("", 0, Some err), c))
  /\ (forall tree e s,
        Whitelist d !! q = None -> escapes ctx q ->
        (lookup (dynamicCache d) q).1 = None ->
        Parse q = Parsed tree ->
        transformTree (newTransformer c tree) tree = (Err e, s) ->
        transform Parse c ctx query = (Returns ("", 0, Some e), c)).
Proof.
  intros q d. split; [|split; [|split]].
  - intros tree e s. apply doTransform_fails.
  - intros q' n err c' H. unfold transform in H. fold q in H. fold d in H.
    destruct (Whitelist d !! q) as [found|]; [discriminate|].
    destruct (negb _); [injection H; intros; subst; auto|].
    destruct (lookup (dynamicCache d) q) as [[found|] qc] eqn:E; [discriminate|].
    apply lookup_miss in E. subst qc. unfold d in H. rewrite setCache_same in H.
    destruct (Parse q) as [tree|perr]; [|injection H; intros; subst; auto].
    destruct (doTransform c tree) as [[[tq m] [e|]]|x]; try discriminate.
    injection H; intros; subst; auto.
  - intros err Hwl Hesc Hlook Hparse.
    rewrite (transform_rewrites c ctx query Hwl Hesc Hlook). fold q.
    rewrite Hparse. reflexivity.
  - intros tree e s Hwl Hesc Hlook Hparse Hfail.
    rewrite (transform_rewrites c ctx query Hwl Hesc Hlook). fold q.
    rewrite Hparse, (doTransform_fails _ _ _ _ Hfail). reflexivity.
Qed.
End TransformFacts.

(** A query that is in the cache fails all the same when the context does
    not escape it. *)
Lemma transform_order_witness :
  lookup (dynamicCache (driver (cachedConn "SELECT 1" {| Query := "SELECT 1"; Num := 0 |})))
         "SELECT 1"
  = (Some {| Query := "SELECT 1"; Num := 0 |},
     dynamicCache (driver (cachedConn "SELECT 1" {| Query := "SELECT 1"; Num := 0 |})))
  /\ transform exampleParse (cachedConn "SELECT 1" {| Query := "SELECT 1"; Num := 0 |})
       Background "  SELECT 1 "
     = (Returns ("", 0, Some (Wrap ErrUnknownQuery "SELECT 1")),
        cachedConn "SELECT 1" {| Query := "SELECT 1"; Num := 0 |}).
Proof.
  split; [vm_compute; reflexivity|].
  pose proof (transform_order exampleParse
                (cachedConn "SELECT 1" {| Query := "SELECT 1"; Num := 0 |})
                Background "  SELECT 1 ") as H.
  cbv zeta in H. destruct H as (_ & H & _).
  replace (normalize "  SELECT 1 ") with "SELECT 1" in H by (vm_compute; reflexivity).
  apply H.
  - vm_compute. reflexivity.
  - intros (e & He & _). discriminate He.
Defined.

(** [SELECT CURRENT_DATE] is not rewritten: the rewriter has written
    [SELECT ] when it fails, and the caller gets the empty query. *)
Lemma transform_all_or_nothing_witness :
  buf (transformTree (newTransformer exampleConn selectToday) selectToday).2 = "SELECT "
  /\ transform (fun _ => Parsed selectToday) exampleConn
       (WithQuery Background "SELECT CURRENT_DATE") "SELECT CURRENT_DATE"
     = (Returns ("", 0,
                 Some (Wrap (Wrap (Errorf "SQLValueFunction 0 not handled")
                                  "transformSelectCol") "transformSelect")),
        exampleConn).
Proof.
  split; [vm_compute; reflexivity|].
  pose proof (transform_all_or_nothing (fun _ => Parsed selectToday) exampleConn
                (WithQuery Background "SELECT CURRENT_DATE") "SELECT CURRENT_DATE") as H.
  cbv zeta in H. destruct H as (_ & _ & _ & H).
  apply (H selectToday _
           (transformTree (newTransformer exampleConn selectToday) selectToday).2).
  - vm_compute. reflexivity.
  - exists "SELECT CURRENT_DATE". split; vm_compute; reflexivity.
  - vm_compute. reflexivity.
  - reflexivity.
  - vm_compute. reflexivity.
Defined.

(** ** The dynamic cache *)

Lemma lru_find_front key value rest m :
  lru.find key {| lru.MaxEntries := m; lru.ll := (key, value) :: rest |} = Some value.
Proof. unfold lru.find. simpl. rewrite String.eqb_refl. reflexivity. Qed.

(** An entry that has just been added is found. *)
Lemma lru_find_Add key value c : lru.find key (lru.Add key value c) = Some value.
Proof.
  unfold lru.Add. destruct (lru.find key c); [apply lru_find_front|].
  destruct (negb (lru.MaxEntries c =? 0)%nat
            && (lru.MaxEntries c <? length ((key, value) :: lru.ll c))%nat) eqn:E;
    [|apply lru_find_front].
  apply andb_prop in E as [E0 E1].
  apply negb_true_iff, Nat.eqb_neq in E0. apply Nat.ltb_lt in E1. simpl in E1.
  destruct (lru.ll c) as [|kv rest] eqn:El; [simpl in E1; lia|].
  apply lru_find_front.
Qed.

Lemma lookup_add qc q found : (lookup (add qc q found) q).1 = Some found.
Proof.
  unfold lookup, add. cbn [cache]. unfold lru.Get.
  rewrite lru_find_Add. reflexivity.
Qed.

(** A hit is a hit again. *)
Lemma lookup_hit qc q found qc' :
  lookup qc q = (Some found, qc') -> (lookup qc' q).1 = Some found.
Proof.
  unfold lookup. destruct qc as [[c|]]; cbn [cache]; [|discriminate].
  unfold lru.Get. destruct (lru.find q c) as [value|] eqn:E; [|discriminate].
  intros [= -> <-]. cbn [cache]. rewrite lru_find_front. reflexivity.
Qed.

(** X2: an answer of [transform] stands: the same call on the connection as the
    first call leaves it gives the same answer, from the whitelist or from
    the cache, whatever the parser would say. *)
Theorem transform_answer_stands (Parse Parse' : string -> parsed) (c c' : Conn)
    (ctx : Context) (query transformedQ : string) (tenantIDNum_ : Z) :
  transform Parse c ctx query = (Returns (transformedQ, tenantIDNum_, None), c') ->
  (transform Parse' c' ctx query).1 = Returns (transformedQ, tenantIDNum_, None).
Proof.
  intros H. unfold transform in *.
  set (q := normalize query) in *.
  assert (Hwl : forall qc, Whitelist (driver (setCache c qc)) = Whitelist (driver c))
    by reflexivity.
  destruct (Whitelist (driver c) !! q) as [found|] eqn:Ew.
  { injection H as <- <- <-. rewrite Ew. reflexivity. }
  destruct (negb _) eqn:Eesc; [discriminate|].
  destruct (lookup (dynamicCache (driver c)) q) as [[found|] qc] eqn:El.
  - injection H as <- <- <-. rewrite Hwl, Ew. cbn [setCache driver dynamicCache].
    pose proof (lookup_hit _ _ _ _ El) as Hh.
    destruct (lookup qc q) as [hit qc2]. simpl in Hh. subst hit. reflexivity.
  - apply lookup_miss in El. subst qc. rewrite setCache_same in H.
    destruct (Parse q) as [tree|perr]; [|discriminate].
    destruct (doTransform c tree) as [[[tq m] [e|]]|x]; try discriminate.
    injection H as <- <- <-. rewrite Hwl, Ew. cbn [setCache driver dynamicCache].
    pose proof (lookup_add (dynamicCache (driver c)) q {| Query := tq; Num := m |}) as Hh.
    destruct (lookup _ q) as [hit qc2]. simpl in Hh. subst hit. reflexivity.
Qed.

Lemma transform_answer_stands_witness :
  (transform exampleParse exampleConn (WithQuery Background "SELECT CURRENT_TIMESTAMP")
     "SELECT CURRENT_TIMESTAMP").1
  = Returns ("SELECT NOW()", 0, None)
  /\ (transform (fun _ => ParseFailed (ParserError "not asked"))
        (transform exampleParse exampleConn (WithQuery Background "SELECT CURRENT_TIMESTAMP")
           "SELECT CURRENT_TIMESTAMP").2
        (WithQuery Background "SELECT CURRENT_TIMESTAMP") "SELECT CURRENT_TIMESTAMP").1
     = Returns ("SELECT NOW()", 0, None).
Proof.
  split; [vm_compute; reflexivity|].
  apply (transform_answer_stands exampleParse _ exampleConn).
  vm_compute. reflexivity.
Defined.

(** ** The normalizer *)

#[local] Arguments String.append !_ _.

Lemma append_nil_r s : s ++ "" = s.
Proof. induction s as [|c s IH]; simpl; congruence. Qed.

Lemma append_assoc a b c : (a ++ b) ++ c = a ++ (b ++ c).
Proof. induction a as [|x a IH]; simpl; congruence. Qed.

Module NormalizerFacts.
Import GoStrings.

Section StripFacts.
Variable p1 : ascii -> bool.
Variable p2 : ascii -> ascii -> bool.
Variable p3 : ascii -> ascii -> ascii -> bool.

Lemma strip_suffix_len n : forall s, (String.length s <= n)%nat ->
  exists pre, s = pre ++ strip p1 p2 p3 s.
Proof.
  induction n as [|n IH]; intros s Hn.
  - destruct s; simpl in Hn; [|lia]. exists "". reflexivity.
  - destruct s as [|c0 r0]; [exists ""; reflexivity|].
    simpl in Hn. simpl.
    destruct (p1 c0).
    { destruct (IH r0) as [pre Hpre]; [lia|]. exists (String c0 pre). simpl. congruence. }
    destruct r0 as [|c1 r1]; [exists ""; reflexivity|].
    simpl in Hn. destruct (p2 c0 c1).
    { destruct (IH r1) as [pre Hpre]; [lia|].
      exists (String c0 (String c1 pre)). simpl. congruence. }
    destruct r1 as [|c2 r2]; [exists ""; reflexivity|].
    simpl in Hn. destruct (p3 c0 c1 c2).
    { destruct (IH r2) as [pre Hpre]; [lia|].
      exists (String c0 (String c1 (String c2 pre))). simpl. congruence. }
    exists "". reflexivity.
Qed.

Lemma strip_suffix s : exists pre, s = pre ++ strip p1 p2 p3 s.
Proof. apply (strip_suffix_len (String.length s)). lia. Qed.

Lemma strip_no_lead_len n : forall s, (String.length s <= n)%nat ->
  lead p1 p2 p3 (strip p1 p2 p3 s) = false.
Proof.
  induction n as [|n IH]; intros s Hn.
  - destruct s; simpl in Hn; [reflexivity|lia].
  - destruct s as [|c0 r0]; [reflexivity|].
    simpl in Hn. simpl.
    destruct (p1 c0) eqn:E1; [apply IH; lia|].
    destruct r0 as [|c1 r1]; [simpl; rewrite E1; reflexivity|].
    simpl in Hn. destruct (p2 c0 c1) eqn:E2; [apply IH; lia|].
    destruct r1 as [|c2 r2]; [simpl; rewrite E1, E2; reflexivity|].
    simpl in Hn. destruct (p3 c0 c1 c2) eqn:E3; [apply IH; lia|].
    simpl. rewrite E1, E2, E3. reflexivity.
Qed.

Lemma strip_no_lead s : lead p1 p2 p3 (strip p1 p2 p3 s) = false.
Proof. apply (strip_no_lead_len (String.length s)). lia. Qed.

Lemma strip_fixed s : lead p1 p2 p3 s = false -> strip p1 p2 p3 s = s.
Proof.
  destruct s as [|c0 r0]; [reflexivity|]. simpl.
  destruct (p1 c0); [discriminate|].
  destruct r0 as [|c1 r1]; [reflexivity|].
  destruct (p2 c0 c1); [discriminate|].
  destruct r1 as [|c2 r2]; [reflexivity|].
  destruct (p3 c0 c1 c2); [discriminate|reflexivity].
Qed.

(** A white-space rune at the start of [s] is one at the start of every
    string that [s] starts. *)
Lemma lead_app s z : lead p1 p2 p3 s = true -> lead p1 p2 p3 (s ++ z) = true.
Proof.
  destruct s as [|c0 r0]; [discriminate|]. simpl.
  destruct (p1 c0); [reflexivity|].
  destruct r0 as [|c1 r1]; [discriminate|]. simpl.
  destruct (p2 c0 c1); [reflexivity|].
  destruct r1 as [|c2 r2]; [discriminate|]. simpl. auto.
Qed.

(** No white-space rune holds the byte of the space but the space itself:
    a string that does not start with white space still does not when a
    space and more follow it. *)
Hypothesis p2_space : forall c, p2 c space = false.
Hypothesis p3_space_1 : forall c d, p3 c space d = false.
Hypothesis p3_space_2 : forall c d, p3 c d space = false.

Lemma lead_app_space s z :
  s <> "" -> lead p1 p2 p3 s = false ->
  lead p1 p2 p3 (s ++ String space z) = false.
Proof.
  destruct s as [|c0 r0]; [congruence|]. intros _. simpl.
  destruct (p1 c0); [discriminate|].
  destruct r0 as [|c1 r1]; simpl.
  { intros _. rewrite p2_space. destruct z; [reflexivity|]. apply p3_space_1. }
  destruct (p2 c0 c1); [discriminate|].
  destruct r1 as [|c2 r2]; simpl; [intros _; apply p3_space_2|auto].
Qed.
End StripFacts.

Lemma rev_app a b : rev (a ++ b) = rev b ++ rev a.
Proof.
  induction a as [|c a IH]; simpl.
  - symmetry. apply append_nil_r.
  - rewrite IH. apply append_assoc.
Qed.

Lemma rev_involutive s : rev (rev s) = s.
Proof.
  induction s as [|c s IH]; [reflexivity|].
  simpl. rewrite rev_app, IH. reflexivity.
Qed.

Lemma rev_empty s : rev s = "" -> s = "".
Proof. intros H. rewrite <- (rev_involutive s), H. reflexivity. Qed.

Lemma TrimLeft_suffix s : exists pre, s = pre ++ TrimLeft s.
Proof. apply strip_suffix. Qed.

Lemma TrimRight_prefix s : exists post, s = TrimRight s ++ post.
Proof.
  unfold TrimRight.
  destruct (strip_suffix isSpace1 (fun c1 c0 => isSpace2 c0 c1)
              (fun c2 c1 c0 => isSpace3 c0 c1 c2) (rev s)) as [pre Hpre].
  exists (rev pre). rewrite <- rev_app, <- Hpre. symmetry. apply rev_involutive.
Qed.

Lemma TrimSpace_infix s : exists pre post, s = pre ++ TrimSpace s ++ post.
Proof.
  destruct (TrimLeft_suffix s) as [pre Hpre].
  destruct (TrimRight_prefix (TrimLeft s)) as [post Hpost].
  exists pre, post. unfold TrimSpace. rewrite <- Hpost. exact Hpre.
Qed.

Lemma leadL_TrimSpace s : leadL (TrimSpace s) = false.
Proof.
  destruct (leadL (TrimSpace s)) eqn:E; [|reflexivity].
  destruct (TrimRight_prefix (TrimLeft s)) as [post Hpost].
  pose proof (strip_no_lead isSpace1 isSpace2 isSpace3 s) as Hno.
  fold (TrimLeft s) in Hno. rewrite Hpost in Hno.
  unfold leadL in E. unfold TrimSpace in E.
  rewrite (lead_app _ _ _ _ post E) in Hno. discriminate.
Qed.

Lemma leadR_TrimSpace s : leadR (rev (TrimSpace s)) = false.
Proof.
  unfold TrimSpace, TrimRight. rewrite rev_involutive. apply strip_no_lead.
Qed.

Lemma TrimSpace_fixed s : leadL s = false -> leadR (rev s) = false -> TrimSpace s = s.
Proof.
  intros HL HR. unfold TrimSpace, TrimLeft. rewrite (strip_fixed _ _ _ _ HL).
  unfold TrimRight. unfold leadR in HR. rewrite (strip_fixed _ _ _ _ HR).
  apply rev_involutive.
Qed.

Lemma isSpace2_space_l c : isSpace2 space c = false.
Proof. reflexivity. Qed.
Lemma isSpace2_space_r c : isSpace2 c space = false.
Proof. unfold isSpace2. simpl. apply andb_false_r. Qed.
Lemma isSpace3_space_1 c d : isSpace3 space c d = false.
Proof. reflexivity. Qed.
Lemma isSpace3_space_2 c d : isSpace3 c space d = false.
Proof.
  unfold isSpace3. cbn -[N.eqb N.leb byte].
  change (byte space) with 32%N. cbn [N.eqb Pos.eqb].
  rewrite !andb_false_r. reflexivity.
Qed.
Lemma isSpace3_space_3 c d : isSpace3 c d space = false.
Proof.
  unfold isSpace3. cbn -[N.eqb N.leb byte].
  change (byte space) with 32%N. 
  change (32 =? 128)%N with false. change (128 <=? 32)%N with false.
  change (32 =? 168)%N with false. change (32 =? 169)%N with false.
  change (32 =? 175)%N with false. change (32 =? 159)%N with false.
  rewrite !andb_false_r. reflexivity.
Qed.

Lemma leadL_app_space s z : s <> "" -> leadL s = false -> leadL (s ++ String space z) = false.
Proof.
  apply lead_app_space; intros; auto using isSpace2_space_r, isSpace3_space_2, isSpace3_space_3.
Qed.

Lemma leadR_app_space s z : s <> "" -> leadR s = false -> leadR (s ++ String space z) = false.
Proof.
  apply lead_app_space; intros; auto using isSpace2_space_l, isSpace3_space_1, isSpace3_space_2.
Qed.

(** *** Lines *)

Lemma contains_app c a b : contains c (a ++ b) = contains c a || contains c b.
Proof.
  unfold contains. induction a as [|x a IH]; simpl; [reflexivity|].
  rewrite IH. apply orb_assoc.
Qed.

Lemma Split_nonempty s sep : Split s sep <> [].
Proof.
  destruct s as [|c r]; simpl; [discriminate|].
  destruct (Ascii.eqb c sep); [discriminate|].
  destruct (Split r sep); discriminate.
Qed.

Lemma Split_no_sep s sep : Forall (fun l => contains sep l = false) (Split s sep).
Proof.
  induction s as [|c r IH]; simpl.
  - repeat constructor.
  - destruct (Ascii.eqb c sep) eqn:E.
    + constructor; [reflexivity|exact IH].
    + destruct (Split r sep) as [|h t]; [repeat constructor|].
      * unfold contains. simpl. rewrite Ascii.eqb_sym, E. reflexivity.
      * inversion IH; subst. constructor; [|assumption].
        unfold contains in *. simpl. rewrite Ascii.eqb_sym, E. assumption.
Qed.

Lemma Split_whole s sep : contains sep s = false -> Split s sep = [s].
Proof.
  induction s as [|c r IH]; simpl; [reflexivity|].
  unfold contains. simpl. rewrite Ascii.eqb_sym.
  destruct (Ascii.eqb c sep); simpl; [discriminate|].
  intros H. rewrite (IH H). reflexivity.
Qed.

Lemma TrimSpace_noNewline s : noNewline s -> noNewline (TrimSpace s).
Proof.
  unfold noNewline. intros H.
  destruct (TrimSpace_infix s) as (pre & post & E).
  rewrite E in H. rewrite !contains_app in H.
  apply orb_false_elim in H as [_ H]. apply orb_false_elim in H as [H _]. exact H.
Qed.

Lemma trimmed_lines q :
  Forall trimmed (List.map TrimSpace (Split q newline)).
Proof.
  apply List.Forall_map. eapply List.Forall_impl; [|apply Split_no_sep].
  intros l Hl. split; [apply leadL_TrimSpace|].
  split; [apply leadR_TrimSpace|]. apply TrimSpace_noNewline. exact Hl.
Qed.

Lemma dropLeadingEmpty_Forall (P : string -> Prop) l :
  Forall P l -> Forall P (dropLeadingEmpty l).
Proof.
  induction 1 as [|x l Hx Hl IH]; simpl; [constructor|].
  destruct (isEmpty x); [exact IH|constructor; assumption].
Qed.

Lemma dropTrailingEmpty_Forall (P : string -> Prop) l :
  Forall P l -> Forall P (dropTrailingEmpty l).
Proof.
  induction 1 as [|x l Hx Hl IH]; simpl; [constructor|].
  destruct (dropTrailingEmpty l).
  - destruct (isEmpty x); repeat constructor; assumption.
  - constructor; assumption.
Qed.

Lemma dropLeadingEmpty_head l :
  match dropLeadingEmpty l with
  | [] => True
  | h :: _ => isEmpty h = false
  end.
Proof.
  induction l as [|x l IH]; simpl; [exact I|].
  destruct (isEmpty x) eqn:E; [exact IH|exact E].
Qed.

Lemma dropTrailingEmpty_head h t :
  isEmpty h = false -> exists t', dropTrailingEmpty (h :: t) = h :: t'.
Proof.
  intros E. simpl. destruct (dropTrailingEmpty t); [|eauto].
  rewrite E. eauto.
Qed.

Lemma dropTrailingEmpty_last l :
  match List.rev (dropTrailingEmpty l) with
  | [] => True
  | z :: _ => isEmpty z = false
  end.
Proof.
  induction l as [|x l IH]; simpl; [exact I|].
  destruct (dropTrailingEmpty l) as [|y l'] eqn:E.
  - destruct (isEmpty x) eqn:Ex; simpl; [exact I|exact Ex].
  - change (List.rev (x :: y :: l')) with (List.rev (y :: l') ++ [x])%list.
    destruct (List.rev (y :: l')) as [|z r] eqn:Er; [|exact IH].
    apply (f_equal (@List.length string)) in Er.
    rewrite List.length_rev in Er. simpl in Er. discriminate Er.
Qed.

Lemma Join_cons e rest sep :
  rest <> [] -> Join (e :: rest) sep = e ++ sep ++ Join rest sep.
Proof. destruct rest; [congruence|reflexivity]. Qed.

Lemma Join_snoc init z sep :
  init <> [] -> Join (init ++ [z]) sep = Join init sep ++ sep ++ z.
Proof.
  induction init as [|e init IH]; [congruence|]. intros _.
  destruct init as [|e' init'].
  - reflexivity.
  - change ((e :: e' :: init') ++ [z])%list with (e :: ((e' :: init') ++ [z]))%list.
    rewrite Join_cons by (destruct init'; discriminate).
    rewrite IH by discriminate.
    rewrite (Join_cons e (e' :: init')) by discriminate.
    rewrite !append_assoc. reflexivity.
Qed.

Lemma Join_noNewline lines :
  Forall noNewline lines -> noNewline (Join lines " ").
Proof.
  induction 1 as [|x l Hx Hl IH]; [reflexivity|].
  destruct l as [|y l']; [exact Hx|].
  rewrite Join_cons by discriminate.
  unfold noNewline in *. rewrite !contains_app, Hx, IH. reflexivity.
Qed.

Lemma isEmpty_false s : isEmpty s = false -> s <> "".
Proof. destruct s; [discriminate|congruence]. Qed.

(** The joined lines neither start nor end with white space. *)
Lemma Join_trimmed lines :
  Forall trimmed lines ->
  match lines with [] => True | h :: _ => isEmpty h = false end ->
  match List.rev lines with [] => True | z :: _ => isEmpty z = false end ->
  trimmed (Join lines " ").
Proof.
  intros Hall Hhead Hlast. split; [|split].
  - destruct lines as [|h t]; [reflexivity|].
    inversion Hall as [|? ? [Hh _] _]; subst.
    destruct t as [|h' t']; [exact Hh|].
    rewrite Join_cons by discriminate.
    apply leadL_app_space; [apply isEmpty_false; exact Hhead|exact Hh].
  - destruct (List.rev lines) as [|z r] eqn:Er.
    { apply (f_equal (@List.rev string)) in Er. rewrite List.rev_involutive in Er.
      subst. reflexivity. }
    apply (f_equal (@List.rev string)) in Er. rewrite List.rev_involutive in Er.
    simpl in Er. subst lines.
    apply List.Forall_app in Hall as [_ Hz]. inversion Hz as [|? ? (_ & Hz' & _) _]; subst.
    destruct (List.rev r) as [|i0 init] eqn:Ei; [exact Hz'|].
    rewrite Join_snoc by discriminate.
    rewrite !rev_app. rewrite append_assoc.
    apply leadR_app_space; [|exact Hz'].
    intros E. apply rev_empty in E. apply isEmpty_false in Hlast. contradiction.
  - apply Join_noNewline. eapply List.Forall_impl; [|exact Hall]. intros l (_ & _ & H). exact H.
Qed.

Lemma normalize_trimmed q : trimmed (normalize q).
Proof.
  unfold normalize. apply Join_trimmed.
  - apply dropTrailingEmpty_Forall, dropLeadingEmpty_Forall, trimmed_lines.
  - pose proof (dropLeadingEmpty_head (List.map TrimSpace (Split q newline))) as H.
    destruct (dropLeadingEmpty (List.map TrimSpace (Split q newline))) as [|h t]; [exact I|].
    destruct (dropTrailingEmpty_head h t H) as [t' ->]. exact H.
  - apply dropTrailingEmpty_last.
Qed.

Lemma normalize_of_trimmed s : trimmed s -> normalize s = s.
Proof.
  intros (HL & HR & Hn). unfold normalize.
  rewrite (Split_whole _ _ Hn). simpl.
  rewrite (TrimSpace_fixed _ HL HR).
  destruct s; reflexivity.
Qed.

(** C9: normalization is idempotent. *)
Theorem normalize_idempotent q : normalize (normalize q) = normalize q.
Proof. apply normalize_of_trimmed, normalize_trimmed. Qed.

(** *** What the cut and the join keep *)

Section Barrier.
Variable p1 : ascii -> bool.
Variable p2 : ascii -> ascii -> bool.
Variable p3 : ascii -> ascii -> ascii -> bool.
(** [q] is a byte of no white-space rune. *)
Variable q : ascii.
Hypothesis q1 : p1 q = false.
Hypothesis q2l : forall c, p2 q c = false.
Hypothesis q2r : forall c, p2 c q = false.
Hypothesis q3a : forall c d, p3 q c d = false.
Hypothesis q3b : forall c d, p3 c q d = false.
Hypothesis q3c : forall c d, p3 c d q = false.

Lemma strip_barrier_len n : forall a r, (String.length a <= n)%nat ->
  exists a', strip p1 p2 p3 (a ++ String q r) = a' ++ String q r.
Proof.
  induction n as [|n IH]; intros a r Hn.
  - destruct a; simpl in Hn; [|lia]. exists "".
    apply strip_fixed. simpl. rewrite q1.
    destruct r as [|c1 r1]; [reflexivity|]. rewrite q2l.
    destruct r1; [reflexivity|]. apply q3a.
  - destruct a as [|c0 a0]; [apply (IH "" r); simpl; lia|].
    simpl in Hn. simpl.
    destruct (p1 c0); [apply IH; lia|].
    destruct a0 as [|c1 a1]; simpl.
    { rewrite q2r. destruct r as [|c2 r2]; [exists (String c0 ""); reflexivity|].
      rewrite q3b. exists (String c0 ""). reflexivity. }
    simpl in Hn. destruct (p2 c0 c1); [apply IH; lia|].
    destruct a1 as [|c2 a2]; simpl.
    { rewrite q3c. exists (String c0 (String c1 "")). reflexivity. }
    simpl in Hn. destruct (p3 c0 c1 c2); [apply IH; lia|].
    exists (String c0 (String c1 (String c2 a2))). reflexivity.
Qed.

Lemma strip_barrier a r :
  exists a', strip p1 p2 p3 (a ++ String q r) = a' ++ String q r.
Proof. apply (strip_barrier_len (String.length a)). lia. Qed.
End Barrier.

Lemma squote_not_space2 c : isSpace2 squote c = false /\ isSpace2 c squote = false.
Proof. split; [reflexivity|]. unfold isSpace2. simpl. apply andb_false_r. Qed.

Lemma squote_not_space3 c d :
  isSpace3 squote c d = false /\ isSpace3 c squote d = false /\ isSpace3 c d squote = false.
Proof.
  split; [reflexivity|]. unfold isSpace3. cbn -[N.eqb N.leb byte].
  change (byte squote) with 39%N.
  change (39 =? 154)%N with false. change (39 =? 128)%N with false.
  change (39 =? 129)%N with false. change (128 <=? 39)%N with false.
  change (39 =? 168)%N with false. change (39 =? 169)%N with false.
  change (39 =? 175)%N with false. change (39 =? 159)%N with false.
  rewrite !andb_false_r. split; reflexivity.
Qed.

Lemma TrimLeft_quote a r : exists a', TrimLeft (a ++ String squote r) = a' ++ String squote r.
Proof.
  apply strip_barrier; intros; try reflexivity;
    first [apply squote_not_space2 | apply squote_not_space3].
Qed.

Lemma TrimRight_quote r b : exists b', TrimRight (r ++ String squote b) = r ++ String squote b'.
Proof.
  unfold TrimRight. rewrite rev_app. simpl. rewrite append_assoc. simpl.
  destruct (strip_barrier isSpace1 (fun c1 c0 => isSpace2 c0 c1)
              (fun c2 c1 c0 => isSpace3 c0 c1 c2) squote) with (a := rev b) (r := rev r)
    as [b' Hb']; intros; try reflexivity;
    try first [apply squote_not_space2 | apply squote_not_space3].
  rewrite Hb'. exists (rev b'). rewrite rev_app. simpl. rewrite rev_involutive.
  rewrite append_assoc. reflexivity.
Qed.

(** A literal within a line survives the trimming of the line. *)
Lemma TrimSpace_literal a lit b :
  exists a' b',
    TrimSpace (a ++ String squote (lit ++ String squote b))
    = a' ++ String squote (lit ++ String squote b').
Proof.
  unfold TrimSpace.
  destruct (TrimLeft_quote a (lit ++ String squote b)) as [a' ->].
  change (a' ++ String squote (lit ++ String squote b))
    with (a' ++ (String squote lit) ++ String squote b).
  rewrite <- append_assoc.
  destruct (TrimRight_quote (a' ++ String squote lit) b) as [b' ->].
  exists a', b'. rewrite append_assoc. reflexivity.
Qed.

Lemma Split_app a b sep :
  Split (a ++ b) sep
  = (removelast (Split a sep)
     ++ String.append (List.last (Split a sep) "") (List.hd "" (Split b sep))
        :: List.tl (Split b sep))%list.
Proof.
  induction a as [|c a IH]; simpl.
  - pose proof (Split_nonempty b sep). destruct (Split b sep); [congruence|reflexivity].
  - pose proof (Split_nonempty a sep) as Hne.
    destruct (Ascii.eqb c sep).
    + rewrite IH. destruct (Split a sep) as [|h t]; [congruence|]. reflexivity.
    + rewrite IH. destruct (Split a sep) as [|h t]; [congruence|].
      destruct t as [|h' t']; reflexivity.
Qed.

Lemma dropLeadingEmpty_keeps l1 m l2 :
  isEmpty m = false ->
  exists l1', dropLeadingEmpty (l1 ++ m :: l2) = (l1' ++ m :: l2)%list.
Proof.
  intros Hm. induction l1 as [|x l1 IH]; simpl.
  - rewrite Hm. exists []. reflexivity.
  - destruct (isEmpty x); [exact IH|]. exists (x :: l1). reflexivity.
Qed.

Lemma dropTrailingEmpty_keeps l1 m l2 :
  isEmpty m = false ->
  exists l2', dropTrailingEmpty (l1 ++ m :: l2) = (l1 ++ m :: l2')%list.
Proof.
  intros Hm. induction l1 as [|x l1 IH].
  - simpl. destruct (dropTrailingEmpty l2) as [|y l2'].
    + rewrite Hm. exists []. reflexivity.
    + exists (y :: l2'). reflexivity.
  - destruct IH as [l2' IH]. simpl. rewrite IH.
    destruct (l1 ++ m :: l2')%list eqn:E; [destruct l1; discriminate|].
    exists l2'. rewrite <- E. reflexivity.
Qed.

Lemma Join_keeps l1 m l2 sep :
  exists before after, Join (l1 ++ m :: l2) sep = before ++ m ++ after.
Proof.
  induction l1 as [|x l1 (before & after & IH)].
  - exists "". destruct l2 as [|y l2']; simpl.
    + exists "". symmetry. apply append_nil_r.
    + exists (sep ++ Join (y :: l2') sep). reflexivity.
  - exists (x ++ sep ++ before), after.
    change ((x :: l1) ++ m :: l2)%list with (x :: (l1 ++ m :: l2))%list.
    rewrite Join_cons by (destruct l1; discriminate).
    rewrite IH, !append_assoc. reflexivity.
Qed.

(** C8, as the code has it: [normalize] trims the lines of the query and
    joins them with single spaces, so a string literal that holds no line
    feed is in the normalized query byte for byte. *)
Theorem normalize_keeps_literal pre lit post :
  noNewline lit ->
  exists pre' post',
    normalize (pre ++ String squote (lit ++ String squote post))
    = pre' ++ String squote (lit ++ String squote post').
Proof.
  intros Hlit. unfold normalize.
  replace (String squote (lit ++ String squote post))
    with (String squote (lit ++ String squote "") ++ post)
    by (simpl; rewrite append_assoc; reflexivity).
  rewrite Split_app.
  rewrite (Split_app (String squote (lit ++ String squote "")) post).
  rewrite (Split_whole (String squote (lit ++ String squote ""))).
  2:{ change (String squote (lit ++ String squote ""))
        with (String squote "" ++ (lit ++ String squote "")).
      rewrite !contains_app. rewrite Hlit. reflexivity. }
  simpl removelast. simpl List.last. simpl app.
  set (a := List.last (Split pre newline) "").
  set (b := List.hd "" (Split post newline)).
  rewrite List.map_app. simpl List.map.
  replace ((lit ++ String squote "") ++ b) with (lit ++ String squote b)
    by (rewrite append_assoc; reflexivity).
  destruct (TrimSpace_literal a lit b) as (a' & b' & ->).
  set (m := a' ++ String squote (lit ++ String squote b')).
  assert (Hm : isEmpty m = false) by (unfold m; destruct a'; reflexivity).
  destruct (dropLeadingEmpty_keeps
              (List.map TrimSpace (removelast (Split pre newline))) m
              (List.map TrimSpace (List.tl (Split post newline))) Hm) as [l1' ->].
  destruct (dropTrailingEmpty_keeps l1' m
              (List.map TrimSpace (List.tl (Split post newline))) Hm) as [l2' ->].
  destruct (Join_keeps l1' m l2' " ") as (before & after & ->).
  exists (before ++ a'), (b' ++ after). unfold m.
  rewrite !append_assoc. simpl. rewrite !append_assoc. reflexivity.
Qed.

Lemma normalize_keeps_literal_witness :
  noNewline "a  b"
  /\ normalize ("  SELECT " ++ String squote ("a  b" ++ String squote (String newline "  FROM t ")))
     = "SELECT 'a  b' FROM t"
  /\ exists pre' post',
       normalize ("  SELECT "
                  ++ String squote ("a  b" ++ String squote (String newline "  FROM t ")))
       = pre' ++ String squote ("a  b" ++ String squote post').
Proof.
  split; [reflexivity|]. split; [reflexivity|].
  apply (normalize_keeps_literal "  SELECT " "a  b" (String newline "  FROM t ")).
  reflexivity.
Defined.

(** C8, as it is stated, fails: the white space of a string literal that
    spans a line break is changed. *)
Lemma normalize_breaks_literal :
  normalize brokenLiteral = "SELECT 'a b'"
  /\ ~ (exists pre' post',
          normalize ("SELECT " ++ String squote (("a" ++ String newline "  b") ++ String squote ""))
          = pre' ++ String squote (("a" ++ String newline "  b") ++ String squote post')).
Proof.
  split; [reflexivity|]. intros (pre' & post' & E).
  apply (f_equal (contains newline)) in E.
  change (String squote (("a" ++ String newline "  b") ++ String squote post'))
    with (String squote ("a" ++ String newline "") ++ ("  b" ++ String squote post')) in E.
  rewrite !contains_app in E.
  change (contains newline (String squote ("a" ++ String newline ""))) with true in E.
  rewrite orb_true_l, orb_true_r in E. discriminate E.
Qed.

End NormalizerFacts.

(** ** The WHERE clause *)

(** *** The WHERE clause *)

Lemma Join_predicates p rest :
  GoStrings.Join (p :: rest) " AND " = p ++ predicates false rest.
Proof.
  revert p. induction rest as [|p' rest IH]; intros p.
  - simpl. symmetry. apply append_nil_r.
  - change (GoStrings.Join (p :: p' :: rest) " AND ")
      with (p ++ " AND " ++ GoStrings.Join (p' :: rest) " AND ").
    rewrite IH. reflexivity.
Qed.

Lemma predicates_Join preds : predicates true preds = GoStrings.Join preds " AND ".
Proof.
  destruct preds as [|p preds]; [reflexivity|].
  rewrite Join_predicates. reflexivity.
Qed.

Section WhereLoop.
Variable n_tables : nat.
Variable onConflict : bool.

Lemma wherePredicate_skip first table s :
  envGet (env s) table <> needsTenantID -> wherePredicate n_tables onConflict first table s = (Ok first, s).
Proof.
  intros Hne. unfold wherePredicate, envLookup, getEnv, bind, ret. simpl.
  rewrite (bool_decide_eq_true_2 _ Hne). reflexivity.
Qed.

Lemma wherePredicate_emit first table s :
  envGet (env s) table = needsTenantID ->
  wherePredicate n_tables onConflict first table s
  = (Ok false,
     {| xf := injected (xf s) 1;
        buf := buf s ++ (if first then "" else " AND ")
               ++ tenantPredicate (tenantIDCol (xf s)) (tenantIDNum (xf s))
                    ((1 <? n_tables)%nat || onConflict)%bool table;
        env := <[table := hasTenantID]> (env s);
        sites := (sites s ++ [tenantIDNum (xf s)])%list |}).
Proof.
  intros Heq. unfold wherePredicate, envLookup, getEnv, bind, ret. simpl.
  rewrite bool_decide_eq_false_2 by (intros Hc; apply Hc; exact Heq).
  unfold Fprint, getTransformer, addTenantID, envStore, getEnv, setEnv, bind, ret.
  unfold tenantPredicate.
  destruct first, ((1 <? n_tables)%nat || onConflict)%bool; simpl;
    rewrite ?append_assoc, ?append_nil_r; simpl; rewrite ?append_assoc; reflexivity.
Qed.

Lemma wherePredicates_run tables : NoDup tables -> forall first s,
  let needy := List.filter (needs (env s)) tables in
  let qualified := ((1 <? n_tables)%nat || onConflict)%bool in
  let preds :=
    List.map (tenantPredicate (tenantIDCol (xf s)) (tenantIDNum (xf s)) qualified) needy in
  forRange tables first (wherePredicate n_tables onConflict) s
  = (Ok (first && (length needy =? 0)%nat)%bool,
     {| xf := injected (xf s) (length needy);
        buf := buf s ++ predicates first preds;
        env := markAll needy (env s);
        sites := (sites s ++ List.repeat (tenantIDNum (xf s)) (length needy))%list |}).
Proof.
  induction 1 as [|table rest Hnotin Hnodup IH]; intros first s.
  - simpl. unfold ret. destruct s as [t b e si]; simpl.
    rewrite append_nil_r, List.app_nil_r, andb_true_r. reflexivity.
  - cbn zeta. simpl forRange. unfold bind. simpl List.filter.
    destruct (needs (env s) table) eqn:E.
    + assert (Heq : envGet (env s) table = needsTenantID)
        by (apply bool_decide_eq_true in E; exact E).
      rewrite (wherePredicate_emit _ _ _ Heq).
      rewrite IH. cbn [xf buf env sites].
      replace (List.filter (needs (<[table:=hasTenantID]> (env s))) rest)
        with (List.filter (needs (env s)) rest).
      2:{ apply List.filter_ext_in. intros t' Hin. unfold needs, envGet.
          rewrite lookup_insert_ne; [reflexivity|].
          intros ->. apply Hnotin, list_elem_of_In, Hin. }
      simpl. rewrite andb_false_r, !append_assoc, <- List.app_assoc. simpl.
      destruct (List.filter (needs (env s)) rest); reflexivity.
    + assert (Hne : envGet (env s) table <> needsTenantID)
        by (apply bool_decide_eq_false in E; exact E).
      rewrite (wherePredicate_skip _ _ _ Hne). rewrite IH. reflexivity.
Qed.
End WhereLoop.

Lemma bind_ok {A B} (m : M A) (k : A -> M B) s a s' :
  m s = (Ok a, s') -> bind m k s = k a s'.
Proof. intros H. unfold bind. rewrite H. reflexivity. Qed.

Lemma bind_inv {A B} (m : M A) (k : A -> M B) s b s2 :
  bind m k s = (Ok b, s2) -> exists a s', m s = (Ok a, s') /\ k a s' = (Ok b, s2).
Proof.
  unfold bind. destruct (m s) as [[a|e|x] s']; try discriminate. eauto.
Qed.

Lemma transformWhereHelper_run self where_ onConflict tables s s1 :
  NoDup tables ->
  existsb (needs (env s)) tables = true ->
  whereCondition self where_ s = (Ok tt, s1) ->
  transformWhereHelper self where_ onConflict tables s
  = (Ok tt,
     afterPredicates where_ ((1 <? length tables)%nat || onConflict)%bool
       (List.filter (needs (env s1)) tables) s1).
Proof.
  intros Hnodup Hex Hcond.
  unfold transformWhereHelper. unfold bind at 1. unfold getEnv at 1.
  change (existsb (fun table => bool_decide (envGet (env s) table = needsTenantID)) tables)
    with (existsb (needs (env s)) tables).
  rewrite Hex. cbn [negb].
  set (loop := forRange tables true _).
  assert (Hloop : forall s', (_ <- loop ;; ret tt) s'
            = (Ok tt,
               {| xf := injected (xf s') (length (List.filter (needs (env s')) tables));
                  buf := buf s' ++ GoStrings.Join
                           (List.map (tenantPredicate (tenantIDCol (xf s'))
                                        (tenantIDNum (xf s'))
                                        ((1 <? length tables)%nat || onConflict)%bool)
                                     (List.filter (needs (env s')) tables)) " AND ";
                  env := markAll (List.filter (needs (env s')) tables) (env s');
                  sites := (sites s' ++ List.repeat (tenantIDNum (xf s'))
                              (length (List.filter (needs (env s')) tables)))%list |})).
  { intros s'. unfold bind, loop.
    pose proof (wherePredicates_run (length tables) onConflict tables Hnodup true s') as H.
    cbn zeta in H. unfold wherePredicate in H. rewrite H.
    rewrite predicates_Join. reflexivity. }
  clearbody loop.
  assert (Hsep : forall s', Fprint " AND " s'
            = (Ok tt, {| xf := xf s'; buf := buf s' ++ " AND "; env := env s';
                         sites := sites s' |})) by reflexivity.
  unfold afterPredicates.
  destruct where_; simpl in Hcond;
    try (erewrite bind_ok by (erewrite bind_ok by exact Hcond; apply Hsep);
         rewrite Hloop; cbn [xf buf env sites whereSeparator];
         rewrite append_assoc; reflexivity).
  - (* no condition *)
    unfold ret in Hcond. injection Hcond as <-.
    erewrite bind_ok by reflexivity. rewrite Hloop. reflexivity.
  - (* a boolean expression *)
    match goal with b : BoolExprType |- _ => destruct b end; simpl in Hcond |- *.
    + erewrite bind_ok by (erewrite bind_ok by exact Hcond; apply Hsep).
      rewrite Hloop. cbn [xf buf env sites whereSeparator].
      rewrite append_assoc. reflexivity.
    + apply bind_inv in Hcond as ([] & sa & Ha & Hcond).
      apply bind_inv in Hcond as ([] & sb & Hb & Hcond).
      erewrite bind_ok
        by (erewrite bind_ok by exact Ha; erewrite bind_ok by exact Hb;
            erewrite bind_ok by exact Hcond; apply Hsep).
      rewrite Hloop. cbn [xf buf env sites whereSeparator].
      rewrite append_assoc. reflexivity.
    + apply bind_inv in Hcond as ([] & sa & Ha & Hcond).
      apply bind_inv in Hcond as ([] & sb & Hb & Hcond).
      erewrite bind_ok
        by (erewrite bind_ok by exact Ha; erewrite bind_ok by exact Hb;
            erewrite bind_ok by exact Hcond; apply Hsep).
      rewrite Hloop. cbn [xf buf env sites whereSeparator].
      rewrite append_assoc. reflexivity.
Qed.

Lemma sortedKeys_Permutation (e : environ) :
  Permutation (sortedKeys e) (List.map fst (envRange e)).
Proof. unfold sortedKeys, sortStrings. apply merge_sort_Permutation. Qed.

Lemma keys_NoDup (e : environ) : NoDup (List.map fst (envRange e)).
Proof. apply (NoDup_fst_map_to_list e). Qed.

Lemma sortedKeys_NoDup (e : environ) : NoDup (sortedKeys e).
Proof.
  rewrite (sortedKeys_Permutation e). apply keys_NoDup.
Qed.

Lemma sortedKeys_sorted (e : environ) : StronglySorted String.le (sortedKeys e).
Proof. unfold sortedKeys, sortStrings. apply StronglySorted_merge_sort; apply _. Qed.

Lemma sortedKeys_In (e : environ) table :
  In table (sortedKeys e) <-> is_Some (e !! table).
Proof.
  rewrite <- list_elem_of_In, (sortedKeys_Permutation e), list_elem_of_In.
  rewrite List.in_map_iff. split.
  - intros ([k v] & <- & Hin). apply list_elem_of_In, elem_of_map_to_list in Hin.
    simpl. eauto.
  - intros [v Hv]. exists (table, v). split; [reflexivity|].
    apply list_elem_of_In, elem_of_map_to_list. exact Hv.
Qed.

Lemma envHas_needs (e : environ) :
  envHas needsTenantID e = true -> existsb (needs e) (sortedKeys e) = true.
Proof.
  unfold envHas. rewrite !List.existsb_exists.
  intros ([k v] & Hin & Hv). apply bool_decide_eq_true in Hv. simpl in Hv. subst v.
  apply list_elem_of_In, elem_of_map_to_list in Hin.
  exists k. split.
  - apply sortedKeys_In. eauto.
  - unfold needs, envGet. rewrite Hin. apply bool_decide_eq_true. reflexivity.
Qed.

Lemma markAll_has needy (e : environ) :
  Forall (fun t => envGet (markAll needy e) t = hasTenantID) needy.
Proof.
  assert (H : forall needy e t, envGet e t = hasTenantID ->
                envGet (markAll needy e) t = hasTenantID).
  { clear. induction needy as [|x needy IH]; intros e t Ht; [exact Ht|].
    simpl. apply IH. unfold envGet.
    destruct (decide (x = t)) as [->|Hne];
      [rewrite lookup_insert_eq|rewrite lookup_insert_ne by exact Hne]; auto. }
  revert e. induction needy as [|x needy IH]; intros e; constructor.
  - simpl. apply H. unfold envGet. rewrite lookup_insert_eq. reflexivity.
  - apply IH.
Qed.

(** C2: when a WHERE clause is written and a table of the scope needs the
    tenant predicate, the condition is followed by the predicates of the
    tables that still need it, in the lexicographic order of the names of
    the tables of the scope, joined with [ AND ]; a predicate is qualified
    with its table exactly when the scope has more than one table or the
    clause is written for ON CONFLICT; the tables are marked as having the
    predicate.  [DELETE FROM cotton USING lamp WHERE lamp.x = cotton.y] gets
    the predicates of [cotton] and [lamp], in this order, with the index 1. *)
Theorem where_tenant_predicates (self : recursion) (where_ : Node) (onConflict : bool)
    (s s1 : st) :
  let inScope := promoteLeftJoinTable (env s) in
  let tables := sortedKeys inScope in
  envHas needsTenantID inScope = true ->
  whereCondition self where_ (enterWhere s) = (Ok tt, s1) ->
  let needy := List.filter (needs (env s1)) tables in
  let qualified := ((1 <? length tables)%nat || onConflict)%bool in
  transformWhere self where_ onConflict s
  = (Ok tt, afterPredicates where_ qualified needy s1)
  /\ StronglySorted String.le tables
  /\ (forall table, In table tables <-> is_Some (inScope !! table))
  /\ Forall (fun table =>
               envGet (env (afterPredicates where_ qualified needy s1)) table = hasTenantID)
            needy
  /\ doTransform exampleConn deleteUsing
     = Returns ("DELETE FROM cotton USING lamp WHERE lamp.x = cotton.y AND cotton.tenant_id = $1 AND lamp.tenant_id = $1",
                1, None).
Proof.
  intros inScope tables Hhas Hcond needy qualified.
  split; [|split; [apply sortedKeys_sorted|split; [apply sortedKeys_In|split]]].
  - unfold transformWhere.
    erewrite bind_ok by reflexivity. erewrite bind_ok by reflexivity.
    erewrite bind_ok by reflexivity. cbn [env].
    fold inScope. 
    replace (match where_ with nodes.Nil => envHas needsTenantID inScope | _ => true end)
      with true by (destruct where_; auto).
    cbn [negb]. erewrite bind_ok by reflexivity.
    apply transformWhereHelper_run.
    + apply sortedKeys_NoDup.
    + apply envHas_needs. exact Hhas.
    + exact Hcond.
  - apply markAll_has.
  - vm_compute. reflexivity.
Qed.

Lemma where_tenant_predicates_witness :
  envHas needsTenantID
    (promoteLeftJoinTable
       (env (scopeOf "DELETE FROM cotton USING lamp"
               {[ "lamp" := needsTenantID; "cotton" := needsTenantID ]}))) = true
  /\ transformWhere (rewriter 4)
       (binop "=" (colRef2 "lamp" "x") (colRef2 "cotton" "y")) false
       (scopeOf "DELETE FROM cotton USING lamp"
          {[ "lamp" := needsTenantID; "cotton" := needsTenantID ]})
     = (Ok tt,
        {| xf := injected (newTransformer exampleConn deleteUsing) 2;
           buf := "DELETE FROM cotton USING lamp WHERE lamp.x = cotton.y AND cotton.tenant_id = $1 AND lamp.tenant_id = $1";
           env := {[ "lamp" := hasTenantID; "cotton" := hasTenantID ]};
           sites := [1; 1] |}).
Proof.
  split; [vm_compute; reflexivity|].
  pose proof (where_tenant_predicates (rewriter 4)
                (binop "=" (colRef2 "lamp" "x") (colRef2 "cotton" "y")) false
                (scopeOf "DELETE FROM cotton USING lamp"
                   {[ "lamp" := needsTenantID; "cotton" := needsTenantID ]})
                (whereCondition (rewriter 4)
                   (binop "=" (colRef2 "lamp" "x") (colRef2 "cotton" "y"))
                   (enterWhere
                      (scopeOf "DELETE FROM cotton USING lamp"
                         {[ "lamp" := needsTenantID; "cotton" := needsTenantID ]}))).2) as H.
  cbv zeta in H. destruct H as [H _]; [vm_compute; reflexivity|vm_compute; reflexivity|].
  rewrite H. vm_compute. reflexivity.
Defined.

(** ** What the rewriter does with statements it was not written for *)

(** [maybeSetIsLeftJoinTable] looks at the tags of the other tables only:
    whatever status [table] has, the table of a CTE included, is
    overwritten. *)
Lemma maybeSetIsLeftJoinTable_overwrites table s :
  envHas isLeftJoinTable (env s) = false ->
  maybeSetIsLeftJoinTable table s
  = (Ok tt, {| xf := xf s; buf := buf s;
               env := <[table := isLeftJoinTable]> (env s); sites := sites s |}).
Proof.
  intros H. unfold maybeSetIsLeftJoinTable, bind, getEnv. rewrite H. reflexivity.
Qed.

(** C3, on the code: the left operand [c] of the LEFT JOIN is a CTE, its
    tag [isCTE] is overwritten with [isLeftJoinTable], and the WHERE clause
    gets the tenant predicate of [c]; and in
    [emp LEFT JOIN emp e] both [emp] and [e] carry [isLeftJoinTable]. *)
Theorem cte_left_join_gets_predicate :
  doTransform exampleConn cteLeftJoin
  = Returns ("WITH c AS (SELECT k FROM t WHERE tenant_id = $1) SELECT k FROM c LEFT JOIN u ON c.k = u.k AND u.tenant_id = $1 WHERE c.tenant_id = $1",
             1, None)
  /\ envGet (env (maybeSetIsLeftJoinTable "c" (scopeOf "" {[ "c" := isCTE ]})).2) "c"
     = isLeftJoinTable
  /\ envGet (env (transformNode (rewriter 4) selfLeftJoin (scopeOf "" ∅)).2) "emp"
     = isLeftJoinTable
  /\ envGet (env (transformNode (rewriter 4) selfLeftJoin (scopeOf "" ∅)).2) "e"
     = isLeftJoinTable.
Proof. repeat split; vm_compute; reflexivity. Qed.

(** C4, on the code: an UPDATE without WHERE gets the fabricated WHERE, and
    [transformUpdate] returns there: its RETURNING list is not written.
    With a WHERE clause it is. *)
Theorem update_without_where_drops_returning :
  doTransform exampleConn (updateReturning nodes.Nil)
  = Returns ("UPDATE t SET a = $1 WHERE tenant_id = $2", 2, None)
  /\ doTransform exampleConn
       (updateReturning (binop "=" (colRef "b") (nodes.ParamRef 2)))
     = Returns ("UPDATE t SET a = $1 WHERE b = $2 AND tenant_id = $3 RETURNING a", 3, None).
Proof. split; vm_compute; reflexivity. Qed.

(** C7, on the code: [transformConst] has no default case, so a constant
    that is not an integer, a float, a string or NULL is dropped without an
    error: [SELECT B'101'] is rewritten to [SELECT ]. *)
Theorem constant_of_other_kind_dropped :
  (forall val s,
     match val with
     | nodes.Integer _ | nodes.Float _ | nodes.String _ | nodes.Null => False
     | _ => True
     end ->
     transformConst val s = (Ok tt, s))
  /\ doTransform exampleConn (selectConst (nodes.BitString "b101"))
     = Returns ("SELECT ", 0, None)
  /\ doTransform exampleConn (selectConst (nodes.String "abc"))
     = Returns ("SELECT 'abc'", 0, None).
Proof.
  split; [|split; vm_compute; reflexivity].
  intros val s H. destruct val; try contradiction; reflexivity.
Qed.

(** ** Statements without a tenant predicate *)

(** C10: the query that [doTransform] returns is what the rewriter has
    written, also when the index is 0; [SELECT CURRENT_TIMESTAMP] and
    [SELECT 1::bigint] come back from [transform] with the index 0 as
    [SELECT NOW()] and [SELECT 1::BIGINT], which are not the normalized
    inputs. *)
Theorem reemitted_not_verbatim (Parse : string -> parsed) :
  Parse "SELECT CURRENT_TIMESTAMP" = Parsed selectNow ->
  Parse "SELECT 1::bigint" = Parsed selectBigint ->
  (forall c tree q n,
     doTransform c tree = Returns (q, n, None) ->
     q = buf (transformTree (newTransformer c tree) tree).2)
  /\ (transform Parse exampleConn (WithQuery Background "SELECT CURRENT_TIMESTAMP")
        "SELECT CURRENT_TIMESTAMP").1
     = Returns ("SELECT NOW()", 0, None)
  /\ (transform Parse exampleConn (WithQuery Background "SELECT 1::bigint")
        "SELECT 1::bigint").1
     = Returns ("SELECT 1::BIGINT", 0, None)
  /\ normalize "SELECT CURRENT_TIMESTAMP" <> "SELECT NOW()"
  /\ normalize "SELECT 1::bigint" <> "SELECT 1::BIGINT".
Proof.
  intros Hnow Hbigint. split; [|split; [|split; [|split]]].
  - intros c tree q n H. unfold doTransform in H.
    destruct (transformTree (newTransformer c tree) tree) as [[[]|e|x] s];
      try discriminate. injection H as <- _. reflexivity.
  - rewrite transform_rewrites.
    + replace (normalize "SELECT CURRENT_TIMESTAMP") with "SELECT CURRENT_TIMESTAMP"
        by (vm_compute; reflexivity).
      rewrite Hnow. vm_compute. reflexivity.
    + vm_compute. reflexivity.
    + exists "SELECT CURRENT_TIMESTAMP". split; vm_compute; reflexivity.
    + vm_compute. reflexivity.
  - rewrite transform_rewrites.
    + replace (normalize "SELECT 1::bigint") with "SELECT 1::bigint"
        by (vm_compute; reflexivity).
      rewrite Hbigint. vm_compute. reflexivity.
    + vm_compute. reflexivity.
    + exists "SELECT 1::bigint". split; vm_compute; reflexivity.
    + vm_compute. reflexivity.
  - vm_compute. discriminate.
  - vm_compute. discriminate.
Qed.

Lemma reemitted_not_verbatim_witness :
  exampleParse "SELECT CURRENT_TIMESTAMP" = Parsed selectNow
  /\ exampleParse "SELECT 1::bigint" = Parsed selectBigint
  /\ (transform exampleParse exampleConn (WithQuery Background "SELECT CURRENT_TIMESTAMP")
        "SELECT CURRENT_TIMESTAMP").1
     = Returns ("SELECT NOW()", 0, None)
  /\ (transform exampleParse exampleConn (WithQuery Background "SELECT 1::bigint")
        "SELECT 1::bigint").1
     = Returns ("SELECT 1::BIGINT", 0, None).
Proof.
  split; [reflexivity|]. split; [reflexivity|].
  destruct (reemitted_not_verbatim exampleParse eq_refl eq_refl) as (_ & H1 & H2 & _).
  split; assumption.
Defined.

(** * Further properties of the code *)

(** ** Two runs of the rewriter *)

(** ** The rewriter reads the tenant column of its connection only *)

Create HintDb agr discriminated.

Lemma alike_refl s : alike s s.
Proof. repeat split. Qed.

Lemma agrees_ret {A} (a : A) : agrees (ret a) (ret a).
Proof. intros s1 s2 H. split; [reflexivity|exact H]. Qed.

Lemma agrees_fail {A} e : agrees (@fail A e) (fail e).
Proof. intros s1 s2 H. split; [reflexivity|exact H]. Qed.

Lemma agrees_panic {A} : agrees (@panic A) panic.
Proof. intros s1 s2 H. split; [reflexivity|exact H]. Qed.

Lemma agrees_outOfFuel {A} : agrees (@outOfFuel A) outOfFuel.
Proof. intros s1 s2 H. split; [reflexivity|exact H]. Qed.

Lemma agrees_bind {A B} (m1 m2 : M A) (k1 k2 : A -> M B) :
  agrees m1 m2 -> (forall a, agrees (k1 a) (k2 a)) -> agrees (bind m1 k1) (bind m2 k2).
Proof.
  intros Hm Hk s1 s2 H. unfold bind. destruct (Hm s1 s2 H) as [Hr Hs].
  destruct (m1 s1) as [[a|e|x] s1'], (m2 s2) as [[b|e'|x'] s2']; simpl in *;
    try discriminate; injection Hr as <-.
  - apply Hk, Hs.
  - split; [reflexivity|exact Hs].
  - split; [reflexivity|exact Hs].
Qed.

(** The transformer that a method reads is another one in the other run,
    with the same tenant column. *)
Lemma agrees_getTransformer {B} (k1 k2 : transformer -> M B) :
  (forall t1 t2, tenantIDCol t1 = tenantIDCol t2 -> agrees (k1 t1) (k2 t2)) ->
  agrees (bind getTransformer k1) (bind getTransformer k2).
Proof.
  intros Hk s1 s2 H. unfold bind, getTransformer. apply Hk; [apply H|exact H].
Qed.

Lemma agrees_wrap {A} msg (m1 m2 : M A) : agrees m1 m2 -> agrees (wrap msg m1) (wrap msg m2).
Proof.
  intros Hm s1 s2 H. unfold wrap. destruct (Hm s1 s2 H) as [Hr Hs].
  destruct (m1 s1) as [[a|e|x] s1'], (m2 s2) as [[b|e'|x'] s2']; simpl in *;
    try discriminate; injection Hr as <-; (split; [reflexivity|exact Hs]).
Qed.

Lemma agrees_Fprint str : agrees (Fprint str) (Fprint str).
Proof.
  intros s1 s2 (H1 & H2 & H3 & H4 & H5 & H6). split; [reflexivity|].
  repeat split; simpl; congruence.
Qed.

Lemma agrees_getEnv : agrees getEnv getEnv.
Proof.
  intros s1 s2 H. split; [|exact H]. simpl. f_equal. apply H.
Qed.

Lemma agrees_setEnv e : agrees (setEnv e) (setEnv e).
Proof.
  intros s1 s2 (H1 & H2 & H3 & H4 & H5 & H6). split; [reflexivity|].
  repeat split; simpl; congruence.
Qed.

Lemma agrees_envLookup k : agrees (envLookup k) (envLookup k).
Proof. apply agrees_bind; [apply agrees_getEnv|intros; apply agrees_ret]. Qed.

Lemma agrees_envStore k v : agrees (envStore k v) (envStore k v).
Proof. apply agrees_bind; [apply agrees_getEnv|intros; apply agrees_setEnv]. Qed.

Lemma agrees_addTenantID : agrees addTenantID addTenantID.
Proof.
  intros s1 s2 (H1 & H2 & H3 & H4 & H5 & H6). split; [reflexivity|].
  unfold alike, tenantIDCol in *. repeat split; simpl; congruence.
Qed.

Lemma agrees_withBuffer {A} (m1 m2 : M A) :
  agrees m1 m2 -> agrees (withBuffer m1) (withBuffer m2).
Proof.
  intros Hm s1 s2 H. unfold withBuffer.
  match goal with
  | |- context [m1 ?a] =>
      match goal with
      | |- context [m2 ?b] =>
          assert (H0 : alike a b)
            by (destruct H as (H1 & H2 & H3 & H4 & H5 & H6); repeat split; simpl; assumption);
          destruct (Hm a b H0) as [Hr Hs];
          destruct (m1 a) as [[x|e|y] s1'], (m2 b) as [[x'|e'|y'] s2']
      end
  end; simpl in *; try discriminate;
    destruct H as (H1 & H2 & H3 & H4 & H5 & H6);
    destruct Hs as (K1 & K2 & K3 & K4 & K5 & K6);
    (split; [congruence|repeat split; simpl; assumption]).
Qed.

Lemma agrees_withEnv {A} e (m1 m2 : M A) :
  agrees m1 m2 -> agrees (withEnv e m1) (withEnv e m2).
Proof.
  intros Hm s1 s2 H. unfold withEnv.
  match goal with
  | |- context [m1 ?a] =>
      match goal with
      | |- context [m2 ?b] =>
          assert (H0 : alike a b)
            by (destruct H as (H1 & H2 & H3 & H4 & H5 & H6); repeat split; simpl; auto);
          destruct (Hm a b H0) as [Hr Hs];
          destruct (m1 a) as [[x|err|y] s1'], (m2 b) as [[x'|err'|y'] s2']
      end
  end; simpl in *; try discriminate;
    destruct H as (H1 & H2 & H3 & H4 & H5 & H6);
    destruct Hs as (K1 & K2 & K3 & K4 & K5 & K6);
    (split; [congruence|repeat split; simpl; assumption]).
Qed.

Lemma agrees_forRange {X S} (l : list X) (body : S -> X -> M S) :
  (forall acc x, agrees (body acc x) (body acc x)) ->
  forall acc, agrees (forRange l acc body) (forRange l acc body).
Proof.
  intros Hb. induction l as [|x l IH]; intros acc; simpl.
  - apply agrees_ret.
  - apply agrees_bind; [apply Hb|intros; apply IH].
Qed.

#[local] Hint Resolve agrees_ret agrees_fail agrees_panic agrees_outOfFuel
  agrees_Fprint agrees_getEnv agrees_setEnv agrees_envLookup agrees_envStore
  agrees_addTenantID : agr.

Ltac agr :=
  repeat first
    [ progress auto with agr
    | lazymatch goal with
      | |- agrees (bind getTransformer _) (bind getTransformer _) =>
          let t1 := fresh "t1" in
          let t2 := fresh "t2" in
          let Ht := fresh "Ht" in
          apply agrees_getTransformer; intros t1 t2 Ht; cbv beta; rewrite Ht
      end
    | apply agrees_bind; [|intros]
    | apply agrees_wrap
    | apply agrees_withBuffer
    | apply agrees_withEnv
    | apply agrees_forRange; intros
    | match goal with
      | |- agrees (match ?x with _ => _ end) _ => destruct x
      | |- agrees (let '(_, _) := ?x in _) _ => destruct x
      end ].

Lemma agrees_maybeSetIsLeftJoinTable table :
  agrees (maybeSetIsLeftJoinTable table) (maybeSetIsLeftJoinTable table).
Proof. unfold maybeSetIsLeftJoinTable. agr. Qed.

Lemma agrees_transformIndexElem n : agrees (transformIndexElem n) (transformIndexElem n).
Proof. unfold transformIndexElem. agr. Qed.

Lemma agrees_transformIdent names : agrees (transformIdent names) (transformIdent names).
Proof. unfold transformIdent. agr. Qed.
#[local] Hint Resolve agrees_transformIdent : agr.

Lemma agrees_transformTypeName tn : agrees (transformTypeName tn) (transformTypeName tn).
Proof. unfold transformTypeName. agr. Qed.

Lemma agrees_transformConst v : agrees (transformConst v) (transformConst v).
Proof. unfold transformConst. agr. Qed.

Lemma agrees_copyCTEs e : agrees (copyCTEs e) (copyCTEs e).
Proof. unfold copyCTEs. agr. Qed.

#[local] Hint Resolve agrees_maybeSetIsLeftJoinTable agrees_transformIndexElem
  agrees_transformTypeName agrees_transformConst agrees_copyCTEs : agr.

Section AgreeBodies.
Variable self : recursion.
Hypothesis Hself : agreesAll self.

Lemma agrees_rec_node node :
  agrees (rec_transformNodeHelper self node) (rec_transformNodeHelper self node).
Proof. apply Hself. Qed.
Lemma agrees_rec_select stmt ins :
  agrees (rec_transformSelect self stmt ins) (rec_transformSelect self stmt ins).
Proof. apply Hself. Qed.
Lemma agrees_rec_insert stmt :
  agrees (rec_transformInsert self stmt) (rec_transformInsert self stmt).
Proof. apply Hself. Qed.
Lemma agrees_rec_bool op args :
  agrees (rec_transformBoolExpr self op args) (rec_transformBoolExpr self op args).
Proof. apply Hself. Qed.
Hint Resolve agrees_rec_node agrees_rec_select agrees_rec_insert agrees_rec_bool : agr.

Lemma agrees_transformNode node : agrees (transformNode self node) (transformNode self node).
Proof. unfold transformNode. agr. Qed.
Hint Resolve agrees_transformNode : agr.

Lemma agrees_transformAtom node : agrees (transformAtom self node) (transformAtom self node).
Proof. unfold transformAtom. agr. Qed.

Lemma agrees_transformNodeSafe node :
  agrees (transformNodeSafe self node) (transformNodeSafe self node).
Proof. unfold transformNodeSafe. agr. Qed.

Lemma agrees_commaSeparated l f :
  (forall n, agrees (f n) (f n)) -> agrees (commaSeparated l f) (commaSeparated l f).
Proof. intros Hf. unfold commaSeparated. agr. Qed.

Lemma agrees_transformBoolSubexpr e :
  agrees (transformBoolSubexpr self e) (transformBoolSubexpr self e).
Proof. unfold transformBoolSubexpr. agr. Qed.
Hint Resolve agrees_transformAtom agrees_transformNodeSafe
  agrees_transformBoolSubexpr : agr.

Lemma agrees_transformBoolExpr op args :
  agrees (transformBoolExpr self op args) (transformBoolExpr self op args).
Proof. unfold transformBoolExpr. agr. Qed.
Hint Resolve agrees_transformBoolExpr : agr.

Lemma agrees_transformWhereHelper w oc tables :
  agrees (transformWhereHelper self w oc tables) (transformWhereHelper self w oc tables).
Proof. unfold transformWhereHelper. agr. Qed.
Hint Resolve agrees_transformWhereHelper : agr.

Lemma agrees_transformWhere w oc :
  agrees (transformWhere self w oc) (transformWhere self w oc).
Proof. unfold transformWhere. agr. Qed.

Lemma agrees_transformSubLink k t s :
  agrees (transformSubLink self k t s) (transformSubLink self k t s).
Proof. unfold transformSubLink. agr. Qed.
Hint Resolve agrees_transformWhere agrees_transformSubLink : agr.

Lemma agrees_handleCTE w : agrees (handleCTE self w) (handleCTE self w).
Proof. unfold handleCTE. agr. Qed.

Lemma agrees_transformSelectCol n :
  agrees (transformSelectCol self n) (transformSelectCol self n).
Proof. unfold transformSelectCol. agr. Qed.
Hint Resolve agrees_handleCTE agrees_transformSelectCol : agr.

Lemma agrees_transformSelect stmt ins :
  agrees (transformSelect self stmt ins) (transformSelect self stmt ins).
Proof.
  unfold transformSelect. agr; try (apply agrees_commaSeparated; intros; agr).
Qed.

Lemma agrees_transformInsert stmt :
  agrees (transformInsert self stmt) (transformInsert self stmt).
Proof.
  unfold transformInsert. agr; try (apply agrees_commaSeparated; intros; agr).
Qed.

Lemma agrees_transformUpdate stmt :
  agrees (transformUpdate self stmt) (transformUpdate self stmt).
Proof.
  unfold transformUpdate. agr; try (apply agrees_commaSeparated; intros; agr).
Qed.

Lemma agrees_transformDelete stmt :
  agrees (transformDelete self stmt) (transformDelete self stmt).
Proof.
  unfold transformDelete. agr; try (apply agrees_commaSeparated; intros; agr).
Qed.

Lemma agrees_transformNodeHelper node :
  agrees (transformNodeHelper self node) (transformNodeHelper self node).
Proof.
  unfold transformNodeHelper. agr; try (apply agrees_commaSeparated; intros; agr).
Qed.
End AgreeBodies.

Lemma agrees_rewriter fuel : agreesAll (rewriter fuel).
Proof.
  induction fuel as [|fuel IH].
  - split; [|split; [|split]]; intros; apply agrees_outOfFuel.
  - split; [|split; [|split]]; intros; simpl.
    + apply agrees_transformNodeHelper, IH.
    + apply agrees_transformSelect, IH.
    + apply agrees_transformInsert, IH.
    + apply agrees_transformBoolExpr, IH.
Qed.

Lemma agrees_runStmt fuel t1 t2 stmt :
  alike (start t1) (start t2) ->
  (runStmt fuel t1 stmt).1 = (runStmt fuel t2 stmt).1
  /\ alike (runStmt fuel t1 stmt).2 (runStmt fuel t2 stmt).2.
Proof.
  intros H. induction stmt; simpl; try (split; [reflexivity|exact H]).
  - exact IHstmt.
  - apply agrees_transformInsert; [apply agrees_rewriter|exact H].
  - apply agrees_transformSelect; [apply agrees_rewriter|exact H].
  - apply agrees_transformUpdate; [apply agrees_rewriter|exact H].
  - apply agrees_transformDelete; [apply agrees_rewriter|exact H].
Qed.

(** The rewrite of a statement is the same on two connections with the same
    tenant column. *)
Lemma doTransform_column c1 c2 tree :
  TenantIDCol (driver c1) = TenantIDCol (driver c2) ->
  doTransform c1 tree = doTransform c2 tree.
Proof.
  intros Hcol. unfold doTransform, transformTree, transformStmt.
  destruct (nodes.Statements tree) as [|stmt [|? ?]]; try reflexivity.
  assert (H : alike (start (newTransformer c1 tree)) (start (newTransformer c2 tree)))
    by (repeat split; exact Hcol).
  destruct (agrees_runStmt (height stmt) _ _ stmt H) as [Hr (H1 & H2 & H3 & H4 & H5 & H6)].
  destruct (runStmt (height stmt) (newTransformer c1 tree) stmt) as [[[]|e|x] s1],
           (runStmt (height stmt) (newTransformer c2 tree) stmt) as [[[]|e'|x'] s2];
    simpl in *; try discriminate; [rewrite H3, H4; reflexivity|congruence|congruence].
Qed.

(** X3: the rewrite of a statement does not depend on the whitelist or on
    the dynamic cache of the driver of the connection. *)
Theorem rewrite_ignores_whitelist_and_cache (c : Conn) (whitelist : gmap string Transformed)
    (qc : queryCache) (tree : nodes.ParsetreeList) :
  doTransform {| driver := {| TenantIDCol := TenantIDCol (driver c);
                              Whitelist := whitelist;
                              dynamicCache := qc |} |} tree
  = doTransform c tree.
Proof. apply doTransform_column. reflexivity. Qed.

Lemma findMaxParam_single tree stmt :
  nodes.Statements tree = [stmt] -> findMaxParam tree = findMaxParamNode stmt.
Proof.
  intros H. unfold findMaxParam, findMaxParamNode, walkTree. rewrite H. reflexivity.
Qed.

(** X4: a subtest of [TransformTester] runs the rewriter as a connection
    with the same tenant column does; it passes when the query that the
    connection would get is the expected one up to case, it is an error when
    it is another one, and fatal when the rewrite fails.  The index of the
    expected result is not looked at. *)
Theorem tester_runs_the_rewriter (Parse : string -> parsed)
    (EqualFold : string -> string -> bool) (c : Conn) (pre : string) (post : Transformed)
    (tree : nodes.ParsetreeList) (stmt : Node) :
  Parse pre = Parsed tree ->
  nodes.Statements tree = [stmt] ->
  testQuery Parse EqualFold (TenantIDCol (driver c)) pre post
  = match doTransform c tree with
    | Panics x => Panics x
    | Returns (_, _, Some err) => Returns (Fatal err)
    | Returns (got, _, None) =>
        if EqualFold got (Query post) then Returns Passed
        else Returns (Errored got (Query post))
    end.
Proof.
  intros Hparse Hstmts. unfold testQuery. rewrite Hparse, Hstmts.
  rewrite (doTransform_column c
             {| driver := {| TenantIDCol := TenantIDCol (driver c); Whitelist := ∅;
                             dynamicCache := {| cache := None |} |} |} tree eq_refl).
  unfold doTransform, transformTree. rewrite Hstmts.
  unfold newTransformer. rewrite (findMaxParam_single tree stmt Hstmts).
  fold (testTransformer (TenantIDCol (driver c)) stmt).
  destruct (transformStmt (testTransformer (TenantIDCol (driver c)) stmt) stmt)
    as [[[]|e|x] s]; try reflexivity.
  destruct (EqualFold (buf s) (Query post)); reflexivity.
Qed.

Lemma tester_runs_the_rewriter_witness :
  exampleParse "SELECT CURRENT_TIMESTAMP" = Parsed selectNow
  /\ testQuery exampleParse String.eqb "tenant_id" "SELECT CURRENT_TIMESTAMP"
       {| Query := "SELECT NOW()"; Num := 42 |}
     = Returns Passed
  /\ testQuery exampleParse String.eqb "tenant_id" "SELECT CURRENT_TIMESTAMP"
       {| Query := "SELECT CURRENT_TIMESTAMP"; Num := 0 |}
     = Returns (Errored "SELECT NOW()" "SELECT CURRENT_TIMESTAMP").
Proof.
  split; [reflexivity|].
  split.
  - rewrite (tester_runs_the_rewriter exampleParse String.eqb exampleConn
               "SELECT CURRENT_TIMESTAMP" _ selectNow _ eq_refl eq_refl).
    vm_compute. reflexivity.
  - vm_compute. reflexivity.
Defined.

(** A tenant ID that is attached to a context is the one [ID] returns,
    whatever was attached before; a nil tenant ID hides one that was attached
    before; attaching a query does not change the tenant ID, attaching a
    tenant ID does not change the query, and the last query attached is the
    one that counts. *)
Lemma context_values (ctx : Ctx.t) (id : driver.Value) (tenantID : option driver.Value)
    (query : string) :
  Ctx.ID (Ctx.WithTenantID ctx (Some id)) = inr id
  /\ Ctx.ID (Ctx.WithTenantID ctx None) = inl ErrNoID
  /\ Ctx.ID Ctx.Background = inl ErrNoID
  /\ Ctx.ID (Ctx.WithQuery ctx query) = Ctx.ID ctx
  /\ Ctx.escape (Ctx.WithTenantID ctx tenantID) = Ctx.escape ctx
  /\ Ctx.escape (Ctx.WithQuery ctx query) = WithQuery (Ctx.escape ctx) query
  /\ Ctx.escape Ctx.Background = Background.
Proof. repeat split. Qed.

Section ConnFacts.
Variable Parse : string -> parsed.

Lemma withTenantIDArg_cases ctx n args :
  (n <= 0 /\ withTenantIDArg ctx n args = inr args)
  \/ (0 < n /\ Ctx.ID ctx = inl ErrNoID /\ withTenantIDArg ctx n args = inl ErrNoID)
  \/ (0 < n /\ exists id, Ctx.ID ctx = inr id
                          /\ withTenantIDArg ctx n args = inr (args ++ [tenantIDArg n id])%list).
Proof.
  unfold withTenantIDArg, Ctx.ID. destruct (Z.ltb_spec 0 n) as [Hn|Hn]; [|left; auto].
  right. destruct (Ctx.Value ctx Ctx.tenantKey) as [id|]; [right|left]; eauto.
Qed.

(** X5: what [QueryContext] and [ExecContext] hand to the nested
    connection is the query that [transform] returns; when its index is
    positive, the arguments are those of the caller followed by the tenant
    ID of the context under that index, and without a tenant ID on the
    context the call fails with [ErrNoID] and nothing is handed on; when
    the index is not positive, the arguments are those of the caller, and
    no tenant ID is asked for. *)
Theorem tenant_argument (c c' : Conn) (ctx : Ctx.t) (query transformedQuery : string)
    (tenantIDNum_ : Z) (args : list driver.NamedValue) :
  transform Parse c (Ctx.escape ctx) query
  = (Returns (transformedQuery, tenantIDNum_, None), c') ->
  (tenantIDNum_ <= 0 ->
     QueryContext Parse c ctx query args
     = (Returns (inr (QueryCall transformedQuery args)), c')
     /\ ExecContext Parse c ctx query args
        = (Returns (inr (ExecCall transformedQuery args)), c'))
  /\ (0 < tenantIDNum_ -> Ctx.Value ctx Ctx.tenantKey = None ->
        QueryContext Parse c ctx query args = (Returns (inl ErrNoID), c')
        /\ ExecContext Parse c ctx query args = (Returns (inl ErrNoID), c'))
  /\ (forall id, 0 < tenantIDNum_ -> Ctx.Value ctx Ctx.tenantKey = Some id ->
        QueryContext Parse c ctx query args
        = (Returns (inr (QueryCall transformedQuery
                           (args ++ [tenantIDArg tenantIDNum_ id]))), c')
        /\ ExecContext Parse c ctx query args
           = (Returns (inr (ExecCall transformedQuery
                              (args ++ [tenantIDArg tenantIDNum_ id]))), c')).
Proof.
  intros H. unfold QueryContext, ExecContext. rewrite H.
  unfold withTenantIDArg, Ctx.ID, tenantIDArg.
  split; [|split].
  - intros Hn. apply Z.ltb_ge in Hn. rewrite Hn. auto.
  - intros Hn Hid. apply Z.ltb_lt in Hn. rewrite Hn, Hid. auto.
  - intros id Hn Hid. apply Z.ltb_lt in Hn. rewrite Hn, Hid. auto.
Qed.

(** X6: [Prepare] asks [transform] with the background context, which
    escapes nothing: it prepares the whitelisted form of a whitelisted
    query, and refuses every other query with [ErrUnknownQuery], whatever
    the dynamic cache holds; it never parses. *)
Theorem Prepare_whitelist_only (c : Conn) (query : string) :
  Prepare Parse c query
  = match Whitelist (driver c) !! normalize query with
    | Some found => (Returns (inr (PrepareCall (Query found))), c)
    | None => (Returns (inl (Wrap ErrUnknownQuery (normalize query))), c)
    end.
Proof.
  unfold Prepare, transform.
  destruct (Whitelist (driver c) !! normalize query); reflexivity.
Qed.

(** An error of [transform] is the error of the call, and nothing is
    handed on. *)
Lemma QueryContext_error c c' ctx query args q n err :
  transform Parse c (Ctx.escape ctx) query = (Returns (q, n, Some err), c') ->
  QueryContext Parse c ctx query args = (Returns (inl err), c').
Proof. intros H. unfold QueryContext. rewrite H. reflexivity. Qed.
End ConnFacts.

Lemma tenant_argument_witness :
  QueryContext exampleParse
    (cachedConn "SELECT a FROM t" {| Query := "SELECT a FROM t WHERE tenant_id = $1";
                                     Num := 1 |})
    (Ctx.WithTenantID (Ctx.WithQuery Ctx.Background "SELECT a FROM t")
       (Some (driver.Int64 7)))
    "SELECT a FROM t" []
  = (Returns (inr (QueryCall "SELECT a FROM t WHERE tenant_id = $1"
                     [tenantIDArg 1 (driver.Int64 7)])),
     cachedConn "SELECT a FROM t" {| Query := "SELECT a FROM t WHERE tenant_id = $1";
                                     Num := 1 |}).
Proof.
  eapply (tenant_argument exampleParse _ _ _ _ _ 1 []); [|reflexivity|reflexivity].
  vm_compute. reflexivity.
Defined.

(** The index that [doTransform] returns, by the sites of the rewrite. *)
Lemma doTransform_index c tree q n :
  Forall (fun K => 0 <= K < maxInt) (params tree) ->
  doTransform c tree = Returns (q, n, None) ->
  let s := (transformTree (newTransformer c tree) tree).2 in
  (sites s = [] /\ n = 0)
  \/ (sites s <> [] /\ n = 1 + maxParam (params tree)
      /\ Forall (fun site => site = n) (sites s)
      /\ Forall (fun K => K < n) (params tree)).
Proof.
  intros Hrange Hdo s.
  assert (Hmax : findMaxParam tree = maxParam (params tree)).
  { apply findMaxParam_max. eapply List.Forall_impl; [|exact Hrange]. simpl. intros; lia. }
  assert (Hlt : maxParam (params tree) < maxInt).
  { clear -Hrange. induction Hrange; simpl; [reflexivity|]. lia. }
  assert (HN : wrapInt (1 + findMaxParam tree) = 1 + maxParam (params tree)).
  { rewrite Hmax. apply wrapInt_small. pose proof (maxParam_nonneg (params tree)).
    unfold maxInt in Hlt. lia. }
  pose proof (injectionInv_transformTree c tree) as (H1 & H2 & H3).
  fold s in H1, H2, H3. rewrite HN in *.
  unfold doTransform in Hdo.
  destruct (transformTree (newTransformer c tree) tree) as [[[]|e|x] s'] eqn:E;
    try discriminate.
  simpl in s. subst s. rewrite HN in Hdo. injection Hdo as Hq Hn.
  destruct (isTransformed (xf s')) eqn:Et; simpl in Hn; subst n.
  - right. split; [apply H3; reflexivity|]. split; [reflexivity|]. split; [exact H2|].
    eapply List.Forall_impl; [|apply maxParam_ge]. simpl. intros; lia.
  - left. split; [|reflexivity]. destruct (sites s') as [|? ?]; [reflexivity|].
    destruct H3 as [_ H3]. discriminate H3. discriminate.
Qed.



Lemma normalize_fixed query : normalize (normalize query) = normalize query.
Proof. apply NormalizerFacts.normalize_of_trimmed, NormalizerFacts.normalize_trimmed. Qed.

(** X8: the whitelist is looked up with the normalized query, so an entry
    whose key is not in normalized form answers no call: without it,
    [transform] returns the same and leaves the same cache. *)
Theorem whitelist_key_must_be_normalized (Parse : string -> parsed) (c : Conn)
    (ctx : Context) (query k : string) :
  normalize k <> k ->
  (transform Parse (withWhitelist c (delete k (Whitelist (driver c)))) ctx query).1
  = (transform Parse c ctx query).1
  /\ dynamicCache
       (driver (transform Parse (withWhitelist c (delete k (Whitelist (driver c))))
                  ctx query).2)
     = dynamicCache (driver (transform Parse c ctx query).2).
Proof.
  intros Hk.
  assert (Hne : k <> normalize query).
  { intros ->. apply Hk, normalize_fixed. }
  unfold transform. cbn [withWhitelist driver Whitelist dynamicCache].
  rewrite (lookup_delete_ne _ _ _ Hne).
  destruct (Whitelist (driver c) !! normalize query) as [found|]; [split; reflexivity|].
  destruct (negb _); [split; reflexivity|].
  destruct (lookup (dynamicCache (driver c)) (normalize query)) as [[found|] qc];
    [split; reflexivity|].
  destruct (Parse (normalize query)) as [tree|err]; [|split; reflexivity].
  pose (c0 := withWhitelist (setCache c {| cache := None |}) ∅).
  repeat match goal with
    | |- context [doTransform ?c1 tree] =>
        lazymatch c1 with
        | c0 => fail
        | _ => rewrite (doTransform_column c1 c0 tree eq_refl)
        end
    end.
  destruct (doTransform c0 tree) as [[[tq n] [e|]]|x]; split; reflexivity.
Qed.

Lemma whitelist_key_must_be_normalized_witness :
  normalize " SELECT 1" <> " SELECT 1"
  /\ (transform exampleParse
        (withWhitelist exampleConn {[ " SELECT 1" := {| Query := "SELECT 1"; Num := 0 |} ]})
        Background " SELECT 1").1
     = Returns ("", 0, Some (Wrap ErrUnknownQuery "SELECT 1")).
Proof.
  assert (Hk : normalize " SELECT 1" <> " SELECT 1") by (vm_compute; discriminate).
  split; [exact Hk|].
  destruct (whitelist_key_must_be_normalized exampleParse
              (withWhitelist exampleConn
                 {[ " SELECT 1" := {| Query := "SELECT 1"; Num := 0 |} ]})
              Background " SELECT 1" " SELECT 1" Hk) as [H _].
  vm_compute in H |- *. reflexivity.
Defined.

Lemma readLiteral_escape str rest :
  startsWithQuote rest = false ->
  readLiteral (escape str ++ String GoStrings.squote rest) = Some (str, rest).
Proof.
  intros Hrest. induction str as [|c str IH].
  - simpl. destruct rest as [|c' r']; [reflexivity|].
    simpl in Hrest. rewrite Hrest. reflexivity.
  - simpl. destruct (Ascii.eqb c GoStrings.squote) eqn:E.
    + apply Ascii.eqb_eq in E. subst c. simpl. rewrite IH. reflexivity.
    + simpl. rewrite E, IH. reflexivity.
Qed.



(** X10: [findMaxParam] is exact: it is at least every parameter number of
    the tree, wherever the parameter is, and it is one of them, or 0 when
    the tree has none. *)
Theorem findMaxParam_exact (tree : nodes.ParsetreeList) :
  Forall (fun K => 0 <= K) (params tree) ->
  Forall (fun K => K <= findMaxParam tree) (params tree)
  /\ (params tree = [] -> findMaxParam tree = 0)
  /\ (params tree <> [] -> In (findMaxParam tree) (params tree)).
Proof.
  intros H. rewrite (findMaxParam_max tree H). split; [apply maxParam_ge|]. split.
  - intros ->. reflexivity.
  - induction H as [|K l HK Hl IH]; [congruence|]. intros _.
    simpl. destruct l as [|K' l'].
    + simpl. rewrite Z.max_l by exact HK. left. reflexivity.
    + destruct (Z.max_spec K (maxParam (K' :: l'))) as [[? ->]|[? ->]];
        [right; apply IH; discriminate|left; reflexivity].
Qed.

Lemma findMaxParam_exact_witness :
  params selectParams = [2; 1] /\ In (findMaxParam selectParams) (params selectParams).
Proof.
  split; [vm_compute; reflexivity|].
  apply (findMaxParam_exact selectParams).
  - replace (params selectParams) with [2; 1] by (vm_compute; reflexivity).
    repeat constructor; lia.
  - vm_compute. discriminate.
Defined.

Lemma marked_frame s s' : xf s = xf s' -> sites s = sites s' -> marked s -> marked s'.
Proof. unfold marked. intros <- _ H. exact H. Qed.

Lemma marked_addTenantID : preserves marked addTenantID.
Proof. intros s _. reflexivity. Qed.

Lemma marked_after_addTenantID s a s' : addTenantID s = (Ok a, s') -> marked s'.
Proof. intros [= _ <-]. reflexivity. Qed.

(** Once marked, always marked. *)
Ltac keeps :=
  repeat first
    [ lazymatch goal with
      | |- preserves _ (ret _) => apply preserves_ret
      | |- preserves _ (fail _) => apply preserves_fail
      | |- preserves _ (Fprint _) => apply preserves_Fprint, marked_frame
      | |- preserves _ addTenantID => apply marked_addTenantID
      | |- preserves _ (bind _ _) => apply preserves_bind; [|intros]
      | |- preserves _ (wrap _ _) => apply preserves_wrap
      | |- preserves _ (forRange _ _ _) => apply preserves_forRange; intros
      | |- preserves _ (commaSeparated _ _) =>
          apply preserves_commaSeparated; [apply marked_frame|intros]
      | |- preserves _ (transformNode _ _) =>
          apply preserves_transformNode; assumption
      | |- preserves _ (transformWhere _ _ _) =>
          apply preserves_transformWhere;
          [apply marked_frame|apply marked_addTenantID|assumption]
      | |- preserves _ (transformIndexElem _) =>
          apply preserves_transformIndexElem, marked_frame
      | |- preserves _ (match ?x with _ => _ end) => destruct x
      end ].

(** A step of a run that has come to its end. *)
Ltac step H :=
  let a := fresh "a" in
  let s := fresh "s" in
  let Ha := fresh "Ha" in
  apply bind_inv in H as (a & s & Ha & H).

Ltac rest_keeps H :=
  lazymatch type of H with
  | ?m ?s = (Ok _, ?s') =>
      let Hk := fresh "Hk" in
      assert (Hk : preserves marked m) by keeps;
      let Hs := fresh "Hs" in
      intros Hs; specialize (Hk s Hs); rewrite H in Hk; exact Hk
  end.

Section Injection.
Variable self : recursion.
Hypothesis Hself : preservesAll marked self.

(** The SELECT of an INSERT ... SELECT gets the tenant ID as its last
    column. *)
Lemma transformSelect_marks stmt s s' :
  transformSelect self stmt true s = (Ok tt, s') -> marked s'.
Proof.
  intros H. unfold transformSelect in H.
  step H. step H. step H.
  apply bind_inv in H as (star & s4 & Hstar & H).
  assert (Hfalse : star = false).
  { clear H.
    repeat match type of Hstar with
      | context [match ?x with _ => _ end] => destruct x
      end;
      cbv [bind Fprint fail ret] in Hstar; simpl in Hstar;
      first [discriminate Hstar | injection Hstar as <- _; reflexivity]. }
  subst star. cbn [negb] in H.
  apply bind_inv in H as ([] & s5 & Hcols & H).
  assert (H5 : marked s5).
  { step Hcols. step Hcols. apply (marked_after_addTenantID _ _ _ Hcols). }
  revert H5. rest_keeps H.
Qed.

Hypothesis Hselect :
  forall sel s s', rec_transformSelect self sel true s = (Ok tt, s') -> marked s'.

(** An INSERT that is rewritten has the tenant ID: as the last value of
    its VALUES list, or as the last column of its SELECT. *)
Lemma transformInsert_marks stmt s s' :
  transformInsert self stmt s = (Ok tt, s') -> marked s'.
Proof.
  intros H. unfold transformInsert in H.
  step H. step H. step H. step H. step H. step H. step H.
  apply bind_inv in H as ([] & s8 & Hrows & H).
  assert (H8 : marked s8).
  { clear H. destruct (InsertStmt.SelectStmt stmt) as
      [ | | |sel| | | | | | | | | | | | | | | | | | | | | | | | | | | | | | | | | ];
      try discriminate Hrows.
    destruct (SelectStmt.ValuesLists sel) as [|values [|? ?]]; [| |discriminate Hrows].
    - apply bind_inv in Hrows as ([[] e] & s9 & Hsel & Hrows).
      injection Hrows as <-. unfold withEnv, wrap in Hsel.
      match type of Hsel with
      | context [rec_transformSelect self sel true ?s0] =>
          pose proof (Hselect sel s0) as Hm;
          destruct (rec_transformSelect self sel true s0) as [[[]|err|x] sx];
          try discriminate Hsel
      end.
      injection Hsel as _ <-. exact (Hm sx eq_refl).
    - step Hrows. step Hrows. step Hrows.
      match goal with
      | Hadd : addTenantID _ = _ |- _ =>
          apply marked_after_addTenantID in Hadd; injection Hrows as <-; exact Hadd
      end. }
  revert H8. rest_keeps H.
Qed.
End Injection.

(** A rewrite that returns without error returns what the transformer has
    written, and its index if it is marked. *)
Lemma doTransform_returns (c : Conn) (tree : nodes.ParsetreeList) (q : string) (n : Z) :
  doTransform c tree = Returns (q, n, None) ->
  exists s, transformTree (newTransformer c tree) tree = (Ok tt, s)
            /\ q = buf s
            /\ n = if isTransformed (xf s) then wrapInt (1 + findMaxParam tree) else 0.
Proof.
  unfold doTransform. set (N := wrapInt _).
  destruct (transformTree _ _) as [[[]|e|x] s]; intros Hdo; try discriminate Hdo.
  exists s. split; [reflexivity|]. injection Hdo as <- <-.
  split; [reflexivity|]. destruct (isTransformed (xf s)); reflexivity.
Qed.

Lemma rewriter_select_marks fuel sel s s' :
  rec_transformSelect (rewriter fuel) sel true s = (Ok tt, s') -> marked s'.
Proof.
  destruct fuel as [|fuel]; [discriminate|]. simpl.
  apply transformSelect_marks, preserves_rewriter;
    [exact marked_frame|exact marked_addTenantID].
Qed.

Lemma transformTree_insert t stmt :
  transformTree t (single (nodes.InsertStmt stmt))
  = transformInsert (rewriter (height (nodes.RawStmt (nodes.InsertStmt stmt)))) stmt (start t).
Proof. reflexivity. Qed.



Lemma transformSelect_distinct self sel ins s s' :
  SelectStmt.DistinctClause sel <> [] ->
  transformSelect self sel ins s = (Ok tt, s') -> False.
Proof.
  intros Hd H. unfold transformSelect in H.
  step H. step H. apply bind_inv in H as (ax & sx & Hcheck & _).
  destruct (SelectStmt.DistinctClause sel); [congruence|discriminate Hcheck].
Qed.

Lemma transformSelect_star self sel name s s' :
  SelectStmt.TargetList sel = [nodes.ResTarget name (nodes.ColumnRef [nodes.A_Star])] ->
  transformSelect self sel true s = (Ok tt, s') -> False.
Proof.
  intros Ht H. unfold transformSelect in H.
  step H. step H. step H. apply bind_inv in H as (star & sx & Hstar & _).
  rewrite Ht in Hstar. discriminate Hstar.
Qed.

Lemma rewriter_select_star fuel sel name s s' :
  SelectStmt.TargetList sel = [nodes.ResTarget name (nodes.ColumnRef [nodes.A_Star])] ->
  rec_transformSelect (rewriter fuel) sel true s = (Ok tt, s') -> False.
Proof.
  intros Ht. destruct fuel as [|fuel]; [discriminate|]. simpl.
  apply transformSelect_star with (name := name). exact Ht.
Qed.

(** What [transformInsert] has reached when it returns without error: its
    SELECT part was handled. *)
Lemma transformInsert_rows self stmt s s' :
  transformInsert self stmt s = (Ok tt, s') ->
  exists sel, InsertStmt.SelectStmt stmt = nodes.SelectStmt sel
    /\ match SelectStmt.ValuesLists sel with
       | [] => exists s0 s1, rec_transformSelect self sel true s0 = (Ok tt, s1)
       | [_] => True
       | _ => False
       end.
Proof.
  intros H. unfold transformInsert in H.
  step H. step H. step H. step H. step H. step H. step H.
  apply bind_inv in H as ([] & sy & Hrows & _).
  destruct (InsertStmt.SelectStmt stmt) as
    [ | | |sel| | | | | | | | | | | | | | | | | | | | | | | | | | | | | | | | | ];
    try discriminate Hrows.
  exists sel. split; [reflexivity|].
  destruct (SelectStmt.ValuesLists sel) as [|values [|? ?]]; [|exact I|discriminate Hrows].
  apply bind_inv in Hrows as ([[] e] & sz & Hsel & _).
  unfold withEnv, wrap in Hsel.
  match type of Hsel with
  | context [rec_transformSelect self sel true ?s0] =>
      exists s0; destruct (rec_transformSelect self sel true s0) as [[[]|err|x] sx];
        try discriminate Hsel
  end.
  exists sx. reflexivity.
Qed.

(** X12: what the rewriter refuses.  A parse tree that does not hold exactly
    one statement gives the error that counts them; a SELECT DISTINCT, an
    INSERT with more than one row of VALUES and an INSERT ... SELECT * are
    never rewritten, whatever else they hold. *)
Theorem unsupported_statements_are_refused (c : Conn) :
  (forall tree, length (nodes.Statements tree) <> 1%nat ->
     doTransform c tree
     = Returns ("", 0, Some (Errorf (itoa (Z.of_nat (length (nodes.Statements tree)))
                                      ++ " statements in parse tree, want 1"))))
  /\ (forall sel, SelectStmt.DistinctClause sel <> [] ->
        rewritten c (single (nodes.SelectStmt sel)) = false)
  /\ (forall ins sel, InsertStmt.SelectStmt ins = nodes.SelectStmt sel ->
        (2 <= length (SelectStmt.ValuesLists sel))%nat ->
        rewritten c (single (nodes.InsertStmt ins)) = false)
  /\ (forall ins sel name, InsertStmt.SelectStmt ins = nodes.SelectStmt sel ->
        SelectStmt.ValuesLists sel = [] ->
        SelectStmt.TargetList sel = [nodes.ResTarget name (nodes.ColumnRef [nodes.A_Star])] ->
        rewritten c (single (nodes.InsertStmt ins)) = false).
Proof.
  split; [|split; [|split]].
  - intros tree Hlen. unfold doTransform, transformTree.
    destruct (nodes.Statements tree) as [|stmt [|stmt' rest]]; simpl in *;
      [reflexivity|congruence|reflexivity].
  - intros sel Hd. unfold rewritten, doTransform, transformTree, transformStmt.
    cbn [single nodes.Statements runStmt].
    match goal with
    | |- context [transformSelect ?r sel false ?s0] =>
        pose proof (transformSelect_distinct r sel false s0) as Hno;
        destruct (transformSelect r sel false s0) as [[[]|err|x] s]
    end; [|reflexivity|reflexivity].
    exfalso. exact (Hno s Hd eq_refl).
  - intros ins sel Hsel Hlen. unfold rewritten, doTransform, transformTree, transformStmt.
    cbn [single nodes.Statements runStmt].
    match goal with
    | |- context [transformInsert ?r ins ?s0] =>
        pose proof (transformInsert_rows r ins s0) as Hrows;
        destruct (transformInsert r ins s0) as [[[]|err|x] s]
    end; [|reflexivity|reflexivity].
    exfalso. destruct (Hrows s eq_refl) as (sel' & Heq & Hcase).
    rewrite Hsel in Heq. injection Heq as <-.
    destruct (SelectStmt.ValuesLists sel) as [|values [|? ?]]; simpl in Hlen;
      [lia|lia|exact Hcase].
  - intros ins sel name Hsel Hvalues Htargets.
    unfold rewritten, doTransform, transformTree, transformStmt.
    cbn [single nodes.Statements runStmt].
    match goal with
    | |- context [transformInsert ?r ins ?s0] =>
        pose proof (transformInsert_rows r ins s0) as Hrows;
        destruct (transformInsert r ins s0) as [[[]|err|x] s]
    end; [|reflexivity|reflexivity].
    exfalso. destruct (Hrows s eq_refl) as (sel' & Heq & Hcase).
    rewrite Hsel in Heq. injection Heq as <-.
    rewrite Hvalues in Hcase. destruct Hcase as (s0 & s1 & Hrun).
    exact (rewriter_select_star _ _ _ _ _ Htargets Hrun).
Qed.

Lemma dropLeadingEmpty_nil l :
  dropLeadingEmpty l = [] <-> Forall (fun s => s = "") l.
Proof.
  induction l as [|x l IH]; simpl; [split; [constructor|reflexivity]|].
  destruct x as [|ch x]; simpl.
  - rewrite IH. split; [intros H; constructor; [reflexivity|exact H]|].
    intros H. inversion H. assumption.
  - split; [discriminate|]. intros H. inversion H. discriminate.
Qed.

Lemma Join_empty h t sep : isEmpty h = false -> GoStrings.Join (h :: t) sep <> "".
Proof. destruct h; [discriminate|]. destruct t; discriminate. Qed.

(** X13: the normalized query is empty exactly when every line of the query
    is blank: an empty or all-white-space query is looked up, and parsed,
    as the empty string, and no other query is. *)
Theorem normalize_blank (q : string) :
  normalize q = ""
  <-> Forall (fun line => GoStrings.TrimSpace line = "") (GoStrings.Split q GoStrings.newline).
Proof.
  unfold normalize. rewrite <- (List.Forall_map GoStrings.TrimSpace (fun s => s = "")).
  set (lines := List.map GoStrings.TrimSpace (GoStrings.Split q GoStrings.newline)).
  split.
  - intros HJ. apply dropLeadingEmpty_nil.
    pose proof (NormalizerFacts.dropLeadingEmpty_head lines) as Hhead.
    destruct (dropLeadingEmpty lines) as [|h t]; [reflexivity|].
    destruct (NormalizerFacts.dropTrailingEmpty_head h t Hhead) as (t' & Ht').
    rewrite Ht' in HJ. exfalso. exact (Join_empty h t' " " Hhead HJ).
  - intros Hall. apply dropLeadingEmpty_nil in Hall. rewrite Hall. reflexivity.
Qed.

Lemma plain_In l n : forallb plain l = true -> In n l -> plain n = true.
Proof. intros H Hin. exact (proj1 (forallb_forall plain l) H n Hin). Qed.

Lemma preserves_forRange_In (P : st -> Prop) {X S} (l : list X) (body : S -> X -> M S) :
  (forall acc x, In x l -> preserves P (body acc x)) ->
  forall acc, preserves P (forRange l acc body).
Proof.
  induction l as [|x l IH]; intros Hbody acc; simpl.
  - apply preserves_ret.
  - apply preserves_bind; [apply Hbody; left; reflexivity|].
    intros acc'. apply IH. intros acc'' y Hy. apply Hbody. right. exact Hy.
Qed.

Section EnvInvariant.
Variable I : environ -> Prop.
Hypothesis I_store : forall e a r, envGet e a = noStatus -> I e ->
  I (<[a := if bool_decide (envGet e r = noStatus) then needsTenantID else envGet e r]> e).

Lemma inEnv_Fprint str : preserves (inEnv I) (Fprint str).
Proof. intros s H. exact H. Qed.

Lemma inEnv_getTransformer : preserves (inEnv I) getTransformer.
Proof. intros s H. exact H. Qed.

Lemma inEnv_envLookup k : preserves (inEnv I) (envLookup k).
Proof. intros s H. exact H. Qed.

Lemma inEnv_addTenantID : preserves (inEnv I) addTenantID.
Proof. intros s H. exact H. Qed.

Lemma inEnv_withBuffer {A} (m : M A) :
  preserves (inEnv I) m -> preserves (inEnv I) (withBuffer m).
Proof.
  intros Hm s H. unfold withBuffer.
  match goal with |- context [m ?s0] => pose proof (Hm s0 H) as H'; destruct (m s0) as [[a|e|x] s'] end;
    exact H'.
Qed.

Lemma inEnv_withEnv {A} e (m : M A) : preserves (inEnv I) (withEnv e m).
Proof.
  intros s H. unfold withEnv.
  match goal with |- context [m ?s0] => destruct (m s0) as [[a|err|x] s'] end; exact H.
Qed.

Ltac plain_side :=
  first
    [ assumption
    | eapply plain_In; eassumption
    | cbn [plain forallb];
      repeat match goal with H : _ = true |- _ => rewrite H end; reflexivity ].

Ltac plain_norm :=
  repeat match goal with
    | H : plain (_ _) = true |- _ => progress cbn [plain] in H
    | H : forallb plain (_ :: _) = true |- _ => cbn [forallb] in H
    | H : (_ && _)%bool = true |- _ =>
        let H1 := fresh H in apply andb_prop in H as [H1 H]
    | H : false = true |- _ => discriminate H
    end.

Ltac envk_prim :=
  lazymatch goal with
  | |- preserves _ (ret _) => apply preserves_ret
  | |- preserves _ (fail _) => apply preserves_fail
  | |- preserves _ panic => apply preserves_panic
  | |- preserves _ (Fprint _) => apply inEnv_Fprint
  | |- preserves _ getTransformer => apply inEnv_getTransformer
  | |- preserves _ (envLookup _) => apply inEnv_envLookup
  | |- preserves _ addTenantID => apply inEnv_addTenantID
  | |- preserves _ (bind _ _) => apply preserves_bind; [|intros]
  | |- preserves _ (wrap _ _) => apply preserves_wrap
  | |- preserves _ (withBuffer _) => apply inEnv_withBuffer
  | |- preserves _ (withEnv _ _) => apply inEnv_withEnv
  | |- preserves _ (forRange _ _ _) => apply preserves_forRange_In; intros
  | |- preserves _ (match ?x with _ => _ end) => destruct x; plain_norm
  | |- preserves _ (let '(_, _) := ?x in _) => destruct x
  end.

Lemma inEnv_transformIndexElem n : preserves (inEnv I) (transformIndexElem n).
Proof. unfold transformIndexElem. repeat envk_prim. Qed.

Lemma inEnv_transformIdent names : preserves (inEnv I) (transformIdent names).
Proof. unfold transformIdent. repeat envk_prim. Qed.

Lemma inEnv_transformTypeName tn : preserves (inEnv I) (transformTypeName tn).
Proof.
  unfold transformTypeName.
  repeat first [apply inEnv_transformIdent | envk_prim].
Qed.

Lemma inEnv_transformConst v : preserves (inEnv I) (transformConst v).
Proof. unfold transformConst. repeat envk_prim. Qed.

Section EnvBodies.
Variable self : recursion.
Hypothesis Hnode : forall node, plain node = true ->
  preserves (inEnv I) (rec_transformNodeHelper self node).
Hypothesis Hbool : forall op args, forallb plain args = true ->
  preserves (inEnv I) (rec_transformBoolExpr self op args).

Lemma inEnv_transformNode node :
  plain node = true -> preserves (inEnv I) (transformNode self node).
Proof.
  intros Hp. unfold transformNode.
  apply preserves_bind; [apply Hnode, Hp|intros; apply preserves_ret].
Qed.

Lemma inEnv_transformAtom node :
  plain node = true -> preserves (inEnv I) (transformAtom self node).
Proof.
  intros Hp. unfold transformAtom.
  apply preserves_bind; [apply inEnv_withBuffer, Hnode, Hp|].
  intros [[] written]; apply inEnv_Fprint.
Qed.

Lemma inEnv_transformNodeSafe node :
  plain node = true -> preserves (inEnv I) (transformNodeSafe self node).
Proof.
  intros Hp. unfold transformNodeSafe.
  destruct node; try (apply inEnv_transformNode; exact Hp). apply inEnv_Fprint.
Qed.

Lemma inEnv_commaSeparated l f :
  (forall n, In n l -> preserves (inEnv I) (f n)) ->
  preserves (inEnv I) (commaSeparated l f).
Proof.
  intros Hf. unfold commaSeparated.
  apply preserves_bind; [|intros; apply preserves_ret].
  apply preserves_forRange_In. intros acc x Hx.
  apply preserves_bind; [destruct (0 <? acc)%nat; [apply inEnv_Fprint|apply preserves_ret]|].
  intros _. apply preserves_bind; [apply Hf, Hx|intros; apply preserves_ret].
Qed.

Lemma inEnv_transformBoolSubexpr e :
  plain e = true -> preserves (inEnv I) (transformBoolSubexpr self e).
Proof.
  intros Hp. unfold transformBoolSubexpr.
  destruct e; try (apply inEnv_transformNode; exact Hp).
  cbn [plain] in Hp.
  repeat first [apply Hbool; exact Hp | envk_prim].
Qed.

Lemma inEnv_transformBoolExpr op args :
  forallb plain args = true -> preserves (inEnv I) (transformBoolExpr self op args).
Proof.
  intros Hp. unfold transformBoolExpr.
  repeat first [apply inEnv_transformBoolSubexpr; plain_side | envk_prim].
Qed.

Lemma inEnv_transformSubLink k t sub :
  plain t = true -> preserves (inEnv I) (transformSubLink self k t sub).
Proof.
  intros Hp. unfold transformSubLink.
  repeat first [apply inEnv_transformNode; plain_side | envk_prim].
Qed.

Lemma inEnv_rangeVar rv :
  preserves (inEnv I) (transformNodeHelper self (nodes.RangeVar rv)).
Proof.
  intros s H. unfold inEnv in *. cbn [transformNodeHelper].
  destruct (RangeVar.Alias rv) as [a|];
    cbv [bind Fprint envLookup envStore getEnv setEnv ret]; cbn [env fst snd].
  - destruct (bool_decide (envGet (env s) (Alias.Aliasname a) = noStatus)) eqn:E;
      cbn [env snd]; [|exact H].
    apply bool_decide_eq_true in E. apply I_store; assumption.
  - destruct (bool_decide (envGet (env s) (RangeVar.Relname rv) = noStatus)) eqn:E;
      cbn [env snd]; [|exact H].
    apply bool_decide_eq_true in E.
    pose proof (I_store (env s) _ (RangeVar.Relname rv) E H) as H'.
    rewrite (bool_decide_eq_true_2 _ E) in H'. exact H'.
Qed.

Ltac envk :=
  repeat first
    [ lazymatch goal with
      | |- preserves _ (transformNode _ _) => apply inEnv_transformNode; plain_side
      | |- preserves _ (transformAtom _ _) => apply inEnv_transformAtom; plain_side
      | |- preserves _ (transformNodeSafe _ _) => apply inEnv_transformNodeSafe; plain_side
      | |- preserves _ (commaSeparated _ _) => apply inEnv_commaSeparated; intros
      | |- preserves _ (transformBoolExpr _ _ _) => apply inEnv_transformBoolExpr; plain_side
      | |- preserves _ (transformSubLink _ _ _ _) => apply inEnv_transformSubLink; plain_side
      | |- preserves _ (transformIdent _) => apply inEnv_transformIdent
      | |- preserves _ (transformTypeName _) => apply inEnv_transformTypeName
      | |- preserves _ (transformConst _) => apply inEnv_transformConst
      end
    | envk_prim ].

Lemma inEnv_transformNodeHelper node :
  plain node = true -> preserves (inEnv I) (transformNodeHelper self node).
Proof.
  intros Hp. destruct node; try discriminate Hp;
    try apply inEnv_rangeVar; cbn [plain] in Hp; plain_norm;
    unfold transformNodeHelper; envk.
Qed.
End EnvBodies.

Lemma inEnv_rewriter fuel :
  (forall node, plain node = true ->
     preserves (inEnv I) (rec_transformNodeHelper (rewriter fuel) node))
  /\ (forall op args, forallb plain args = true ->
        preserves (inEnv I) (rec_transformBoolExpr (rewriter fuel) op args)).
Proof.
  induction fuel as [|fuel [IHn IHb]].
  - split; intros; apply preserves_outOfFuel.
  - split; intros; simpl.
    + apply inEnv_transformNodeHelper; assumption.
    + apply inEnv_transformBoolExpr; assumption.
Qed.
End EnvInvariant.

Section AppendOnly.
Variable pre : string.

Lemma startsWith_same s s' : buf s = buf s' -> startsWith pre s -> startsWith pre s'.
Proof. intros E (w & Hw). exists w. rewrite <- E. exact Hw. Qed.

Lemma startsWith_more s s' str :
  buf s' = buf s ++ str -> startsWith pre s -> startsWith pre s'.
Proof.
  intros E (w & Hw). exists (w ++ str). rewrite E, Hw. apply append_assoc.
Qed.

Lemma startsWith_Fprint str : preserves (startsWith pre) (Fprint str).
Proof. intros s H. apply (startsWith_more s _ str); [reflexivity|exact H]. Qed.

Lemma startsWith_addTenantID : preserves (startsWith pre) addTenantID.
Proof.
  intros s H. apply (startsWith_more s _ ("$" ++ itoa (tenantIDNum (xf s))));
    [reflexivity|exact H].
Qed.

Lemma startsWith_getTransformer : preserves (startsWith pre) getTransformer.
Proof. intros s H. exact H. Qed.

Lemma startsWith_setEnv e : preserves (startsWith pre) (setEnv e).
Proof. intros s H. apply (startsWith_same s); [reflexivity|exact H]. Qed.

Lemma startsWith_envLookup k : preserves (startsWith pre) (envLookup k).
Proof. intros s H. exact H. Qed.

Lemma startsWith_envStore k v : preserves (startsWith pre) (envStore k v).
Proof. intros s H. apply (startsWith_same s); [reflexivity|exact H]. Qed.

Lemma startsWith_withBuffer {A} (m : M A) : preserves (startsWith pre) (withBuffer m).
Proof.
  intros s H. unfold withBuffer.
  match goal with |- context [m ?s0] => destruct (m s0) as [[a|e|x] s'] end;
    (apply (startsWith_same s); [reflexivity|exact H]).
Qed.

Lemma startsWith_withEnv {A} e (m : M A) :
  preserves (startsWith pre) m -> preserves (startsWith pre) (withEnv e m).
Proof.
  intros Hm s H. unfold withEnv.
  match goal with
  | |- context [m ?s0] =>
      assert (H0 : startsWith pre s0) by (apply (startsWith_same s); [reflexivity|exact H]);
      pose proof (Hm s0 H0) as H';
      destruct (m s0) as [[a|err|x] s']
  end; (eapply startsWith_same; [|exact H']; reflexivity).
Qed.

Ltac app_prim :=
  lazymatch goal with
  | |- preserves _ (ret _) => apply preserves_ret
  | |- preserves _ (fail _) => apply preserves_fail
  | |- preserves _ panic => apply preserves_panic
  | |- preserves _ (Fprint _) => apply startsWith_Fprint
  | |- preserves _ getTransformer => apply startsWith_getTransformer
  | |- preserves _ getEnv => apply preserves_getEnv
  | |- preserves _ (setEnv _) => apply startsWith_setEnv
  | |- preserves _ (envLookup _) => apply startsWith_envLookup
  | |- preserves _ (envStore _ _) => apply startsWith_envStore
  | |- preserves _ addTenantID => apply startsWith_addTenantID
  | |- preserves _ (bind _ _) => apply preserves_bind; [|intros]
  | |- preserves _ (wrap _ _) => apply preserves_wrap
  | |- preserves _ (withBuffer _) => apply startsWith_withBuffer
  | |- preserves _ (withEnv _ _) => apply startsWith_withEnv
  | |- preserves _ (forRange _ _ _) => apply preserves_forRange; intros
  | |- preserves _ (match ?x with _ => _ end) => destruct x
  | |- preserves _ (let '(_, _) := ?x in _) => destruct x
  end.

Lemma startsWith_maybeSetIsLeftJoinTable table :
  preserves (startsWith pre) (maybeSetIsLeftJoinTable table).
Proof. unfold maybeSetIsLeftJoinTable. repeat app_prim. Qed.

Lemma startsWith_transformIndexElem n : preserves (startsWith pre) (transformIndexElem n).
Proof. unfold transformIndexElem. repeat app_prim. Qed.

Lemma startsWith_transformIdent names : preserves (startsWith pre) (transformIdent names).
Proof. unfold transformIdent. repeat app_prim. Qed.

Lemma startsWith_transformTypeName tn : preserves (startsWith pre) (transformTypeName tn).
Proof.
  unfold transformTypeName. repeat first [apply startsWith_transformIdent | app_prim].
Qed.

Lemma startsWith_transformConst v : preserves (startsWith pre) (transformConst v).
Proof. unfold transformConst. repeat app_prim. Qed.

Lemma startsWith_copyCTEs e : preserves (startsWith pre) (copyCTEs e).
Proof. unfold copyCTEs. repeat app_prim. Qed.

Section AppendBodies.
Variable self : recursion.
Hypothesis Hself : preservesAll (startsWith pre) self.

Lemma startsWith_transformNode node : preserves (startsWith pre) (transformNode self node).
Proof. unfold transformNode. apply preserves_bind; [apply Hself|intros; apply preserves_ret]. Qed.

Lemma startsWith_commaSeparated l f :
  (forall n, preserves (startsWith pre) (f n)) ->
  preserves (startsWith pre) (commaSeparated l f).
Proof. intros Hf. unfold commaSeparated. repeat first [apply Hf | app_prim]. Qed.

Ltac app1 :=
  repeat first
    [ lazymatch goal with
      | |- preserves _ (rec_transformNodeHelper _ _) => apply Hself
      | |- preserves _ (rec_transformSelect _ _ _) => apply Hself
      | |- preserves _ (rec_transformInsert _ _) => apply Hself
      | |- preserves _ (rec_transformBoolExpr _ _ _) => apply Hself
      | |- preserves _ (transformNode _ _) => apply startsWith_transformNode
      | |- preserves _ (commaSeparated _ _) => apply startsWith_commaSeparated; intros
      | |- preserves _ (maybeSetIsLeftJoinTable _) => apply startsWith_maybeSetIsLeftJoinTable
      | |- preserves _ (transformIndexElem _) => apply startsWith_transformIndexElem
      | |- preserves _ (transformIdent _) => apply startsWith_transformIdent
      | |- preserves _ (transformTypeName _) => apply startsWith_transformTypeName
      | |- preserves _ (transformConst _) => apply startsWith_transformConst
      | |- preserves _ (copyCTEs _) => apply startsWith_copyCTEs
      end
    | app_prim ].

Lemma startsWith_transformAtom node : preserves (startsWith pre) (transformAtom self node).
Proof. unfold transformAtom. app1. Qed.

Lemma startsWith_transformNodeSafe node :
  preserves (startsWith pre) (transformNodeSafe self node).
Proof. unfold transformNodeSafe. app1. Qed.

Lemma startsWith_transformBoolSubexpr e :
  preserves (startsWith pre) (transformBoolSubexpr self e).
Proof. unfold transformBoolSubexpr. app1. Qed.

Lemma startsWith_transformBoolExpr op args :
  preserves (startsWith pre) (transformBoolExpr self op args).
Proof.
  unfold transformBoolExpr. repeat first [apply startsWith_transformBoolSubexpr | app1].
Qed.

Ltac app2 :=
  repeat first
    [ lazymatch goal with
      | |- preserves _ (transformAtom _ _) => apply startsWith_transformAtom
      | |- preserves _ (transformNodeSafe _ _) => apply startsWith_transformNodeSafe
      | |- preserves _ (transformBoolSubexpr _ _) => apply startsWith_transformBoolSubexpr
      | |- preserves _ (transformBoolExpr _ _ _) => apply startsWith_transformBoolExpr
      end
    | progress app1 ].

Lemma startsWith_transformWhereHelper w oc tables :
  preserves (startsWith pre) (transformWhereHelper self w oc tables).
Proof. unfold transformWhereHelper. app2. Qed.

Lemma startsWith_transformWhere w oc :
  preserves (startsWith pre) (transformWhere self w oc).
Proof.
  unfold transformWhere. repeat first [apply startsWith_transformWhereHelper | app2].
Qed.

Lemma startsWith_transformSubLink k t sub :
  preserves (startsWith pre) (transformSubLink self k t sub).
Proof. unfold transformSubLink. app2. Qed.

Lemma startsWith_handleCTE w : preserves (startsWith pre) (handleCTE self w).
Proof. unfold handleCTE. app2. Qed.

Lemma startsWith_transformSelectCol n :
  preserves (startsWith pre) (transformSelectCol self n).
Proof. unfold transformSelectCol. app2. Qed.

Ltac app3 :=
  repeat first
    [ lazymatch goal with
      | |- preserves _ (transformWhereHelper _ _ _ _) => apply startsWith_transformWhereHelper
      | |- preserves _ (transformWhere _ _ _) => apply startsWith_transformWhere
      | |- preserves _ (transformSubLink _ _ _ _) => apply startsWith_transformSubLink
      | |- preserves _ (handleCTE _ _) => apply startsWith_handleCTE
      | |- preserves _ (transformSelectCol _ _) => apply startsWith_transformSelectCol
      end
    | progress app2 ].

Lemma startsWith_transformSelect stmt ins :
  preserves (startsWith pre) (transformSelect self stmt ins).
Proof. unfold transformSelect. app3. Qed.

Lemma startsWith_transformInsert stmt :
  preserves (startsWith pre) (transformInsert self stmt).
Proof. unfold transformInsert. app3. Qed.

Lemma startsWith_transformNodeHelper node :
  preserves (startsWith pre) (transformNodeHelper self node).
Proof. unfold transformNodeHelper. app3. Qed.
End AppendBodies.

Lemma startsWith_rewriter fuel : preservesAll (startsWith pre) (rewriter fuel).
Proof.
  induction fuel as [|fuel IH].
  - repeat split; intros; apply preserves_outOfFuel.
  - repeat split; intros; simpl.
    + apply startsWith_transformNodeHelper, IH.
    + apply startsWith_transformSelect, IH.
    + apply startsWith_transformInsert, IH.
    + apply startsWith_transformBoolExpr, IH.
Qed.
End AppendOnly.

Lemma settingsOf_frame t s s' :
  xf s = xf s' -> sites s = sites s' -> settingsOf t s -> settingsOf t s'.
Proof. unfold settingsOf. intros <- _ H. exact H. Qed.

Lemma settingsOf_addTenantID t : preserves (settingsOf t) addTenantID.
Proof. intros s H. exact H. Qed.

Lemma preserves_run (P : st -> Prop) {A} (m : M A) s r s' :
  preserves P m -> m s = (r, s') -> P s -> P s'.
Proof. intros Hm E H. specialize (Hm s H). rewrite E in Hm. exact Hm. Qed.

Lemma awaits_lookup table (e : environ) : awaits table e -> e !! table = Some needsTenantID.
Proof.
  unfold awaits, envGet. destruct (e !! table) as [v|]; simpl; [congruence|discriminate].
Qed.

Lemma awaits_promote table e : awaits table e -> awaits table (promoteLeftJoinTable e).
Proof.
  intros H. unfold promoteLeftJoinTable.
  destruct (List.find _ _) as [[tbl v]|]; [|exact H].
  unfold awaits, envGet in *. destruct (decide (tbl = table)) as [->|Hne].
  - rewrite lookup_insert_eq. reflexivity.
  - rewrite lookup_insert_ne by exact Hne. exact H.
Qed.

Lemma awaits_envHas table e : awaits table e -> envHas needsTenantID e = true.
Proof.
  intros H. apply awaits_lookup in H. unfold envHas, envRange.
  apply List.existsb_exists. exists (table, needsTenantID). split.
  - apply list_elem_of_In, elem_of_map_to_list. exact H.
  - apply bool_decide_eq_true. reflexivity.
Qed.

Lemma awaits_In table e : awaits table e -> In table (sortedKeys e).
Proof. intros H. apply sortedKeys_In. rewrite (awaits_lookup _ _ H). eauto. Qed.

Lemma awaits_store table e a r :
  envGet e a = noStatus -> awaits table e ->
  awaits table (<[a := if bool_decide (envGet e r = noStatus) then needsTenantID
                       else envGet e r]> e).
Proof.
  unfold awaits. intros Ha H. unfold envGet at 1.
  rewrite lookup_insert_ne; [exact H|]. intros ->. congruence.
Qed.

Lemma allAwait_store e a r :
  envGet e a = noStatus -> allAwait e ->
  allAwait (<[a := if bool_decide (envGet e r = noStatus) then needsTenantID
                   else envGet e r]> e).
Proof.
  intros Ha H table. set (v := if bool_decide _ then _ else _).
  assert (Hv : v = needsTenantID).
  { unfold v. case_bool_decide as E; [reflexivity|]. destruct (H r); congruence. }
  destruct (decide (a = table)) as [->|Hne].
  - right. unfold envGet. rewrite lookup_insert_eq. exact Hv.
  - unfold envGet. rewrite lookup_insert_ne by exact Hne. apply H.
Qed.

Lemma allAwait_empty : allAwait newEnv.
Proof. intros table. left. reflexivity. Qed.

(** The condition is written in the scope it is entered with. *)
Lemma inEnv_whereCondition I
    (I_store : forall e a r, envGet e a = noStatus -> I e ->
       I (<[a := if bool_decide (envGet e r = noStatus) then needsTenantID
                 else envGet e r]> e))
    fuel where_ :
  plain where_ = true -> preserves (inEnv I) (whereCondition (rewriter fuel) where_).
Proof.
  intros Hp. destruct (inEnv_rewriter I I_store fuel) as [Hn Hb].
  unfold whereCondition.
  destruct where_;
    try (apply preserves_wrap, inEnv_transformNode; [exact Hn|exact Hp]).
  - apply preserves_ret.
  - cbn [plain] in Hp.
    destruct Boolop;
      [apply preserves_wrap, inEnv_transformNode; [exact Hn|exact Hp]| |];
      (apply preserves_bind; [apply inEnv_Fprint|intros _];
       apply preserves_bind; [|intros _; apply inEnv_Fprint];
       apply preserves_wrap, inEnv_transformBoolExpr; assumption).
Qed.

Lemma startsWith_whereCondition pre fuel where_ :
  preserves (startsWith pre) (whereCondition (rewriter fuel) where_).
Proof.
  pose proof (startsWith_rewriter pre fuel) as Hself.
  unfold whereCondition.
  destruct where_;
    try (apply preserves_wrap, startsWith_transformNode; exact Hself).
  - apply preserves_ret.
  - destruct Boolop;
      [apply preserves_wrap, startsWith_transformNode; exact Hself| |];
      (apply preserves_bind; [apply startsWith_Fprint|intros _];
       apply preserves_bind; [|intros _; apply startsWith_Fprint];
       apply preserves_wrap, startsWith_transformBoolExpr; exact Hself).
Qed.

Lemma settingsOf_whereCondition t fuel where_ :
  preserves (settingsOf t) (whereCondition (rewriter fuel) where_).
Proof.
  pose proof (preserves_rewriter _ (settingsOf_frame t) (settingsOf_addTenantID t) fuel)
    as Hself.
  unfold whereCondition.
  destruct where_;
    try (apply preserves_wrap, preserves_transformNode; exact Hself).
  - apply preserves_ret.
  - destruct Boolop;
      [apply preserves_wrap, preserves_transformNode; exact Hself| |];
      (apply preserves_bind; [apply preserves_Fprint, settingsOf_frame|intros _];
       apply preserves_bind; [|intros _; apply preserves_Fprint, settingsOf_frame];
       apply preserves_wrap, preserves_transformBoolExpr;
       [apply settingsOf_frame|exact Hself]).
Qed.

(** When the tenant predicates are written, the condition has been. *)
Lemma transformWhereHelper_inv self where_ oc tables s s' :
  existsb (needs (env s)) tables = true ->
  transformWhereHelper self where_ oc tables s = (Ok tt, s') ->
  exists s1, whereCondition self where_ s = (Ok tt, s1).
Proof.
  intros Hex H. unfold transformWhereHelper in H.
  unfold bind at 1 in H. unfold getEnv at 1 in H.
  change (existsb (fun table => bool_decide (envGet (env s) table = needsTenantID)) tables)
    with (existsb (needs (env s)) tables) in H.
  rewrite Hex in H. cbn [negb] in H.
  apply bind_inv in H as ([] & sa & Ha & _).
  destruct where_; simpl in Ha |- *;
    try (apply bind_inv in Ha as ([] & sb & Hb & _); exists sb; exact Hb).
  - eauto.
  - destruct Boolop; simpl in Ha |- *.
    + apply bind_inv in Ha as ([] & sb & Hb & _). exists sb. exact Hb.
    + apply bind_inv in Ha as ([] & sb & Hb & Ha).
      apply bind_inv in Ha as ([] & sc & Hc & Ha).
      apply bind_inv in Ha as ([] & sd & Hd & _).
      exists sd. erewrite bind_ok by exact Hb. erewrite bind_ok by exact Hc. exact Hd.
    + apply bind_inv in Ha as ([] & sb & Hb & Ha).
      apply bind_inv in Ha as ([] & sc & Hc & Ha).
      apply bind_inv in Ha as ([] & sd & Hd & _).
      exists sd. erewrite bind_ok by exact Hb. erewrite bind_ok by exact Hc. exact Hd.
Qed.

(** A WHERE clause that is written in a scope where [table] awaits its
    tenant predicate ends with the predicates, the one of [table] among
    them. *)
Lemma transformWhere_scopes fuel where_ oc table t s s' :
  plain where_ = true -> awaits table (env s) -> settingsOf t s ->
  transformWhere (rewriter fuel) where_ oc s = (Ok tt, s') ->
  isTransformed (xf s') = true
  /\ settingsOf t s'
  /\ exists cond qualified needy,
       In table needy
       /\ buf s' = buf s ++ " WHERE " ++ cond
                   ++ GoStrings.Join
                        (List.map (tenantPredicate (tenantIDCol t) (tenantIDNum t) qualified)
                                  needy) " AND ".
Proof.
  intros Hp Ha Hset H. unfold transformWhere in H.
  unfold bind at 1 in H. unfold getEnv at 1 in H.
  unfold bind at 1 in H. unfold setEnv at 1 in H.
  unfold bind at 1 in H. unfold getEnv at 1 in H. cbn [env] in H.
  pose proof (awaits_promote _ _ Ha) as Ha'.
  set (e' := promoteLeftJoinTable (env s)) in *.
  assert (Hdo : match where_ with nodes.Nil => envHas needsTenantID e' | _ => true end = true).
  { destruct where_; try reflexivity. exact (awaits_envHas _ _ Ha'). }
  rewrite Hdo in H. cbn [negb] in H.
  unfold bind at 1 in H. unfold Fprint at 1 in H. cbn [xf buf env sites] in H.
  change {| xf := xf s; buf := buf s ++ " WHERE "; env := e'; sites := sites s |}
    with (enterWhere s) in H.
  assert (Hex : existsb (needs (env (enterWhere s))) (sortedKeys e') = true).
  { apply envHas_needs. exact (awaits_envHas _ _ Ha'). }
  destruct (transformWhereHelper_inv _ _ _ _ _ _ Hex H) as (s1 & Hcond).
  rewrite (transformWhereHelper_run _ _ _ _ _ _ (sortedKeys_NoDup e') Hex Hcond) in H.
  injection H as <-.
  assert (H1 : awaits table (env s1)).
  { exact (preserves_run _ _ _ _ _
             (inEnv_whereCondition (awaits table) (awaits_store table) fuel where_ Hp)
             Hcond Ha'). }
  assert (H2 : settingsOf t s1).
  { apply (preserves_run _ _ _ _ _ (settingsOf_whereCondition t fuel where_) Hcond).
    exact Hset. }
  assert (H3 : startsWith (buf s ++ " WHERE ") s1).
  { apply (preserves_run _ _ _ _ _
             (startsWith_whereCondition (buf s ++ " WHERE ") fuel where_) Hcond).
    exists "". symmetry. apply append_nil_r. }
  set (needy := List.filter (needs (env s1)) (sortedKeys e')).
  assert (Hin : In table needy).
  { apply List.filter_In. split; [exact (awaits_In _ _ Ha')|].
    apply bool_decide_eq_true. exact H1. }
  destruct Hset as [Hc Hn]. destruct H2 as [Hc1 Hn1]. destruct H3 as (w & Hw).
  split; [|split].
  - unfold afterPredicates. cbn [xf]. fold needy.
    destruct needy; [destruct Hin|reflexivity].
  - unfold afterPredicates, settingsOf. cbn [xf]. fold needy.
    destruct (length needy); simpl; split; assumption.
  - exists (w ++ whereSeparator where_), ((1 <? length (sortedKeys e'))%nat || oc)%bool, needy.
    split; [exact Hin|].
    unfold afterPredicates. cbn [buf]. fold needy. rewrite Hw. unfold tenantIDCol. rewrite Hc1, Hn1.
    rewrite !append_assoc. reflexivity.
Qed.

Lemma wrap_inv {A} msg (m : M A) s a s' : wrap msg m s = (Ok a, s') -> m s = (Ok a, s').
Proof.
  unfold wrap. destruct (m s) as [[a0|e|x] s0]; intros H; try discriminate H.
  injection H as -> ->. reflexivity.
Qed.

(** A table of a FROM clause is registered under its name, and awaits its
    tenant predicate when every table before it does. *)
Lemma rangeVar_registers fuel rv s a s' :
  allAwait (env s) ->
  transformNode (rewriter fuel) (nodes.RangeVar rv) s = (Ok a, s') ->
  awaits (tableName rv) (env s').
Proof.
  intros Hall H. unfold transformNode in H.
  apply bind_inv in H as (b & sx & H & Hret). injection Hret as _ <-.
  destruct fuel as [|fuel]; [discriminate H|].
  cbn [rewriter rec_transformNodeHelper transformNodeHelper] in H.
  unfold tableName, awaits.
  destruct (RangeVar.Alias rv) as [al|];
    cbv [bind Fprint envLookup envStore getEnv setEnv ret] in H; cbn [env xf buf sites] in H.
  - destruct (Hall (Alias.Aliasname al)) as [Hnone|Hneeds].
    + rewrite (bool_decide_eq_true_2 _ Hnone) in H. injection H as _ <-. cbn [env].
      unfold envGet at 1. rewrite lookup_insert_eq. simpl.
      case_bool_decide as E; [reflexivity|].
      destruct (Hall (RangeVar.Relname rv)); congruence.
    + rewrite bool_decide_eq_false_2 in H by congruence.
      injection H as _ <-. exact Hneeds.
  - destruct (Hall (RangeVar.Relname rv)) as [Hnone|Hneeds].
    + rewrite (bool_decide_eq_true_2 _ Hnone) in H. injection H as _ <-. cbn [env].
      unfold envGet. rewrite lookup_insert_eq. reflexivity.
    + rewrite bool_decide_eq_false_2 in H by congruence.
      injection H as _ <-. exact Hneeds.
Qed.

Section Lists.
Variable fuel : nat.

Lemma inEnv_nodes I
    (I_store : forall e a r, envGet e a = noStatus -> I e ->
       I (<[a := if bool_decide (envGet e r = noStatus) then needsTenantID
                 else envGet e r]> e))
    msg l :
  forallb plain l = true ->
  preserves (inEnv I)
    (wrap msg (commaSeparated l (transformNode (rewriter fuel)))).
Proof.
  intros Hp. destruct (inEnv_rewriter I I_store fuel) as [Hn Hb].
  apply preserves_wrap, inEnv_commaSeparated. intros n Hn'.
  apply inEnv_transformNode; [exact Hn|exact (plain_In _ _ Hp Hn')].
Qed.

Lemma settingsOf_nodes t msg l :
  preserves (settingsOf t)
    (wrap msg (commaSeparated l (transformNode (rewriter fuel)))).
Proof.
  pose proof (preserves_rewriter _ (settingsOf_frame t) (settingsOf_addTenantID t) fuel)
    as Hself.
  apply preserves_wrap, preserves_commaSeparated; [apply settingsOf_frame|].
  intros n. apply preserves_transformNode. exact Hself.
Qed.

Lemma startsWith_nodes pre msg l :
  preserves (startsWith pre)
    (wrap msg (commaSeparated l (transformNode (rewriter fuel)))).
Proof.
  pose proof (startsWith_rewriter pre fuel) as Hself.
  apply preserves_wrap, startsWith_commaSeparated.
  intros n. apply startsWith_transformNode. exact Hself.
Qed.
End Lists.

Lemma transformTree_delete t stmt :
  transformTree t (single (nodes.DeleteStmt stmt))
  = transformDelete (rewriter (height (nodes.RawStmt (nodes.DeleteStmt stmt)))) stmt (start t).
Proof. reflexivity. Qed.



Lemma preserves_nodes (P : st -> Prop)
    (P_frame : forall s s', xf s = xf s' -> sites s = sites s' -> P s -> P s')
    (P_addTenantID : preserves P addTenantID) fuel msg l :
  preserves P (wrap msg (commaSeparated l (transformNode (rewriter fuel)))).
Proof.
  apply preserves_wrap, preserves_commaSeparated; [exact P_frame|].
  intros n. apply preserves_transformNode.
  exact (preserves_rewriter P P_frame P_addTenantID fuel).
Qed.

(** What [transformUpdate] has written when it returns without error. *)
Lemma transformUpdate_scopes fuel (stmt : UpdateStmt.t Node) t s0 s :
  UpdateStmt.WithClause stmt = None ->
  forallb plain (UpdateStmt.TargetList stmt) = true ->
  forallb plain (UpdateStmt.FromClause stmt) = true ->
  plain (UpdateStmt.WhereClause stmt) = true ->
  allAwait (env s0) -> settingsOf t s0 ->
  transformUpdate (rewriter fuel) stmt s0 = (Ok tt, s) ->
  isTransformed (xf s) = true
  /\ scopedTo (tenantIDCol t) (tenantIDNum t) (tableName (UpdateStmt.Relation stmt)) (buf s).
Proof.
  intros Hwith Ht Hf Hw Hall S0 E.
  unfold transformUpdate in E.
  rewrite Hwith in E. cbn [handleCTE] in E.
  apply bind_inv in E as (names & sa & Ha & E). apply wrap_inv in Ha. injection Ha as _ <-.
  apply bind_inv in E as ([] & s1 & H1 & E).
  apply bind_inv in E as ([] & s2 & H2 & E).
  apply bind_inv in E as ([] & s3 & H3 & E).
  apply bind_inv in E as ([] & s4 & H4 & E).
  apply bind_inv in E as ([] & s5 & H5 & E).
  set (table := tableName (UpdateStmt.Relation stmt)).
  assert (A1 : allAwait (env s1) /\ settingsOf t s1).
  { injection H1 as <-. split; assumption. }
  destruct A1 as [A1 S1].
  assert (A2 : awaits table (env s2)).
  { apply wrap_inv in H2. eapply rangeVar_registers; [|exact H2]. exact A1. }
  assert (S2 : settingsOf t s2).
  { exact (preserves_run (settingsOf t) _ _ _ _
             (preserves_wrap _ _ _
                (preserves_transformNode _ _
                   (preserves_rewriter _ (settingsOf_frame t) (settingsOf_addTenantID t) fuel)
                   _)) H2 S1). }
  assert (A3 : awaits table (env s3) /\ settingsOf t s3).
  { injection H3 as <-. split; assumption. }
  destruct A3 as [A3 S3].
  assert (A4 : awaits table (env s4)).
  { exact (preserves_run _ _ _ _ _
             (inEnv_nodes fuel (awaits table) (awaits_store table) _ _ Ht) H4 A3). }
  assert (S4 : settingsOf t s4).
  { exact (preserves_run _ _ _ _ _
             (preserves_nodes _ (settingsOf_frame t) (settingsOf_addTenantID t) fuel _ _)
             H4 S3). }
  assert (A5 : awaits table (env s5) /\ settingsOf t s5).
  { destruct (0 <? length (UpdateStmt.FromClause stmt))%nat.
    - apply bind_inv in H5 as ([] & sx & Hx & H5). injection Hx as <-. split.
      + exact (preserves_run _ _ _ _ _
                 (inEnv_nodes fuel (awaits table) (awaits_store table) _ _ Hf) H5 A4).
      + exact (preserves_run _ _ _ _ _
                 (preserves_nodes _ (settingsOf_frame t) (settingsOf_addTenantID t) fuel _ _)
                 H5 S4).
    - injection H5 as <-. split; assumption. }
  destruct A5 as [A5 [Hconn Hnum]].
  clear H1 H2 H3 H4 H5 A1 S1 A2 S2 A3 S3 A4 S4.
  match type of E with
  | ?m s5 = _ =>
      assert (Hcase : UpdateStmt.WhereClause stmt = nodes.Nil
                \/ m = (wrap "transformUpdate"
                          (transformWhere (rewriter fuel) (UpdateStmt.WhereClause stmt) false) ;;
                        if (0 <? length (UpdateStmt.ReturningList stmt))%nat then
                          Fprint " RETURNING " ;;
                          wrap "transformUpdate"
                            (commaSeparated (UpdateStmt.ReturningList stmt)
                               (transformNode (rewriter fuel)))
                        else ret tt))
        by (destruct (UpdateStmt.WhereClause stmt); first [left; reflexivity|right; reflexivity])
  end.
  destruct Hcase as [Hnil|Hcase].
  - (* no condition: the WHERE clause is the tenant predicate *)
    rewrite Hnil in E.
    apply bind_inv in E as (t' & sb & Hb & E). injection Hb as <- <-.
    apply bind_inv in E as ([] & sc & Hc & E). injection Hc as <-. injection E as <-.
    cbn [xf buf isTransformed]. split; [reflexivity|].
    exists (buf s5), "", false, [table], "". split; [left; reflexivity|].
    unfold tenantIDCol. rewrite Hconn, Hnum.
    unfold tenantPredicate. cbn [List.map GoStrings.Join].
    repeat (progress (rewrite ?append_assoc, ?append_nil_r; simpl)). reflexivity.
  - rewrite Hcase in E. clear Hcase.
    apply bind_inv in E as ([] & s6 & H6 & E). apply wrap_inv in H6.
    destruct (transformWhere_scopes _ _ _ _ _ _ _ Hw A5 (conj Hconn Hnum) H6)
      as (Hmark & _ & cond & qualified & needy & Hin & Hbuf).
    assert (R : marked s /\ startsWith (buf s6) s).
    { destruct (0 <? length (UpdateStmt.ReturningList stmt))%nat.
      - apply bind_inv in E as ([] & sx & Hx & E). injection Hx as <-. split.
        + exact (preserves_run _ _ _ _ _
                   (preserves_nodes _ marked_frame marked_addTenantID fuel _ _) E Hmark).
        + apply (preserves_run _ _ _ _ _ (startsWith_nodes fuel (buf s6) _ _) E).
          exists " RETURNING ". reflexivity.
      - injection E as <-. split; [exact Hmark|exists ""; symmetry; apply append_nil_r]. }
    destruct R as [Rm (w & Rw)]. split; [exact Rm|].
    exists (buf s5), cond, qualified, needy, w. split; [exact Hin|].
    rewrite Rw, Hbuf, !append_assoc. reflexivity.
Qed.

Lemma transformTree_update t stmt :
  transformTree t (single (nodes.UpdateStmt stmt))
  = transformUpdate (rewriter (height (nodes.RawStmt (nodes.UpdateStmt stmt)))) stmt (start t).
Proof. reflexivity. Qed.



(** The parts of a statement keep an invariant of the transformer. *)
Ltac kept frame add Hself :=
  repeat first
    [ lazymatch goal with
      | |- preserves _ (ret _) => apply preserves_ret
      | |- preserves _ (fail _) => apply preserves_fail
      | |- preserves _ (Fprint _) => apply preserves_Fprint, frame
      | |- preserves _ addTenantID => apply add
      | |- preserves _ (bind _ _) => apply preserves_bind; [|intros]
      | |- preserves _ (wrap _ _) => apply preserves_wrap
      | |- preserves _ (commaSeparated _ _) =>
          apply preserves_commaSeparated; [apply frame|intros]
      | |- preserves _ (transformNode _ _) => apply preserves_transformNode; exact Hself
      | |- preserves _ (transformSelectCol _ _) =>
          apply preserves_transformSelectCol; [apply frame|exact Hself]
      | |- preserves _ (match ?x with _ => _ end) => destruct x
      end ].

(** The parts of a statement only add to what is written. *)
Ltac appends Hself :=
  repeat first
    [ lazymatch goal with
      | |- preserves _ (ret _) => apply preserves_ret
      | |- preserves _ (fail _) => apply preserves_fail
      | |- preserves _ (Fprint _) => apply startsWith_Fprint
      | |- preserves _ (bind _ _) => apply preserves_bind; [|intros]
      | |- preserves _ (wrap _ _) => apply preserves_wrap
      | |- preserves _ (commaSeparated _ _) => apply startsWith_commaSeparated; intros
      | |- preserves _ (transformNode _ _) => apply startsWith_transformNode; exact Hself
      | |- preserves _ (match ?x with _ => _ end) => destruct x
      end ].

Lemma inEnv_selectCols I
    (I_store : forall e a r, envGet e a = noStatus -> I e ->
       I (<[a := if bool_decide (envGet e r = noStatus) then needsTenantID
                 else envGet e r]> e))
    fuel msg l :
  forallb plain l = true ->
  preserves (inEnv I) (wrap msg (commaSeparated l (transformSelectCol (rewriter fuel)))).
Proof.
  intros Hp. destruct (inEnv_rewriter I I_store fuel) as [Hn Hb].
  apply preserves_wrap, inEnv_commaSeparated. intros n Hin.
  pose proof (plain_In _ _ Hp Hin) as Hpn.
  unfold transformSelectCol. destruct n; try apply preserves_fail.
  cbn [plain] in Hpn.
  apply preserves_bind; [apply preserves_wrap, inEnv_transformNode; assumption|].
  intros _. destruct Name; [apply inEnv_Fprint|apply preserves_ret].
Qed.

(** The first table of a FROM list awaits its tenant predicate after the
    list. *)
Lemma from_registers fuel rv rest msg s s' :
  allAwait (env s) -> forallb plain rest = true ->
  wrap msg (commaSeparated (nodes.RangeVar rv :: rest) (transformNode (rewriter fuel))) s
  = (Ok tt, s') ->
  awaits (tableName rv) (env s').
Proof.
  intros Hall Hp H. apply wrap_inv in H. unfold commaSeparated in H.
  apply bind_inv in H as (i & sa & H & Hret). injection Hret as <-.
  cbn [forRange] in H.
  apply bind_inv in H as (i1 & sb & Hfirst & H).
  apply bind_inv in Hfirst as ([] & sc & Hc & Hfirst). injection Hc as <-.
  apply bind_inv in Hfirst as ([] & sd & Hd & Hfirst). injection Hfirst as _ <-.
  pose proof (rangeVar_registers _ _ _ _ _ Hall Hd) as Ha.
  destruct (inEnv_rewriter _ (awaits_store (tableName rv)) fuel) as [Hn Hb].
  refine (preserves_run (inEnv (awaits (tableName rv))) _ _ _ _ _ H Ha).
  apply preserves_forRange_In. intros acc x Hx.
  apply preserves_bind;
    [destruct (0 <? acc)%nat; [apply inEnv_Fprint|apply preserves_ret]|intros _].
  apply preserves_bind; [|intros; apply preserves_ret].
  apply inEnv_transformNode; [exact Hn|exact (plain_In _ _ Hp Hx)].
Qed.

(** What [transformSelect] has written for a statement of its own when it
    returns without error. *)
Lemma transformSelect_scopes fuel (stmt : SelectStmt.t Node) rv rest t s0 s :
  SelectStmt.WithClause stmt = None ->
  forallb plain (SelectStmt.TargetList stmt) = true ->
  SelectStmt.FromClause stmt = nodes.RangeVar rv :: rest ->
  forallb plain rest = true ->
  plain (SelectStmt.WhereClause stmt) = true ->
  allAwait (env s0) -> settingsOf t s0 ->
  transformSelect (rewriter fuel) stmt false s0 = (Ok tt, s) ->
  isTransformed (xf s) = true
  /\ scopedTo (tenantIDCol t) (tenantIDNum t) (tableName rv) (buf s).
Proof.
  intros Hwith Ht Hfrom Hrest Hw Hall S0 E.
  pose proof (preserves_rewriter _ (settingsOf_frame t) (settingsOf_addTenantID t) fuel)
    as Hsets.
  pose proof (preserves_rewriter _ marked_frame marked_addTenantID fuel) as Hmarks.
  unfold transformSelect in E.
  rewrite Hwith, Hfrom in E. cbn [handleCTE] in E.
  apply bind_inv in E as (names & sa & Ha & E). apply wrap_inv in Ha. injection Ha as _ <-.
  apply bind_inv in E as ([] & s1 & H1 & E). injection H1 as <-.
  apply bind_inv in E as ([] & s2 & H2 & E).
  apply bind_inv in E as (star & s3 & H3 & E).
  apply bind_inv in E as ([] & s4 & H4 & E).
  apply bind_inv in E as ([] & s5 & H5 & E).
  apply bind_inv in E as ([] & s6 & H6 & E). apply wrap_inv in H6.
  assert (A2 : allAwait (env s2) /\ settingsOf t s2).
  { destruct (0 <? length (SelectStmt.DistinctClause stmt))%nat; [discriminate H2|].
    injection H2 as <-. split; assumption. }
  destruct A2 as [A2 S2].
  assert (A3 : allAwait (env s3) /\ settingsOf t s3).
  { split.
    - refine (preserves_run (inEnv allAwait) _ _ _ _ _ H3 A2).
      repeat first
        [ lazymatch goal with
          | |- preserves _ (ret _) => apply preserves_ret
          | |- preserves _ (fail _) => apply preserves_fail
          | |- preserves _ (Fprint _) => apply inEnv_Fprint
          | |- preserves _ (bind _ _) => apply preserves_bind; [|intros]
          | |- preserves _ (match ?x with _ => _ end) => destruct x
          end ].
    - refine (preserves_run (settingsOf t) _ _ _ _ _ H3 S2).
      kept (settingsOf_frame t) (settingsOf_addTenantID t) Hsets. }
  destruct A3 as [A3 S3].
  assert (A4 : allAwait (env s4) /\ settingsOf t s4).
  { destruct (negb star).
    - apply bind_inv in H4 as ([] & sx & Hx & H4). injection H4 as <-. split.
      + exact (preserves_run _ _ _ _ _
                 (inEnv_selectCols allAwait allAwait_store fuel _ _ Ht) Hx A3).
      + refine (preserves_run (settingsOf t) _ _ _ _ _ Hx S3).
        kept (settingsOf_frame t) (settingsOf_addTenantID t) Hsets.
    - injection H4 as <-. split; assumption. }
  destruct A4 as [A4 S4].
  change (0 <? length (nodes.RangeVar rv :: rest))%nat with true in H5.
  apply bind_inv in H5 as ([] & sy & Hy & H5). injection Hy as <-.
  assert (A5 : awaits (tableName rv) (env s5)).
  { eapply from_registers; [|exact Hrest|exact H5]. exact A4. }
  assert (S5 : settingsOf t s5).
  { exact (preserves_run _ _ _ _ _
             (preserves_nodes _ (settingsOf_frame t) (settingsOf_addTenantID t) fuel _ _)
             H5 S4). }
  destruct (transformWhere_scopes _ _ _ _ _ _ _ Hw A5 S5 H6)
    as (Hmark & _ & cond & qualified & needy & Hin & Hbuf).
  assert (R : marked s /\ startsWith (buf s6) s).
  { clear -E Hmark Hmarks. split.
    - refine (preserves_run marked _ _ _ _ _ E Hmark).
      kept marked_frame marked_addTenantID Hmarks.
    - pose proof (startsWith_rewriter (buf s6) fuel) as Happ.
      refine (preserves_run (startsWith (buf s6)) _ _ _ _ _ E _);
        [|exists ""; symmetry; apply append_nil_r].
      appends Happ. }
  destruct R as [Rm (w & Rw)]. split; [exact Rm|].
  exists (buf s5), cond, qualified, needy, w. split; [exact Hin|].
  rewrite Rw, Hbuf, !append_assoc. reflexivity.
Qed.

Lemma transformTree_select t stmt :
  transformTree t (single (nodes.SelectStmt stmt))
  = transformSelect (rewriter (height (nodes.RawStmt (nodes.SelectStmt stmt)))) stmt false
      (start t).
Proof. reflexivity. Qed.


